(** * Pyodide worker and package loader: a shallow embedding

    The development follows the three TypeScript modules of the repository
    and its build script:

    - the package manager (the [PackageCache] registry of loaded, loading and
      failed package names, and [getPredefinedPackages]),
    - the Pyodide web worker ([fetchPyodidePackages], [initializePyodide],
      [preloadPackages], [executeCode] and the [onmessage] dispatcher),
    - the package loader utility ([fetchPyodidePackages] over localStorage,
      [checkMissingPackages], [installMissingPackages],
      [preloadPyodidePackages], the IndexedDB wheel cache,
      [setupCachedPackageLoader] and [clearPyodideCache]),
    - the build script ([initNetworkProxyFromEnv], [copyPyodide], and the
      functions of the helper and initialization scripts it generates).

    JavaScript globals become fields of an explicit [World]; [async]
    functions become computations of a state-and-exception monad; the
    Pyodide runtime, the network, the clock and IndexedDB are an [Env] of
    answers that may depend on the whole history of calls made so far.

    Conventions. The functions of the modules [Worker] and [Loader]
    describe a call that runs from its start to its settlement with no
    other code of the same realm in between; what the controller could
    see meanwhile is kept on a timeline of the cell map. There the
    background preload that [initializePyodide] starts is only counted,
    and is a computation of its own, [Worker.preloadPackages]; what the
    built-in Python snippets print is left out. Module [Async] drops the
    condition: it cuts the functions of the worker at their [await]s,
    starts the preload in the background, lets the output of the runtime
    reach the handlers that are installed, and runs the whole under
    every schedule of the event loop. Writing to the console is not part
    of the state. Text is ASCII. A value that crosses [json.dumps] and
    [JSON.parse] arrives as it was. *)

From stdpp Require Import gmap strings list.
From Stdlib Require Import ZArith Lia Ascii.

#[global] Set Warnings "-clear-no-such-hyp".

(** ** The package manager registry *)

Module Registry.

(** [type PackageCache = { loaded; loading; failed : Set<string> }] *)
Record PackageCache := mkPackageCache {
  loaded : gset string;
  loading : gset string;
  failed : gset string
}.

(** [const packageCache = { loaded: new Set(), loading: new Set(), failed: new Set() }] *)
Definition packageCache : PackageCache :=
  {| loaded := ∅; loading := ∅; failed := ∅ |}.

Definition isPackageLoaded (packageName : string) (c : PackageCache) : bool :=
  bool_decide (packageName ∈ loaded c).

(** [packageCache.loading.delete(n); packageCache.loaded.add(n)] *)
Definition markPackageAsLoaded (packageName : string) (c : PackageCache) : PackageCache :=
  {| loaded := loaded c ∪ {[packageName]};
     loading := loading c ∖ {[packageName]};
     failed := failed c |}.

(** [packageCache.loading.delete(n); packageCache.failed.add(n)] *)
Definition markPackageAsFailed (packageName : string) (c : PackageCache) : PackageCache :=
  {| loaded := loaded c;
     loading := loading c ∖ {[packageName]};
     failed := failed c ∪ {[packageName]} |}.

(** Modelled from the spec: the source has no function that adds a name to
    [loading]; the specification describes [markLoading] as moving the name
    into [loading], removing it from [failed] if present. *)
Definition markLoading (packageName : string) (c : PackageCache) : PackageCache :=
  {| loaded := loaded c;
     loading := loading c ∪ {[packageName]};
     failed := failed c ∖ {[packageName]} |}.

Inductive RegistryOp :=
  | OpMarkLoading (n : string)
  | OpMarkLoaded (n : string)
  | OpMarkFailed (n : string).

Definition apply_op (o : RegistryOp) (c : PackageCache) : PackageCache :=
  match o with
  | OpMarkLoading n => markLoading n c
  | OpMarkLoaded n => markPackageAsLoaded n c
  | OpMarkFailed n => markPackageAsFailed n c
  end.

Definition run_ops (ops : list RegistryOp) (c : PackageCache) : PackageCache :=
  fold_left (fun acc o => apply_op o acc) ops c.

(** Number of the three sets that contain the name. *)
Definition membership (n : string) (c : PackageCache) : nat :=
  (if bool_decide (n ∈ loaded c) then 1 else 0) +
  (if bool_decide (n ∈ loading c) then 1 else 0) +
  (if bool_decide (n ∈ failed c) then 1 else 0).

Definition at_most_one (n : string) (c : PackageCache) : Prop :=
  membership n c ≤ 1.

(** The one set an operation leaves alone: the operation keeps its name in
    at most one set exactly when the name is not in that set already. *)
Definition op_guard (o : RegistryOp) (c : PackageCache) : bool :=
  match o with
  | OpMarkLoading n => negb (bool_decide (n ∈ loaded c))
  | OpMarkLoaded n => negb (bool_decide (n ∈ failed c))
  | OpMarkFailed n => negb (bool_decide (n ∈ loaded c))
  end.

Fixpoint guarded (ops : list RegistryOp) (c : PackageCache) : bool :=
  match ops with
  | [] => true
  | o :: rest => op_guard o c && guarded rest (apply_op o c)
  end.

End Registry.

(** ** JavaScript strings and values *)

Module Js.

(** [result: any]: what [runPythonAsync] hands back. Python's [None],
    booleans, numbers and strings arrive as JavaScript primitives; every
    other Python object (a list, a dict, a function, an instance) arrives
    as a [PyProxy], here with its printed form. *)
Inductive JsValue :=
  | JsNull
  | JsBool (b : bool)
  | JsNum (z : Z)
  | JsStr (s : string)
  | JsProxy (repr : string).

(** Whether the structured clone of [postMessage] accepts the value: a
    proxy cannot be cloned. *)
Definition clonable (v : JsValue) : bool :=
  match v with
  | JsProxy _ => false
  | JsNull | JsBool _ | JsNum _ | JsStr _ => true
  end.

(** [if (s)]: the empty string is falsy. *)
Definition truthy (s : string) : bool :=
  match s with EmptyString => false | String _ _ => true end.

Definition lower_ascii (a : ascii) : ascii :=
  let n := nat_of_ascii a in
  if (65 <=? n) && (n <=? 90) then ascii_of_nat (n + 32) else a.

(** [s.toLowerCase()] on ASCII text. *)
Fixpoint toLowerCase (s : string) : string :=
  match s with
  | EmptyString => EmptyString
  | String a r => String (lower_ascii a) (toLowerCase r)
  end.

Fixpoint has_char (sep : ascii) (s : string) : bool :=
  match s with
  | EmptyString => false
  | String a r => Ascii.eqb a sep || has_char sep r
  end.

(** [s.split(sep)[0]] *)
Fixpoint split_first (sep : ascii) (s : string) : string :=
  match s with
  | EmptyString => EmptyString
  | String a r => if Ascii.eqb a sep then EmptyString else String a (split_first sep r)
  end.

(** [parts = s.split(sep); parts[parts.length - 1]] *)
Fixpoint split_last (sep : ascii) (s : string) : string :=
  match s with
  | EmptyString => EmptyString
  | String a r =>
      if has_char sep r then split_last sep r
      else if Ascii.eqb a sep then r else String a r
  end.

(** [hay.includes(needle)] *)
Fixpoint includes (needle hay : string) : bool :=
  String.prefix needle hay ||
  match hay with
  | EmptyString => false
  | String _ r => includes needle r
  end.

(** [s.endsWith(suffix)] *)
Definition endsWith (suffix s : string) : bool :=
  let n := String.length s in
  let k := String.length suffix in
  (k <=? n) && String.eqb (String.substring (n - k) k s) suffix.

(** [l.slice(i, j)] for [0 <= i <= j]. *)
Definition slice {A} (i j : nat) (l : list A) : list A :=
  take (j - i) (drop i l).

End Js.

(** ** Computations: state and exceptions *)

(** The outcome of an [async] function: it resolves with a value or
    rejects; a rejection carries [String(error)]. *)
Inductive Res (A : Type) :=
  | Ok (a : A)
  | Throw (e : string).
Arguments Ok {A} a.
Arguments Throw {A} e.

Definition M (S A : Type) : Type := S -> Res A * S.

Definition ret {S A} (a : A) : M S A := fun s => (Ok a, s).

Definition throw {S A} (e : string) : M S A := fun s => (Throw e, s).

Definition bind {S A B} (m : M S A) (k : A -> M S B) : M S B :=
  fun s =>
    match m s with
    | (Ok a, s') => k a s'
    | (Throw e, s') => (Throw e, s')
    end.

Definition get {S} : M S S := fun s => (Ok s, s).

Definition modify {S} (f : S -> S) : M S unit := fun s => (Ok tt, f s).

(** [try { m } catch (e) { h e }] *)
Definition try_catch {S A} (m : M S A) (h : string -> M S A) : M S A :=
  fun s =>
    match m s with
    | (Ok a, s') => (Ok a, s')
    | (Throw e, s') => h e s'
    end.

(** [try { m } finally { f }]: [f] runs on both exits; if [f] itself
    throws, that exception replaces the outcome of [m]. *)
Definition try_finally {S A} (m : M S A) (f : M S unit) : M S A :=
  fun s =>
    match m s with
    | (r, s') =>
        match f s' with
        | (Ok _, s'') => (r, s'')
        | (Throw e, s'') => (Throw e, s'')
        end
    end.

Declare Scope js_scope.
Delimit Scope js_scope with js.
Notation "x <- m ;; k" := (bind m (fun x => k))
  (at level 100, m at next level, right associativity) : js_scope.
Notation "m ;;; k" := (bind m (fun _ => k))
  (at level 100, right associativity) : js_scope.
Open Scope js_scope.

(** [for (const x of l) { body x }] *)
Fixpoint for_of {S A} (l : list A) (body : A -> M S unit) : M S unit :=
  match l with
  | [] => ret tt
  | x :: rest => body x ;;; for_of rest body
  end.

(** ** The data model *)

(** [type CellState = { id; status; result; stdout; stderr }] *)
Module Cell.
Inductive Status := idle | running | completed | error.

Record CellState := mkCellState {
  id : string;
  status : Status;
  result : Js.JsValue;
  stdout : string;
  stderr : string
}.

Definition set_status (s : Status) (c : CellState) : CellState :=
  mkCellState (id c) s (result c) (stdout c) (stderr c).
Definition set_result (v : Js.JsValue) (c : CellState) : CellState :=
  mkCellState (id c) (status c) v (stdout c) (stderr c).
Definition append_stdout (msg : string) (c : CellState) : CellState :=
  mkCellState (id c) (status c) (result c) (stdout c +:+ msg) (stderr c).
Definition append_stderr (msg : string) (c : CellState) : CellState :=
  mkCellState (id c) (status c) (result c) (stdout c) (stderr c +:+ msg).

Definition is_terminal (s : Status) : bool :=
  match s with completed | error => true | idle | running => false end.
End Cell.

(** The list tier: [{ timestamp: number; packages: string[] }] *)
Module ListCache.
Record PackageCache := mkPackageCache {
  timestamp : Z;
  packages : list string
}.

(** What [localStorage.getItem(CACHE_KEY)] holds: text that
    [JSON.parse] rejects, or the entry that [JSON.stringify] wrote. *)
Inductive StoredItem :=
  | Unparseable
  | Stored (c : PackageCache).
End ListCache.

(** The binary tier: [interface PackageWheelCache] *)
Module Wheel.
Record PackageWheelCache := mkPackageWheelCache {
  name : string;
  url : string;
  data : list Byte.byte;
  timestamp : Z
}.
End Wheel.

(** Messages of the worker: [self.postMessage({ type, ... })] and
    [event.data]. *)
Module Msg.
Inductive Message :=
  | initialized
  | stdout (id : string) (package : bool) (message : string)
  | stderr (id : string) (package : bool) (message : string)
  | result (id : string) (state : option Cell.CellState)
  | kernelState (state : gmap string Cell.CellState).

Inductive Request :=
  | initialize
  | execute (id code : option string)
  | getState
  | terminate
  | unknown (type : string).

Definition is_result (m : Message) : bool :=
  match m with
  | result _ _ => true
  | _ => false
  end.

(** Whether [postMessage] can clone the message: the texts always, a
    cell when its [result] can be cloned, the cell map when every cell
    in it can. *)
Definition clonable (m : Message) : bool :=
  match m with
  | initialized | stdout _ _ _ | stderr _ _ _ => true
  | result _ None => true
  | result _ (Some c) => Js.clonable (Cell.result c)
  | kernelState state =>
      bool_decide (map_Forall (fun _ c => Js.clonable (Cell.result c) = true) state)
  end.
End Msg.

(** The ambient [fetch]: the browser's own, or one of the two wrappers
    the source installs, each closing over the function it replaced. *)
Inductive FetchFn :=
  | NativeFetch
  | ProgressLogger (originalFetch : FetchFn)
  | WheelCapture (originalFetch : FetchFn).

(** [pyodide.loadPackage]: Pyodide's own, or the caching wrapper of
    [setupCachedPackageLoader] around the function it replaced. *)
Inductive LoadPackageFn :=
  | NativeLoadPackage
  | CachedLoadPackage (originalLoadPackage : LoadPackageFn).

(** ** The environment *)

(** The Python snippets the source passes to [runPythonAsync]. *)
Inductive PyScript :=
  | PyDiagnostics
  | PyConfigureMicropip
  | PyVerifyInstallation
  | PyShowAvailable
  | PyCheckMissing (requested_packages : list string).

(** Every interaction with the outside world, in the order it happened. *)
Inductive Call :=
  | CDateNow
  | CFetchPackageList
  | CLoadPyodide
  | CLoadPackage (names : list string)
  | CPyimport (name : string)
  | CRunPython (script : PyScript)
  | CInstall (names : list string)
  | CLoadPackagesFromImports (code : string)
  | CRunUserCode (code : string)
  | CDbOpen
  | CDbPut (name : string)
  | CDbGet (name : string).

(** The body of the package-list response as [response.json()] and the
    property access [data.packages] see it. *)
Inductive JsonBody :=
  | BodyInvalid
  | BodyNull
  | BodyNoPackages
  | BodyPackages (packages : list string).

Inductive ListResponse :=
  | FetchRejects (e : string)
  | HttpResponse (status : Z) (body : JsonBody).

(** [response.ok] *)
Definition response_ok (status : Z) : bool :=
  ((200 <=? status) && (status <=? 299))%Z.

Inductive OutChunk :=
  | ToStdout (msg : string)
  | ToStderr (msg : string).

(** What [loadPackagesFromImports] reports while it runs. *)
Inductive LoadNote :=
  | NoteStream (c : OutChunk)
  | NoteMessage (msg : string)
  | NoteError (msg : string).

(** One request the runtime sends through the ambient [fetch]; the body
    is [None] when [arrayBuffer()] rejects. *)
Record Download := mkDownload {
  dl_url : string;
  dl_body : option (list Byte.byte)
}.

Record Env := mkEnv {
  env_now : list Call -> Z;
  env_fetch_list : list Call -> ListResponse;
  env_loadPyodide : list Call -> option string;
  env_loadPackage : list Call -> list string -> list Download * option string;
  env_pyimport : list Call -> string -> option string;
  env_runPython : list Call -> PyScript -> option string;
  env_sys_modules : list Call -> list string;
  env_install : list Call -> list string -> option string;
  env_imports : list Call -> string -> list LoadNote * option string;
  env_user_code : list Call -> string -> list OutChunk * Res Js.JsValue;
  env_db_open : list Call -> bool;
  env_db_request : list Call -> bool
}.

(** ** The world: worker globals, window globals, module variables *)

(** [calls] is the history of calls on the environment, oldest first.
    [pyodide] tells whether [self.pyodide] is set. [cells] is the object
    [self.cells] as a map from its keys to its records; this is what the
    object is as long as no cell has the id [__proto__], a name that
    JavaScript does not keep as a key of the object but takes as its
    prototype. [stdout_handler] and
    [stderr_handler] hold the cell id the [batched] callbacks installed
    last write to. [outbox] holds the messages posted to the controller.
    [timeline] and [background_preloads] are bookkeeping of the model:
    the cell maps the controller could have seen so far, and the number
    of [preloadPackages()] started without [await]. *)
Record World := mkWorld {
  calls : list Call;
  registry : Registry.PackageCache;
  (* the worker's [self] *)
  pyodide : bool;
  cells : gmap string Cell.CellState;
  packagesLoaded : bool;
  self_fetch : FetchFn;
  packageCache : option ListCache.PackageCache;
  stdout_handler : option string;
  stderr_handler : option string;
  outbox : list Msg.Message;
  timeline : list (gmap string Cell.CellState);
  background_preloads : nat;
  closed : bool;
  (* the window of the loader utility *)
  window_fetch : FetchFn;
  localStorage : option ListCache.StoredItem;
  wheels : gmap string Wheel.PackageWheelCache;
  loadPackage : LoadPackageFn
}.

Definition world0 : World :=
  mkWorld [] Registry.packageCache false ∅ false NativeFetch None None None
          [] [] 0 false NativeFetch None ∅ NativeLoadPackage.

Definition upd_calls (f : list Call -> list Call) (w : World) : World :=
  mkWorld (f (calls w)) (registry w) (pyodide w) (cells w) (packagesLoaded w)
    (self_fetch w) (packageCache w) (stdout_handler w) (stderr_handler w)
    (outbox w) (timeline w) (background_preloads w) (closed w)
    (window_fetch w) (localStorage w) (wheels w) (loadPackage w).
Definition set_pyodide (b : bool) (w : World) : World :=
  mkWorld (calls w) (registry w) b (cells w) (packagesLoaded w)
    (self_fetch w) (packageCache w) (stdout_handler w) (stderr_handler w)
    (outbox w) (timeline w) (background_preloads w) (closed w)
    (window_fetch w) (localStorage w) (wheels w) (loadPackage w).
Definition upd_cells (f : gmap string Cell.CellState -> gmap string Cell.CellState)
    (w : World) : World :=
  mkWorld (calls w) (registry w) (pyodide w) (f (cells w)) (packagesLoaded w)
    (self_fetch w) (packageCache w) (stdout_handler w) (stderr_handler w)
    (outbox w) (timeline w) (background_preloads w) (closed w)
    (window_fetch w) (localStorage w) (wheels w) (loadPackage w).
Definition set_packagesLoaded (b : bool) (w : World) : World :=
  mkWorld (calls w) (registry w) (pyodide w) (cells w) b
    (self_fetch w) (packageCache w) (stdout_handler w) (stderr_handler w)
    (outbox w) (timeline w) (background_preloads w) (closed w)
    (window_fetch w) (localStorage w) (wheels w) (loadPackage w).
Definition set_self_fetch (f : FetchFn) (w : World) : World :=
  mkWorld (calls w) (registry w) (pyodide w) (cells w) (packagesLoaded w)
    f (packageCache w) (stdout_handler w) (stderr_handler w)
    (outbox w) (timeline w) (background_preloads w) (closed w)
    (window_fetch w) (localStorage w) (wheels w) (loadPackage w).
Definition set_packageCache (c : option ListCache.PackageCache) (w : World) : World :=
  mkWorld (calls w) (registry w) (pyodide w) (cells w) (packagesLoaded w)
    (self_fetch w) c (stdout_handler w) (stderr_handler w)
    (outbox w) (timeline w) (background_preloads w) (closed w)
    (window_fetch w) (localStorage w) (wheels w) (loadPackage w).
Definition set_stdout_handler (h : option string) (w : World) : World :=
  mkWorld (calls w) (registry w) (pyodide w) (cells w) (packagesLoaded w)
    (self_fetch w) (packageCache w) h (stderr_handler w)
    (outbox w) (timeline w) (background_preloads w) (closed w)
    (window_fetch w) (localStorage w) (wheels w) (loadPackage w).
Definition set_stderr_handler (h : option string) (w : World) : World :=
  mkWorld (calls w) (registry w) (pyodide w) (cells w) (packagesLoaded w)
    (self_fetch w) (packageCache w) (stdout_handler w) h
    (outbox w) (timeline w) (background_preloads w) (closed w)
    (window_fetch w) (localStorage w) (wheels w) (loadPackage w).
Definition upd_outbox (f : list Msg.Message -> list Msg.Message) (w : World) : World :=
  mkWorld (calls w) (registry w) (pyodide w) (cells w) (packagesLoaded w)
    (self_fetch w) (packageCache w) (stdout_handler w) (stderr_handler w)
    (f (outbox w)) (timeline w) (background_preloads w) (closed w)
    (window_fetch w) (localStorage w) (wheels w) (loadPackage w).
Definition upd_timeline
    (f : list (gmap string Cell.CellState) -> list (gmap string Cell.CellState))
    (w : World) : World :=
  mkWorld (calls w) (registry w) (pyodide w) (cells w) (packagesLoaded w)
    (self_fetch w) (packageCache w) (stdout_handler w) (stderr_handler w)
    (outbox w) (f (timeline w)) (background_preloads w) (closed w)
    (window_fetch w) (localStorage w) (wheels w) (loadPackage w).
Definition upd_background_preloads (f : nat -> nat) (w : World) : World :=
  mkWorld (calls w) (registry w) (pyodide w) (cells w) (packagesLoaded w)
    (self_fetch w) (packageCache w) (stdout_handler w) (stderr_handler w)
    (outbox w) (timeline w) (f (background_preloads w)) (closed w)
    (window_fetch w) (localStorage w) (wheels w) (loadPackage w).
Definition set_closed (b : bool) (w : World) : World :=
  mkWorld (calls w) (registry w) (pyodide w) (cells w) (packagesLoaded w)
    (self_fetch w) (packageCache w) (stdout_handler w) (stderr_handler w)
    (outbox w) (timeline w) (background_preloads w) b
    (window_fetch w) (localStorage w) (wheels w) (loadPackage w).
Definition set_window_fetch (f : FetchFn) (w : World) : World :=
  mkWorld (calls w) (registry w) (pyodide w) (cells w) (packagesLoaded w)
    (self_fetch w) (packageCache w) (stdout_handler w) (stderr_handler w)
    (outbox w) (timeline w) (background_preloads w) (closed w)
    f (localStorage w) (wheels w) (loadPackage w).
Definition set_localStorage (i : option ListCache.StoredItem) (w : World) : World :=
  mkWorld (calls w) (registry w) (pyodide w) (cells w) (packagesLoaded w)
    (self_fetch w) (packageCache w) (stdout_handler w) (stderr_handler w)
    (outbox w) (timeline w) (background_preloads w) (closed w)
    (window_fetch w) i (wheels w) (loadPackage w).
Definition upd_wheels
    (f : gmap string Wheel.PackageWheelCache -> gmap string Wheel.PackageWheelCache)
    (w : World) : World :=
  mkWorld (calls w) (registry w) (pyodide w) (cells w) (packagesLoaded w)
    (self_fetch w) (packageCache w) (stdout_handler w) (stderr_handler w)
    (outbox w) (timeline w) (background_preloads w) (closed w)
    (window_fetch w) (localStorage w) (f (wheels w)) (loadPackage w).
Definition set_loadPackage (f : LoadPackageFn) (w : World) : World :=
  mkWorld (calls w) (registry w) (pyodide w) (cells w) (packagesLoaded w)
    (self_fetch w) (packageCache w) (stdout_handler w) (stderr_handler w)
    (outbox w) (timeline w) (background_preloads w) (closed w)
    (window_fetch w) (localStorage w) (wheels w) f.

(** The outcomes of the list request that end in the [catch] of
    [fetchPyodidePackages]: the request rejects, the status is not a
    success, the body is not JSON, or the body is [null]. *)
Definition list_request_failed (r : ListResponse) : bool :=
  match r with
  | FetchRejects _ => true
  | HttpResponse status BodyInvalid | HttpResponse status BodyNull => true
  | HttpResponse status _ => negb (response_ok status)
  end.

(** ** Calls on the environment *)

Module Rt.
Section WithEnv.
Context (E : Env).

(** Read an answer of the environment at the current history. *)
Definition ask {A} (f : list Call -> A) : M World A :=
  fun w => (Ok (f (calls w)), w).

Definition record (c : Call) : M World unit :=
  modify (upd_calls (fun h => h ++ [c])).

Definition settle (r : option string) : M World unit :=
  match r with
  | None => ret tt
  | Some e => throw e
  end.

Definition lift {A} (r : Res A) : M World A :=
  match r with
  | Ok a => ret a
  | Throw e => throw e
  end.

(** [Date.now()] *)
Definition date_now : M World Z :=
  t <- ask (env_now E) ;;
  record CDateNow ;;;
  ret t.

(** [await fetch('/api/pyodide/packages')] *)
Definition fetch_package_list : M World ListResponse :=
  r <- ask (env_fetch_list E) ;;
  record CFetchPackageList ;;;
  ret r.

(** [await response.json()] followed by [data.packages || DEFAULT_PACKAGES]:
    invalid JSON rejects, [null.packages] is a TypeError, a missing or
    falsy field selects the defaults, an array (also an empty one) is
    truthy and is taken as it is. *)
Definition packages_of_body (DEFAULT_PACKAGES : list string) (body : JsonBody)
    : Res (list string) :=
  match body with
  | BodyInvalid => Throw "SyntaxError: Unexpected token in JSON"
  | BodyNull => Throw "TypeError: Cannot read properties of null (reading 'packages')"
  | BodyNoPackages => Ok DEFAULT_PACKAGES
  | BodyPackages p => Ok p
  end.

(** [set(p.split('.')[0].lower() for p in sys.modules.keys())] *)
Definition installed_modules (sys_modules_keys : list string) : list string :=
  map (fun p => Js.toLowerCase (Js.split_first "." p)) sys_modules_keys.

(** The value a snippet evaluates to, after [json.dumps] on the Python
    side and [JSON.parse] on the JavaScript side. *)
Definition py_result (script : PyScript) (sys_modules_keys : list string) : list string :=
  match script with
  | PyDiagnostics | PyVerifyInstallation => installed_modules sys_modules_keys
  | PyCheckMissing requested_packages =>
      filter (fun pkg => pkg ∉ installed_modules sys_modules_keys) requested_packages
  | PyConfigureMicropip | PyShowAvailable => []
  end.

(** [await pyodide.runPythonAsync(script)] on one of the built-in
    snippets: the value it evaluates to. *)
Definition runPythonAsync (script : PyScript) : M World (list string) :=
  r <- ask (fun h => env_runPython E h script) ;;
  keys <- ask (env_sys_modules E) ;;
  record (CRunPython script) ;;;
  match r with
  | Some e => throw e
  | None => ret (py_result script keys)
  end.

(** [pyodide.pyimport(name)] *)
Definition pyimport (name : string) : M World unit :=
  r <- ask (fun h => env_pyimport E h name) ;;
  record (CPyimport name) ;;;
  settle r.

(** [await micropip.install(names)] *)
Definition micropip_install (names : list string) : M World unit :=
  r <- ask (fun h => env_install E h names) ;;
  record (CInstall names) ;;;
  settle r.

End WithEnv.

(** The [micropip.install] calls of a history, oldest first. *)
Definition installs (h : list Call) : list (list string) :=
  omap (fun c => match c with CInstall names => Some names | _ => None end) h.

(** The answers [micropip.install] gives to a sequence of calls made one
    after the other from history [h]. *)
Fixpoint install_answers (E : Env) (h : list Call) (made : list (list string))
    : list (option string) :=
  match made with
  | [] => []
  | names :: rest =>
      env_install E h names :: install_answers E (h ++ [CInstall names]) rest
  end.

(** The calls of the runtime's own [loadPackage] in a history. *)
Definition loads (h : list Call) : list (list string) :=
  omap (fun c => match c with CLoadPackage names => Some names | _ => None end) h.

End Rt.

(** ** The package loader utility *)

Module Loader.
Import Rt.

Definition CACHE_EXPIRY_MS : Z := 24 * 60 * 60 * 1000.

Definition DEFAULT_PACKAGES : list string :=
  ["micropip"; "packaging"; "requests"; "beautifulsoup4"; "numpy"; "pandas"].

Section WithEnv.
Context (E : Env).

(** The cache lookup at the head of [fetchPyodidePackages]. *)
Definition cached_list : M World (option (list string)) :=
  w <- get ;;
  match localStorage w with
  | None => ret None
  | Some cachedData =>
      try_catch
        (match cachedData with
         | ListCache.Unparseable => throw "SyntaxError: Unexpected token in JSON"
         | ListCache.Stored cache =>
             now <- date_now E ;;
             let isExpired := (CACHE_EXPIRY_MS <? now - ListCache.timestamp cache)%Z in
             if negb isExpired && (0 <? length (ListCache.packages cache))
             then ret (Some (ListCache.packages cache))
             else ret None
         end)
        (fun _ => ret None)
  end.

Definition fetchPyodidePackages : M World (list string) :=
  hit <- cached_list ;;
  match hit with
  | Some packages => ret packages
  | None =>
      try_catch
        (response <- fetch_package_list E ;;
         match response with
         | FetchRejects e => throw e
         | HttpResponse status body =>
             if negb (response_ok status)
             then throw "Error: HTTP error!"
             else
               packages <- lift (packages_of_body DEFAULT_PACKAGES body) ;;
               now <- date_now E ;;
               modify (set_localStorage
                         (Some (ListCache.Stored (ListCache.mkPackageCache now packages)))) ;;;
               ret packages
         end)
        (fun _ => ret DEFAULT_PACKAGES)
  end.

(** [indexedDB.open(DB_NAME, 1)] *)
Definition initPackageDatabase : M World unit :=
  ok <- ask (env_db_open E) ;;
  record CDbOpen ;;;
  if ok then ret tt else throw "Failed to open IndexedDB".

(** The [try] of the two cache functions covers only the opening of the
    database: the promise of the request is returned without [await], so
    its rejection is the caller's. *)
Definition open_or_log : M World bool :=
  try_catch (initPackageDatabase ;;; ret true) (fun _ => ret false).

Definition cachePackageWheel (name url : string) (data : list Byte.byte) : M World unit :=
  opened <- open_or_log ;;
  if opened then
    now <- date_now E ;;
    let wheel := Wheel.mkPackageWheelCache name url data now in
    ok <- ask (env_db_request E) ;;
    record (CDbPut name) ;;;
    if ok then modify (upd_wheels (fun store => <[name := wheel]> store))
    else throw "undefined"
  else ret tt.

Definition getCachedPackageWheel (name : string) : M World (option (list Byte.byte)) :=
  opened <- open_or_log ;;
  if opened then
    ok <- ask (env_db_request E) ;;
    record (CDbGet name) ;;;
    if ok then
      w <- get ;;
      ret (Wheel.data <$> wheels w !! name)
    else throw ("Failed to retrieve package wheel: " +:+ name)
  else ret None.

(** One request of the runtime passing through a [fetch] function. The
    progress logger of the worker only writes to the console; the wheel
    capture of the loader stores the body of a wheel download. *)
Fixpoint through_fetch (f : FetchFn) (d : Download) : M World unit :=
  match f with
  | NativeFetch => ret tt
  | ProgressLogger originalFetch => through_fetch originalFetch d
  | WheelCapture originalFetch =>
      through_fetch originalFetch d ;;;
      let url := dl_url d in
      if Js.includes "pyodide" url && Js.endsWith ".whl" url then
        let filename := Js.split_last "/" url in
        let packageName := Js.split_first "-" filename in
        try_catch
          (match dl_body d with
           | None => throw "TypeError: Failed to read the response body"
           | Some wheelData => cachePackageWheel packageName url wheelData
           end)
          (fun _ => ret tt)
      else ret tt
  end.

(** Pyodide's own [loadPackage]: its downloads go through the ambient
    [fetch] of the realm it runs in. *)
Definition native_loadPackage (ambient : World -> FetchFn) (names : list string)
    : M World unit :=
  r <- ask (fun h => env_loadPackage E h names) ;;
  record (CLoadPackage names) ;;;
  for_of (fst r) (fun d => w <- get ;; through_fetch (ambient w) d) ;;;
  settle (snd r).

(** The loop of the caching [loadPackage] over the requested names. *)
Fixpoint split_cached (packages cachedPackages packagesToLoad : list string)
    : M World (list string * list string) :=
  match packages with
  | [] => ret (cachedPackages, packagesToLoad)
  | pkg :: rest =>
      cachedWheel <- getCachedPackageWheel pkg ;;
      match cachedWheel with
      | Some _ => split_cached rest (cachedPackages ++ [pkg]) packagesToLoad
      | None => split_cached rest cachedPackages (packagesToLoad ++ [pkg])
      end
  end.

(** A call of [pyodide.loadPackage(names)], whatever function is
    installed there. The caching wrapper only logs the names it finds in
    the wheel cache and hands the others to the function it replaced. *)
Fixpoint call_loadPackage (f : LoadPackageFn) (names : list string) : M World unit :=
  match f with
  | NativeLoadPackage => native_loadPackage window_fetch names
  | CachedLoadPackage originalLoadPackage =>
      parts <- split_cached names [] [] ;;
      let packagesToLoad := snd parts in
      if 0 <? length packagesToLoad then
        w <- get ;;
        let originalFetch := window_fetch w in
        modify (set_window_fetch (WheelCapture originalFetch)) ;;;
        try_finally
          (call_loadPackage originalLoadPackage packagesToLoad)
          (modify (set_window_fetch originalFetch))
      else ret tt
  end.

Definition pyodide_loadPackage (names : list string) : M World unit :=
  w <- get ;;
  call_loadPackage (loadPackage w) names.

Definition setupCachedPackageLoader : M World unit :=
  modify (fun w => set_loadPackage (CachedLoadPackage (loadPackage w)) w).

(** [packages] is [None] for an absent argument. The [catch] returns the
    argument as it was passed. *)
Definition checkMissingPackages (packages : option (list string))
    : M World (option (list string)) :=
  try_catch
    (match packages with
     | None | Some [] => ret (Some [])
     | Some pkgs =>
         let packageNames := map Js.toLowerCase pkgs in
         result <- runPythonAsync E (PyCheckMissing packageNames) ;;
         ret (Some result)
     end)
    (fun _ => ret packages).

(** [missingPackages.length] on what [checkMissingPackages] returned. *)
Definition the_array (r : option (list string)) : M World (list string) :=
  match r with
  | Some l => ret l
  | None => throw "TypeError: Cannot read properties of undefined (reading 'length')"
  end.

Definition installMissingPackages (packages : list string) : M World unit :=
  try_catch
    (r <- checkMissingPackages (Some packages) ;;
     missingPackages <- the_array r ;;
     if length missingPackages =? 0 then ret tt
     else
       pyodide_loadPackage ["micropip"] ;;;
       pyimport E "micropip" ;;;
       micropip_install E missingPackages)
    (fun _ =>
       try_catch
         (pyodide_loadPackage ["micropip"] ;;;
          pyimport E "micropip" ;;;
          micropip_install E packages)
         (fun _ => ret tt)).

(** The two [try] blocks of [installMissingPackages], as computations
    of their own. *)
Definition install_missing (packages : list string) : M World unit :=
  r <- checkMissingPackages (Some packages) ;;
  missingPackages <- the_array r ;;
  if length missingPackages =? 0 then ret tt
  else
    pyodide_loadPackage ["micropip"] ;;;
    pyimport E "micropip" ;;;
    micropip_install E missingPackages.

Definition install_all (packages : list string) : M World unit :=
  pyodide_loadPackage ["micropip"] ;;;
  pyimport E "micropip" ;;;
  micropip_install E packages.

Definition preloadPyodidePackages (packages : list string)
    (forceReload useCache : bool) : M World unit :=
  try_catch
    ((if useCache then setupCachedPackageLoader else ret tt) ;;;
     pyodide_loadPackage ["micropip"] ;;;
     pyimport E "micropip" ;;;
     selected <-
       (if negb forceReload then
          r <- checkMissingPackages (Some packages) ;;
          missingPackages <- the_array r ;;
          if length missingPackages =? 0 then ret None
          else ret (Some missingPackages)
        else ret (Some packages)) ;;
     match selected with
     | None => ret tt
     | Some packages' =>
         runPythonAsync E PyShowAvailable ;;;
         micropip_install E packages'
     end)
    (fun _ => ret tt).

End WithEnv.
End Loader.

(** ** The Pyodide web worker *)

Module Worker.
Import Rt.

Definition DEFAULT_PACKAGES : list string :=
  ["micropip"; "packaging"; "requests"; "beautifulsoup4"; "numpy"; "pandas";
   "matplotlib"; "scipy"; "regex"].

Definition CACHE_EXPIRY_MS : Z := 24 * 60 * 60 * 1000.

Definition BATCH_SIZE : nat := 3.

Definition newline : string := String (ascii_of_nat 10) EmptyString.

Section WithEnv.
Context (E : Env).

(** The controller can look at the cells whenever the worker is
    suspended at an [await] or has posted a message: [tick] notes the
    cell map of that moment on the timeline. It changes nothing else. *)
Definition tick : M World unit :=
  modify (fun w => upd_timeline (fun t => t ++ [cells w]) w).

(** [self.postMessage(m)] clones its argument before it queues it: a
    message that cannot be cloned is not posted and the call throws. *)
Definition postMessage (m : Msg.Message) : M World unit :=
  if Msg.clonable m then modify (upd_outbox (fun o => o ++ [m]))
  else throw "DataCloneError: The object could not be cloned.".

(** The cache test at the head of [fetchPyodidePackages]; [Date.now()]
    is read only when there is an entry. *)
Definition cached_list : M World (option (list string)) :=
  w <- get ;;
  match packageCache w with
  | None => ret None
  | Some cache =>
      now <- date_now E ;;
      if (now - ListCache.timestamp cache <? CACHE_EXPIRY_MS)%Z
      then ret (Some (ListCache.packages cache))
      else ret None
  end.

Definition fetchPyodidePackages : M World (list string) :=
  hit <- cached_list ;;
  match hit with
  | Some packages => ret packages
  | None =>
      try_catch
        (response <- fetch_package_list E ;;
         match response with
         | FetchRejects e => throw e
         | HttpResponse status body =>
             if negb (response_ok status)
             then throw "Error: HTTP error!"
             else
               packages <- lift (packages_of_body DEFAULT_PACKAGES body) ;;
               now <- date_now E ;;
               modify (set_packageCache (Some (ListCache.mkPackageCache now packages))) ;;;
               ret packages
         end)
        (fun _ => ret DEFAULT_PACKAGES)
  end.

(** [preloadPackages()] is started without [await]: the worker goes on
    while it runs in the background. The start is counted here and the
    function itself is [preloadPackages] below; [Async.initializePyodide]
    is the function with its [await] and with the preload started. *)
Definition initializePyodide : M World unit :=
  w <- get ;;
  if pyodide w then ret tt
  else
    modify (upd_cells (fun _ => ∅)) ;;;
    modify (set_packagesLoaded false) ;;;
    tick ;;;
    r <- ask (env_loadPyodide E) ;;
    record CLoadPyodide ;;;
    settle r ;;;
    modify (set_pyodide true) ;;;
    modify (upd_background_preloads S).

(** [for (let i = 0; i < packagesToInstall.length; i += BATCH_SIZE)]:
    [fuel] bounds the number of iterations. *)
Fixpoint install_batches (fuel i : nat) (packagesToInstall : list string)
    : M World unit :=
  match fuel with
  | 0 =>
      if i <? length packagesToInstall then throw "out of fuel" else ret tt
  | S fuel' =>
      if i <? length packagesToInstall then
        let batch := Js.slice i (i + BATCH_SIZE) packagesToInstall in
        micropip_install E batch ;;;
        install_batches fuel' (i + BATCH_SIZE) packagesToInstall
      else ret tt
  end.

(** The batches the loop of [preloadPackages] cuts a list into. *)
Fixpoint batches_from (fuel i : nat) (packagesToInstall : list string)
    : list (list string) :=
  match fuel with
  | 0 => []
  | S fuel' =>
      if i <? length packagesToInstall then
        Js.slice i (i + BATCH_SIZE) packagesToInstall
          :: batches_from fuel' (i + BATCH_SIZE) packagesToInstall
      else []
  end.

Definition batches (packagesToInstall : list string) : list (list string) :=
  batches_from (length packagesToInstall) 0 packagesToInstall.

Definition preloadPackages : M World unit :=
  w <- get ;;
  if packagesLoaded w then ret tt
  else
    try_catch
      (let originalFetch := self_fetch w in
       modify (set_self_fetch (ProgressLogger originalFetch)) ;;;
       packages <- fetchPyodidePackages ;;
       Loader.native_loadPackage E self_fetch ["micropip"] ;;;
       pyimport E "micropip" ;;;
       installedModules <- runPythonAsync E PyDiagnostics ;;
       let packagesToInstall :=
         filter (fun pkg => Js.toLowerCase pkg ∉ installedModules) packages in
       (if 0 <? length packagesToInstall then
          runPythonAsync E PyConfigureMicropip ;;;
          install_batches (length packagesToInstall) 0 packagesToInstall ;;;
          runPythonAsync E PyVerifyInstallation ;;;
          ret tt
        else ret tt) ;;;
       modify (set_packagesLoaded true))
      (fun _ => ret tt).

(** The steps of [preloadPackages] from the list request to the list
    [packagesToInstall], as a computation of their own. *)
Definition packages_to_install : M World (list string) :=
  packages <- fetchPyodidePackages ;;
  Loader.native_loadPackage E self_fetch ["micropip"] ;;;
  pyimport E "micropip" ;;;
  installedModules <- runPythonAsync E PyDiagnostics ;;
  ret (filter (fun pkg => Js.toLowerCase pkg ∉ installedModules) packages).

(** [self.cells[id].field = ...]: a TypeError when the cell is missing. *)
Definition modify_cell (id : string) (f : Cell.CellState -> Cell.CellState)
    : M World unit :=
  w <- get ;;
  match cells w !! id with
  | Some c => modify (upd_cells (fun m => <[id := f c]> m))
  | None => throw "TypeError: Cannot set properties of undefined"
  end.

(** A chunk of output reaches the [batched] handler installed last. *)
Definition deliver (c : OutChunk) : M World unit :=
  w <- get ;;
  match c with
  | ToStdout msg =>
      match stdout_handler w with
      | Some id =>
          modify_cell id (Cell.append_stdout msg) ;;;
          postMessage (Msg.stdout id false msg) ;;;
          tick
      | None => ret tt
      end
  | ToStderr msg =>
      match stderr_handler w with
      | Some id =>
          modify_cell id (Cell.append_stderr msg) ;;;
          postMessage (Msg.stderr id false msg) ;;;
          tick
      | None => ret tt
      end
  end.

(** [messageCallback] and [errorCallback] of [loadPackagesFromImports]. *)
Definition note (id : string) (n : LoadNote) : M World unit :=
  match n with
  | NoteStream c => deliver c
  | NoteMessage msg =>
      postMessage (Msg.stdout id true ("[package] " +:+ msg)) ;;; tick
  | NoteError msg =>
      postMessage (Msg.stderr id true ("[package] " +:+ msg)) ;;; tick
  end.

Definition loadPackagesFromImports (id code : string) : M World unit :=
  tick ;;;
  r <- ask (fun h => env_imports E h code) ;;
  record (CLoadPackagesFromImports code) ;;;
  for_of (fst r) (note id) ;;;
  settle (snd r).

(** [await self.pyodide.runPythonAsync(code)] on the code of a cell. *)
Definition runUserCode (code : string) : M World Js.JsValue :=
  tick ;;;
  r <- ask (fun h => env_user_code E h code) ;;
  record (CRunUserCode code) ;;;
  for_of (fst r) deliver ;;;
  lift (snd r).

Definition executeCode (id code : string) : M World unit :=
  w <- get ;;
  (if pyodide w then ret tt else initializePyodide) ;;;
  modify (upd_cells (fun m =>
            <[id := Cell.mkCellState id Cell.running Js.JsNull "" ""]> m)) ;;;
  modify (set_stdout_handler (Some id)) ;;;
  modify (set_stderr_handler (Some id)) ;;;
  try_finally
    (try_catch
       (loadPackagesFromImports id code ;;;
        result <- runUserCode code ;;
        modify_cell id (Cell.set_result result) ;;;
        modify_cell id (Cell.set_status Cell.completed))
       (fun error =>
          modify_cell id (Cell.set_status Cell.error) ;;;
          modify_cell id (Cell.append_stderr (newline +:+ error))))
    (w' <- get ;;
     postMessage (Msg.result id (cells w' !! id))).

(** [if (id && code)] *)
Definition present (s : option string) : bool :=
  match s with
  | Some t => Js.truthy t
  | None => false
  end.

(** [self.onmessage] *)
Definition onmessage (m : Msg.Request) : M World unit :=
  match m with
  | Msg.initialize =>
      initializePyodide ;;;
      postMessage Msg.initialized
  | Msg.execute id code =>
      if present id && present code
      then executeCode (default "" id) (default "" code)
      else ret tt
  | Msg.getState =>
      w <- get ;;
      postMessage (Msg.kernelState (cells w))
  | Msg.terminate =>
      modify (upd_cells (fun _ => ∅)) ;;;
      modify (set_closed true)
  | Msg.unknown _ => ret tt
  end.

(** The worker when it handles its messages one at a time, each after
    the handler of the one before has settled: a handler that rejects
    leaves the state it reached; after [self.close()] nothing is handled
    any more. [Async.schedule] is the worker without that condition. *)
Definition handle (w : World) (m : Msg.Request) : World :=
  if closed w then w else snd (onmessage m w).

Definition run (ms : list Msg.Request) (w : World) : World :=
  fold_left handle ms w.

End WithEnv.

(** The cell after the [batched] handlers have appended a sequence of
    chunks to its buffers. *)
Definition stream_chunk (c : Cell.CellState) (ch : OutChunk) : Cell.CellState :=
  match ch with
  | ToStdout msg => Cell.append_stdout msg c
  | ToStderr msg => Cell.append_stderr msg c
  end.

Definition stream_into (c : Cell.CellState) (chunks : list OutChunk) : Cell.CellState :=
  fold_left stream_chunk chunks c.

(** The text a sequence of chunks adds to one of the two buffers. *)
Fixpoint stdout_text (chunks : list OutChunk) : string :=
  match chunks with
  | [] => ""
  | ToStdout msg :: rest => msg +:+ stdout_text rest
  | ToStderr _ :: rest => stdout_text rest
  end.

Fixpoint stderr_text (chunks : list OutChunk) : string :=
  match chunks with
  | [] => ""
  | ToStderr msg :: rest => msg +:+ stderr_text rest
  | ToStdout _ :: rest => stderr_text rest
  end.

(** The output chunks among the notes of [loadPackagesFromImports]. *)
Definition streamed (notes : list LoadNote) : list OutChunk :=
  omap (fun n => match n with NoteStream c => Some c | _ => None end) notes.

(** The message a handler posts for a chunk, and a callback for a note. *)
Definition chunk_message (id : string) (ch : OutChunk) : Msg.Message :=
  match ch with
  | ToStdout msg => Msg.stdout id false msg
  | ToStderr msg => Msg.stderr id false msg
  end.

Definition note_message (id : string) (n : LoadNote) : Msg.Message :=
  match n with
  | NoteStream ch => chunk_message id ch
  | NoteMessage msg => Msg.stdout id true ("[package] " +:+ msg)
  | NoteError msg => Msg.stderr id true ("[package] " +:+ msg)
  end.

(** The record a cell starts from, and the two records an execution can
    end in, as [executeCode] writes them. *)
Definition fresh_cell (id : string) : Cell.CellState :=
  Cell.mkCellState id Cell.running Js.JsNull "" "".

Definition failed_cell (c : Cell.CellState) (e : string) : Cell.CellState :=
  Cell.append_stderr (newline +:+ e) (Cell.set_status Cell.error c).

Definition completed_cell (c : Cell.CellState) (v : Js.JsValue) : Cell.CellState :=
  Cell.set_status Cell.completed (Cell.set_result v c).

End Worker.

(** ** Relations between worlds *)

(** [respects R m]: every run of [m] leaves the world it ends in related
    by [R] to the one it started from, on both exits. *)
Definition respects {A} (R : World -> World -> Prop) (m : M World A) : Prop :=
  forall w, R w (snd (m w)).

(** A relation that computations can be chained along. *)
Class Steps (R : World -> World -> Prop) : Prop := {
  R_refl : forall w, R w w;
  R_trans : forall w1 w2 w3, R w1 w2 -> R w2 w3 -> R w1 w3
}.

(** The steps of the runtime that install nothing and rewire nothing. *)
Record calm (w w' : World) : Prop := mkCalm {
  calm_registry : registry w' = registry w;
  calm_self_fetch : self_fetch w' = self_fetch w;
  calm_window_fetch : window_fetch w' = window_fetch w;
  calm_packagesLoaded : packagesLoaded w' = packagesLoaded w;
  calm_installs : Rt.installs (calls w') = Rt.installs (calls w)
}.

(** The steps that do not call the runtime's own [loadPackage]. *)
Definition no_load (w w' : World) : Prop :=
  Rt.loads (calls w') = Rt.loads (calls w).

(** What a piece of the execution leaves alone and what it adds, for a
    cell [id] that holds [c] before and [c'] after: the calls made, the
    messages posted, and observations in which the cell has the status
    of [c]. *)
Record streams (id : string) (c c' : Cell.CellState)
    (made : list Call) (posted : list Msg.Message) (w w' : World) : Prop := mkStreams {
  st_calls : calls w' = calls w ++ made;
  st_pyodide : pyodide w' = pyodide w;
  st_closed : closed w' = closed w;
  st_stdout : stdout_handler w' = stdout_handler w;
  st_stderr : stderr_handler w' = stderr_handler w;
  st_before : cells w !! id = Some c;
  st_cells : cells w' = <[id := c']> (cells w);
  st_outbox : outbox w' = outbox w ++ posted;
  st_timeline : exists seen,
    timeline w' = timeline w ++ seen /\
    Forall (fun m => exists k, m !! id = Some k /\ Cell.status k = Cell.status c) seen
}.

(** ** Assumptions on the environment *)

(** Loading packages, importing and the Python snippets succeed at every
    moment. *)
Definition runtime_ok (E : Env) : Prop :=
  (forall h names, snd (env_loadPackage E h names) = None) /\
  (forall h name, env_pyimport E h name = None) /\
  (forall h script, env_runPython E h script = None).

(** IndexedDB opens and answers at every moment. *)
Definition db_available (E : Env) : Prop :=
  (forall h, env_db_open E h = true) /\ (forall h, env_db_request E h = true).

(** Every [micropip.install] call succeeds. *)
Definition installs_ok (E : Env) : Prop :=
  forall h names, env_install E h names = None.

(** None of the names is among the modules the runtime has loaded. *)
Definition none_loaded (E : Env) (names : list string) : Prop :=
  forall h, Forall (fun n => Js.toLowerCase n ∉ Rt.installed_modules (env_sys_modules E h))
              names.

(** ** Concrete environments *)

Module Examples.

(** An environment in which every call succeeds and nothing is printed,
    downloaded or installed yet. *)
Definition quiet : Env :=
  mkEnv (fun _ => 0%Z)
        (fun _ => HttpResponse 200 (BodyPackages []))
        (fun _ => None)
        (fun _ _ => ([], None))
        (fun _ _ => None)
        (fun _ _ => None)
        (fun _ => [])
        (fun _ _ => None)
        (fun _ _ => ([], None))
        (fun _ _ => ([], Ok Js.JsNull))
        (fun _ => true)
        (fun _ => true).

Definition with_fetch_list (f : list Call -> ListResponse) (E : Env) : Env :=
  mkEnv (env_now E) f (env_loadPyodide E) (env_loadPackage E) (env_pyimport E)
        (env_runPython E) (env_sys_modules E) (env_install E) (env_imports E)
        (env_user_code E) (env_db_open E) (env_db_request E).

Definition with_runPython (f : list Call -> PyScript -> option string) (E : Env) : Env :=
  mkEnv (env_now E) (env_fetch_list E) (env_loadPyodide E) (env_loadPackage E)
        (env_pyimport E) f (env_sys_modules E) (env_install E) (env_imports E)
        (env_user_code E) (env_db_open E) (env_db_request E).

Definition with_install (f : list Call -> list string -> option string) (E : Env) : Env :=
  mkEnv (env_now E) (env_fetch_list E) (env_loadPyodide E) (env_loadPackage E)
        (env_pyimport E) (env_runPython E) (env_sys_modules E) f (env_imports E)
        (env_user_code E) (env_db_open E) (env_db_request E).

Definition with_user_code
    (f : list Call -> string -> list OutChunk * Res Js.JsValue) (E : Env) : Env :=
  mkEnv (env_now E) (env_fetch_list E) (env_loadPyodide E) (env_loadPackage E)
        (env_pyimport E) (env_runPython E) (env_sys_modules E) (env_install E)
        (env_imports E) f (env_db_open E) (env_db_request E).

(** The code of every cell prints one line and then raises. *)
Definition raising : Env :=
  with_user_code (fun _ _ => ([ToStdout "start"; ToStderr "warning"],
                              Throw "PythonError: Exception: x")) quiet.

(** The code of every cell prints one line and evaluates to 2. *)
Definition printing : Env :=
  with_user_code (fun _ _ => ([ToStdout "1"], Ok (Js.JsNum 2))) quiet.

Definition seven : list string := ["a"; "b"; "c"; "d"; "e"; "f"; "g"].

(** The list endpoint names seven packages, none of them loaded, and
    every install call succeeds. *)
Definition seven_packages : Env :=
  with_fetch_list (fun _ => HttpResponse 200 (BodyPackages seven)) quiet.

(** The same, but every install call fails. *)
Definition seven_packages_install_fails : Env :=
  with_install (fun _ _ => Some "ValueError: Can't fetch wheel") seven_packages.

(** A window in which the caching loader is installed and the wheel of
    numpy is in the cache. *)
Definition numpy_wheel : Wheel.PackageWheelCache :=
  Wheel.mkPackageWheelCache "numpy"
    "https://cdn.jsdelivr.net/pyodide/v0.27/full/numpy-2.0.2-cp312-cp312-pyodide_wasm32.whl"
    [Byte.x50; Byte.x4b; Byte.x03; Byte.x04] 1700000000000.

Definition numpy_cached : World :=
  set_loadPackage (CachedLoadPackage NativeLoadPackage)
    (upd_wheels (fun _ => {[ "numpy" := numpy_wheel ]}) world0).

(** The list endpoint answers HTTP 500. *)
Definition http500 : Env :=
  with_fetch_list (fun _ => HttpResponse 500 BodyInvalid) quiet.

(** The runtime raises on every Python snippet. *)
Definition python_down : Env :=
  with_runPython (fun _ _ => Some "PythonError: interpreter unavailable") quiet.

End Examples.

(** ** The predefined list of the package manager *)

Module Manager.
Import Rt.

(** The two operations on the registry that the source has. *)
Definition in_source (o : Registry.RegistryOp) : bool :=
  match o with
  | Registry.OpMarkLoading _ => false
  | Registry.OpMarkLoaded _ | Registry.OpMarkFailed _ => true
  end.

Section WithEnv.
Context (E : Env).

(** [browser] is the flag of [$app/environment]. The body is read
    whatever the status of the response is; [data.packages || []]. *)
Definition getPredefinedPackages (browser : bool) : M World (list string) :=
  if negb browser then ret []
  else
    try_catch
      (response <- fetch_package_list E ;;
       match response with
       | FetchRejects e => throw e
       | HttpResponse _ body => lift (packages_of_body [] body)
       end)
      (fun _ => ret []).

End WithEnv.
End Manager.

(** ** Clearing the caches of the loader utility *)

Module Maintenance.
Import Rt Loader.

Section WithEnv.
Context (E : Env).

(** The [try] covers [localStorage.removeItem] and the opening of the
    database. The promise of the [clear] request is returned without
    [await]: [reject(false)] is the caller's. The request is answered by
    the environment at the history of the moment. *)
Definition clearPyodideCache : M World bool :=
  opened <-
    try_catch
      (modify (set_localStorage None) ;;;
       initPackageDatabase E ;;;
       ret true)
      (fun _ => ret false) ;;
  if opened then
    ok <- ask (env_db_request E) ;;
    if ok then modify (upd_wheels (fun _ => ∅)) ;;; ret true
    else throw "false"
  else ret false.

End WithEnv.
End Maintenance.

(** ** The build script that prepares the static Pyodide directory *)

Module Build.
Import Rt.

Definition packages : list string :=
  ["micropip"; "packaging"; "requests"; "beautifulsoup4"; "numpy"; "pandas";
   "matplotlib"; "scikit-learn"; "scipy"; "regex"; "sympy"; "tiktoken";
   "seaborn"; "pytz"; "black"].

(** *** The proxy configuration *)

(** The six variables of [process.env] the script reads; [None] is
    [undefined]. *)
Record ProcessEnv := mkProcessEnv {
  all_proxy : option string;
  ALL_PROXY : option string;
  https_proxy : option string;
  HTTPS_PROXY : option string;
  http_proxy : option string;
  HTTP_PROXY : option string
}.

(** [a || b] on values that are a string or [undefined]. *)
Definition or_else (a b : option string) : option string :=
  match a with
  | Some s => if Js.truthy s then a else b
  | None => b
  end.

(** [s.startsWith(p)] *)
Definition startsWith (p s : string) : bool := String.prefix p s.

Definition preferedProxy (env : ProcessEnv) : option string :=
  let allProxy := or_else (all_proxy env) (ALL_PROXY env) in
  let httpsProxy := or_else (https_proxy env) (HTTPS_PROXY env) in
  let httpProxy := or_else (http_proxy env) (HTTP_PROXY env) in
  or_else httpsProxy (or_else allProxy httpProxy).

(** [new_URL p] is [new URL(p).toString()], [None] when the constructor
    throws. The result is the URI of the dispatcher the function sets,
    [None] when it returns without setting one. *)
Definition initNetworkProxyFromEnv (new_URL : string -> option string)
    (env : ProcessEnv) : option string :=
  match preferedProxy env with
  | None => None
  | Some p =>
      if negb (Js.truthy p) || negb (startsWith "http" p) then None
      else new_URL p
  end.

(** The variables in the order in which a non-empty one is preferred. *)
Definition by_preference (env : ProcessEnv) : list (option string) :=
  [https_proxy env; HTTPS_PROXY env; all_proxy env; ALL_PROXY env;
   http_proxy env; HTTP_PROXY env].

(** The first value of a list that is a non-empty string. *)
Fixpoint first_set (l : list (option string)) : option string :=
  match l with
  | [] => None
  | v :: rest =>
      match v with
      | Some s => if Js.truthy s then Some s else first_set rest
      | None => first_set rest
      end
  end.

(** *** Copying the distribution *)

(** The calls on [fs/promises], in the order they happened. *)
Inductive FsCall :=
  | FsAccess (path : string)
  | FsMkdir (path : string)
  | FsReaddir (path : string)
  | FsCopyFile (src dest : string).

(** The file system: its answers may depend on the calls made so far.
    An answer [Some e] or [Throw e] is a rejection. *)
Record Fs := mkFs {
  fs_access : list FsCall -> string -> option string;
  fs_mkdir : list FsCall -> string -> option string;
  fs_readdir : list FsCall -> string -> Res (list string);
  fs_copyFile : list FsCall -> string -> string -> option string
}.

Definition fs_call {A} (c : FsCall) (answer : list FsCall -> Res A)
    : M (list FsCall) A :=
  fun h => (answer h, h ++ [c]).

Definition rejects_with (r : option string) : Res unit :=
  match r with
  | None => Ok tt
  | Some e => Throw e
  end.

(** [path.join(dir, entry)] for a directory without trailing slash and
    the name of an entry. *)
Definition path_join (dir entry : string) : string :=
  dir +:+ "/" +:+ entry.

Section WithFs.
Context (F : Fs).

Definition ensureDirectoryExists (dirPath : string) : M (list FsCall) unit :=
  try_catch
    (fs_call (FsAccess dirPath) (fun h => rejects_with (fs_access F h dirPath)))
    (fun _ =>
       fs_call (FsMkdir dirPath) (fun h => rejects_with (fs_mkdir F h dirPath))).

(** The loop of [copyPyodide] with its two counters. *)
Fixpoint copy_entries (sourceDir targetDir : string) (entries : list string)
    (copied failed : nat) : M (list FsCall) (nat * nat) :=
  match entries with
  | [] => ret (copied, failed)
  | entry :: rest =>
      let sourcePath := path_join sourceDir entry in
      let targetPath := path_join targetDir entry in
      done <-
        try_catch
          (fs_call (FsCopyFile sourcePath targetPath)
             (fun h => rejects_with (fs_copyFile F h sourcePath targetPath)) ;;;
           ret true)
          (fun _ => ret false) ;;
      if done : bool then copy_entries sourceDir targetDir rest (S copied) failed
      else copy_entries sourceDir targetDir rest copied (S failed)
  end.

(** The result is what the last line of the function logs: the number of
    files copied and of files that failed; [None] when the outer [catch]
    was reached before. *)
Definition copyPyodide : M (list FsCall) (option (nat * nat)) :=
  let sourceDir := "node_modules/pyodide" in
  let targetDir := "static/pyodide" in
  try_catch
    (entries <- fs_call (FsReaddir sourceDir) (fun h => fs_readdir F h sourceDir) ;;
     ensureDirectoryExists targetDir ;;;
     counters <- copy_entries sourceDir targetDir entries 0 0 ;;
     ret (Some counters))
    (fun _ => ret None).

End WithFs.

(** The copies asked of the file system in a history. *)
Definition copies (h : list FsCall) : list (string * string) :=
  omap (fun c => match c with FsCopyFile s d => Some (s, d) | _ => None end) h.

(** *** The generated helper script *)

(** An entry of the manifest: [{ installed: true, version: "unknown" }] *)
Record VersionInfo := mkVersionInfo {
  installed : bool;
  version : string
}.

(** An object with string keys, in the order of insertion; the keys are
    package names, none of them an array index. *)
Fixpoint assign {V} (o : list (string * V)) (k : string) (v : V) : list (string * V) :=
  match o with
  | [] => [(k, v)]
  | (k', v') :: rest =>
      if String.eqb k' k then (k', v) :: rest else (k', v') :: assign rest k v
  end.

(** [o[k]] *)
Fixpoint property {V} (o : list (string * V)) (k : string) : option V :=
  match o with
  | [] => None
  | (k', v) :: rest => if String.eqb k' k then Some v else property rest k
  end.

(** [packages.forEach(pkg => { manifestContent[pkg] = {...} })] *)
Definition manifestContent (pkgs : list string) : list (string * VersionInfo) :=
  fold_left (fun o pkg => assign o pkg (mkVersionInfo true "unknown")) pkgs [].

(** [isPyodidePackage] of the generated module. *)
Definition isPyodidePackage (pyodidePackages : list string) (packageName : string) : bool :=
  bool_decide (packageName ∈ pyodidePackages).

(** [getPackageVersion] of the generated module; [None] is [null]. A key
    that is the empty string is falsy in [key ? ... : null]. *)
Definition getPackageVersion {V} (packageVersions : list (string * V))
    (packageName : string) : option V :=
  match find (fun kv => String.eqb (Js.toLowerCase (fst kv)) (Js.toLowerCase packageName))
             packageVersions with
  | Some (key, _) => if Js.truthy key then property packageVersions key else None
  | None => None
  end.

(** *** The generated initialization script *)

Section WithEnv.
Context (E : Env).

(** The loop of the generated [installPackages]; [fuel] bounds the
    number of iterations. *)
Fixpoint install_batches (fuel i : nat) (pyodidePackages : list string)
    : M World unit :=
  match fuel with
  | 0 =>
      if i <? length pyodidePackages then throw "out of fuel" else ret tt
  | S fuel' =>
      if i <? length pyodidePackages then
        let batch :=
          Js.slice i (Nat.min (i + Worker.BATCH_SIZE) (length pyodidePackages))
            pyodidePackages in
        micropip_install E batch ;;;
        install_batches fuel' (i + Worker.BATCH_SIZE) pyodidePackages
      else ret tt
  end.

(** [enablePackageCaching] is a placeholder, so [pyodide.loadPackage] is
    Pyodide's own; the script runs in the window. *)
Definition installPackages (pyodidePackages : list string) : M World unit :=
  try_catch
    (Loader.native_loadPackage E window_fetch ["micropip"] ;;;
     pyimport E "micropip" ;;;
     install_batches (length pyodidePackages) 0 pyodidePackages)
    (fun _ => ret tt).

End WithEnv.
End Build.

(** ** More relations between worlds *)

(** The steps that leave a loaded runtime loaded, load none and start no
    preload. *)
Definition loadPyodide_calls (h : list Call) : nat :=
  length (omap (fun c => match c with CLoadPyodide => Some tt | _ => None end) h).

Record stays_loaded (w w' : World) : Prop := mkStaysLoaded {
  sl_pyodide : pyodide w = true -> pyodide w' = true;
  sl_calls : pyodide w = true -> loadPyodide_calls (calls w') = loadPyodide_calls (calls w);
  sl_preloads : pyodide w = true -> background_preloads w' = background_preloads w
}.

(** The steps that store no wheel under a given name. *)
Definition keeps_absent (name : string) (w w' : World) : Prop :=
  wheels w !! name = None -> wheels w' !! name = None.

(** The steps that leave [pyodide.loadPackage] as it is. *)
Definition same_loadPackage (w w' : World) : Prop :=
  loadPackage w' = loadPackage w.

(** The steps that leave the wheel store as it is. *)
Definition same_wheels (w w' : World) : Prop :=
  wheels w' = wheels w.

(** ** More concrete environments *)

Module MoreExamples.

Definition with_now (f : list Call -> Z) (E : Env) : Env :=
  mkEnv f (env_fetch_list E) (env_loadPyodide E) (env_loadPackage E) (env_pyimport E)
        (env_runPython E) (env_sys_modules E) (env_install E) (env_imports E)
        (env_user_code E) (env_db_open E) (env_db_request E).

Definition with_loadPackage
    (f : list Call -> list string -> list Download * option string) (E : Env) : Env :=
  mkEnv (env_now E) (env_fetch_list E) (env_loadPyodide E) f (env_pyimport E)
        (env_runPython E) (env_sys_modules E) (env_install E) (env_imports E)
        (env_user_code E) (env_db_open E) (env_db_request E).

Definition with_loadPyodide (f : list Call -> option string) (E : Env) : Env :=
  mkEnv (env_now E) (env_fetch_list E) f (env_loadPackage E) (env_pyimport E)
        (env_runPython E) (env_sys_modules E) (env_install E) (env_imports E)
        (env_user_code E) (env_db_open E) (env_db_request E).

Definition with_sys_modules (f : list Call -> list string) (E : Env) : Env :=
  mkEnv (env_now E) (env_fetch_list E) (env_loadPyodide E) (env_loadPackage E)
        (env_pyimport E) (env_runPython E) f (env_install E) (env_imports E)
        (env_user_code E) (env_db_open E) (env_db_request E).

Definition with_db_open (f : list Call -> bool) (E : Env) : Env :=
  mkEnv (env_now E) (env_fetch_list E) (env_loadPyodide E) (env_loadPackage E)
        (env_pyimport E) (env_runPython E) (env_sys_modules E) (env_install E)
        (env_imports E) (env_user_code E) f (env_db_request E).

(** The clock reads exactly 24 hours after time 0. *)
Definition a_day_later : Env :=
  with_now (fun _ => 86400000%Z) Examples.quiet.

(** Both list caches hold the same list, stored at time 0. *)
Definition both_cached (p : list string) : World :=
  set_packageCache (Some (ListCache.mkPackageCache 0 p))
    (set_localStorage (Some (ListCache.Stored (ListCache.mkPackageCache 0 p))) world0).

(** The list endpoint names two packages. *)
Definition two_packages : Env :=
  Examples.with_fetch_list
    (fun _ => HttpResponse 200 (BodyPackages ["numpy"; "pandas"])) Examples.quiet.

(** The runtime downloads the wheel of numpy when asked to load it. *)
Definition numpy_url : string :=
  "https://cdn.jsdelivr.net/pyodide/v0.27.3/full/numpy-2.0.2-cp312-cp312-pyodide_2024_0_wasm32.whl".

Definition downloads_numpy : Env :=
  with_loadPackage
    (fun _ names =>
       ([mkDownload numpy_url (Some [Byte.x50; Byte.x4b; Byte.x03; Byte.x04])], None))
    Examples.quiet.

(** The runtime downloads the wheel of scikit-learn when asked to load
    it. *)
Definition scikit_learn_url : string :=
  "https://cdn.jsdelivr.net/pyodide/v0.27.3/full/scikit_learn-1.6.1-cp312-cp312-pyodide_2024_0_wasm32.whl".

Definition downloads_scikit_learn : Env :=
  with_loadPackage
    (fun _ names => ([mkDownload scikit_learn_url (Some [Byte.x50; Byte.x4b])], None))
    Examples.quiet.

(** The runtime has numpy among its modules. *)
Definition numpy_loaded : Env :=
  with_sys_modules (fun _ => ["sys"; "numpy"; "numpy.core"]) Examples.quiet.

(** The list endpoint names numpy and pandas, and numpy is loaded. *)
Definition numpy_listed_and_loaded : Env :=
  with_sys_modules (fun _ => ["sys"; "numpy"; "numpy.core"]) two_packages.

(** The code of every cell evaluates to a list. *)
Definition listing : Env :=
  Examples.with_user_code (fun _ _ => ([], Ok (Js.JsProxy "[1, 2]"))) Examples.quiet.

(** [loadPyodide] rejects. *)
Definition no_runtime : Env :=
  with_loadPyodide (fun _ => Some "Error: Failed to fetch pyodide.asm.wasm") Examples.quiet.

(** A worker that is initialised. *)
Definition booted : World := set_pyodide true world0.

(** A file system in which the copy of one file fails. *)
Definition one_copy_fails : Build.Fs :=
  Build.mkFs (fun _ _ => None) (fun _ _ => None)
    (fun _ _ => Ok ["pyodide.js"; "pyodide.asm.wasm"; "python_stdlib.zip"])
    (fun _ src _ =>
       if String.eqb src "node_modules/pyodide/pyodide.asm.wasm"
       then Some "EACCES: permission denied" else None).

End MoreExamples.

(** ** Shapes of the ambient [fetch] *)

(** A [fetch] that is the browser's own under progress loggers only, as
    the worker builds it. *)
Fixpoint only_loggers (f : FetchFn) : bool :=
  match f with
  | NativeFetch => true
  | ProgressLogger originalFetch => only_loggers originalFetch
  | WheelCapture _ => false
  end.

(** The test of the capturing wrapper on the URL of a download. *)
Definition is_pyodide_wheel (url : string) : bool :=
  Js.includes "pyodide" url && Js.endsWith ".whl" url.

(** The name the capturing wrapper files a wheel under. *)
Definition wheel_name (url : string) : string :=
  Js.split_first "-" (Js.split_last "/" url).

(** ** Shapes of the history *)

(** A call that runs a Python snippet of the source or installs
    packages. *)
Definition is_script_or_install (c : Call) : bool :=
  match c with
  | CRunPython _ | CInstall _ => true
  | _ => false
  end.

(** The steps that only add calls to the history, none of them a Python
    snippet or an install. *)
Definition adds_plain_calls (w w' : World) : Prop :=
  exists made,
    calls w' = calls w ++ made /\
    Forall (fun c => is_script_or_install c = false) made.

(** ** The worker as the event loop runs it *)

(** The functions of module [Worker] describe a call that runs from its
    start to its settlement with no other code of the worker in between.
    An [async] function, however, is suspended at every [await], and the
    event loop may handle another message, or resume another suspended
    function, before it resumes this one; and [preloadPackages()] is
    called without [await], so it goes on in the background while the
    handlers run. Module [Async] describes the worker at that grain.

    A [Routine] is an [async] function cut at its [await]s: [Stretch m k]
    runs the code [m] without interruption and goes on as [k] says,
    [Await k] is a suspension, after which [k] runs when the event loop
    resumes the function, and [Spawn background k] is the call of an
    [async] function without [await]: [background] runs up to its first
    suspension at once, then [k] goes on, and the rest of [background]
    is resumed by the event loop later. *)
Module Async.
Import Rt Worker.

Inductive Routine (A : Type) : Type :=
  | Settled (r : Res A)
  | Stretch {X : Type} (m : M World X) (k : Res X -> Routine A)
  | Await (k : Routine A)
  | Spawn (background : Routine unit) (k : Routine A).
Arguments Settled {A} r.
Arguments Stretch {A X} m k.
Arguments Await {A} k.
Arguments Spawn {A} background k.

(** [t], and when it settles, [k] on its outcome. *)
Fixpoint and_then {A B : Type} (t : Routine A) (k : Res A -> Routine B) : Routine B :=
  match t with
  | Settled r => k r
  | Stretch m k' => Stretch m (fun r => and_then (k' r) k)
  | Await t' => Await (and_then t' k)
  | Spawn background t' => Spawn background (and_then t' k)
  end.

Definition done {A : Type} (a : A) : Routine A := Settled (Ok a).

Definition fail {A : Type} (e : string) : Routine A := Settled (Throw e).

(** Code that runs without interruption. *)
Definition now {A : Type} (m : M World A) : Routine A := Stretch m Settled.

(** [await t]: also when [t] has settled already, the function goes on
    in a later turn of the event loop. *)
Definition await {A : Type} (t : Routine A) : Routine A :=
  and_then t (fun r => Await (Settled r)).

Definition then_do {A B : Type} (t : Routine A) (k : A -> Routine B) : Routine B :=
  and_then t (fun r =>
    match r with
    | Ok a => k a
    | Throw e => Settled (Throw e)
    end).

(** [try { t } catch (e) { h e }] *)
Definition try_catch_do {A : Type} (t : Routine A) (h : string -> Routine A) : Routine A :=
  and_then t (fun r =>
    match r with
    | Ok a => Settled (Ok a)
    | Throw e => h e
    end).

(** [try { t } finally { f }] *)
Definition try_finally_do {A : Type} (t : Routine A) (f : Routine unit) : Routine A :=
  and_then t (fun r =>
    and_then f (fun r' =>
      match r' with
      | Ok _ => Settled r
      | Throw e => Settled (Throw e)
      end)).

Declare Scope routine_scope.
Delimit Scope routine_scope with routine.
Notation "x <~ t ;; k" := (then_do t (fun x => k))
  (at level 100, t at next level, right associativity) : routine_scope.
Notation "t ~~> k" := (then_do t (fun _ => k))
  (at level 100, right associativity) : routine_scope.
Open Scope routine_scope.

(** What the runtime hands over while a call is pending reaches the
    worker piece by piece, each piece in a turn of its own. *)
Fixpoint each {A B : Type} (pieces : list A) (body : A -> M World unit) (k : Routine B)
    : Routine B :=
  match pieces with
  | [] => k
  | piece :: rest =>
      Stretch (body piece) (fun r =>
        match r with
        | Ok _ => Await (each rest body k)
        | Throw e => Settled (Throw e)
        end)
  end.

Section WithEnv.

(** Beside the answers of [Env], two more of the environment. [output]
    is what the runtime writes to its stdout and stderr while a call of
    the background preload is pending, the prints of the Python snippets
    for example; the history it is asked at ends with that call.

    [receiver] names the cell whose [batched] handlers receive a chunk
    when these are not the handlers installed last. That happens when
    two initialisations overlapped: the second [loadPyodide] replaces
    [self.pyodide], [self.pyodide.setStdout] is from then on called on
    the new runtime, and a call still pending on the old runtime writes
    to the handlers that runtime was left with.

    The timeline of module [Worker] is kept as there, by the same
    [tick]s. *)
Context (E : Env).
Context (output : list Call -> list OutChunk).
Context (receiver : list Call -> option string).

(** The [batched] handlers that [executeCode id code] installs. *)
Definition batched (id : string) (c : OutChunk) : M World unit :=
  match c with
  | ToStdout msg =>
      modify_cell id (Cell.append_stdout msg) ;;;
      postMessage (Msg.stdout id false msg)
  | ToStderr msg =>
      modify_cell id (Cell.append_stderr msg) ;;;
      postMessage (Msg.stderr id false msg)
  end.

(** A chunk of output reaches the handlers of the runtime that wrote it. *)
Definition deliver (c : OutChunk) : M World unit :=
  w <- get ;;
  match receiver (calls w) with
  | None => Worker.deliver c
  | Some id => batched id c
  end.

(** [messageCallback] and [errorCallback] of [loadPackagesFromImports];
    what the runtime writes to its streams meanwhile goes to the
    handlers. *)
Definition note (id : string) (n : LoadNote) : M World unit :=
  match n with
  | NoteStream c => deliver c
  | NoteMessage msg =>
      postMessage (Msg.stdout id true ("[package] " +:+ msg)) ;;; tick
  | NoteError msg =>
      postMessage (Msg.stderr id true ("[package] " +:+ msg)) ;;; tick
  end.

(** [await call] on a call of the runtime made by the background
    preload: the call is made, its output arrives chunk by chunk, then
    the call settles. *)
Definition await_runtime {A : Type} (call : M World A) : Routine A :=
  Stretch call (fun r =>
    Stretch (ask output) (fun chunks =>
      Await (each (match chunks with Ok l => l | Throw _ => [] end) deliver
               (Settled r)))).

Definition fetchPyodidePackages : Routine (list string) :=
  hit <~ now (cached_list E) ;;
  match hit with
  | Some packages => done packages
  | None =>
      try_catch_do
        (response <~ await (now (fetch_package_list E)) ;;
         match response with
         | FetchRejects e => fail e
         | HttpResponse status body =>
             if negb (response_ok status)
             then fail "Error: HTTP error!"
             else
               packages <~ await (now (lift (packages_of_body DEFAULT_PACKAGES body))) ;;
               now (t <- date_now E ;;
                    modify (set_packageCache (Some (ListCache.mkPackageCache t packages)))) ~~>
               done packages
         end)
        (fun _ => done DEFAULT_PACKAGES)
  end.

(** [for (let i = 0; i < packagesToInstall.length; i += BATCH_SIZE)] *)
Fixpoint install_batches (fuel i : nat) (packagesToInstall : list string)
    : Routine unit :=
  match fuel with
  | 0 =>
      if i <? length packagesToInstall then fail "out of fuel" else done tt
  | S fuel' =>
      if i <? length packagesToInstall then
        let batch := Js.slice i (i + BATCH_SIZE) packagesToInstall in
        await_runtime (micropip_install E batch) ~~>
        install_batches fuel' (i + BATCH_SIZE) packagesToInstall
      else done tt
  end.

Definition preloadPackages : Routine unit :=
  w <~ now get ;;
  if packagesLoaded w then done tt
  else
    try_catch_do
      (now (w <- get ;;
            let originalFetch := self_fetch w in
            modify (set_self_fetch (ProgressLogger originalFetch))) ~~>
       packages <~ await fetchPyodidePackages ;;
       await_runtime (Loader.native_loadPackage E self_fetch ["micropip"]) ~~>
       now (pyimport E "micropip") ~~>
       installedModules <~ await_runtime (runPythonAsync E PyDiagnostics) ;;
       let packagesToInstall :=
         filter (fun pkg => Js.toLowerCase pkg ∉ installedModules) packages in
       (if 0 <? length packagesToInstall then
          await_runtime (runPythonAsync E PyConfigureMicropip) ~~>
          install_batches (length packagesToInstall) 0 packagesToInstall ~~>
          await_runtime (runPythonAsync E PyVerifyInstallation) ~~>
          done tt
        else done tt) ~~>
       now (modify (set_packagesLoaded true)))
      (fun _ => done tt).

(** The test [!self.pyodide], the resets and the call of [loadPyodide]
    run in one stretch; the assignment to [self.pyodide] is made when the
    call has resolved, in a later turn. The runtime that is assigned is a
    new one, with no handler installed. The preload is started without
    [await], and counted. *)
Definition initializePyodide : Routine unit :=
  call <~ now (w <- get ;;
               if pyodide w then ret None
               else
                 modify (upd_cells (fun _ => ∅)) ;;;
                 modify (set_packagesLoaded false) ;;;
                 r <- ask (env_loadPyodide E) ;;
                 record CLoadPyodide ;;;
                 ret (Some r)) ;;
  match call with
  | None => done tt
  | Some r =>
      Await
        (now (settle r ;;;
              modify (set_pyodide true) ;;;
              modify (set_stdout_handler None) ;;;
              modify (set_stderr_handler None) ;;;
              modify (upd_background_preloads S)) ~~>
         Spawn preloadPackages (done tt))
  end.

Definition loadPackagesFromImports (id code : string) : Routine unit :=
  r <~ now (tick ;;;
            r <- ask (fun h => env_imports E h code) ;;
            record (CLoadPackagesFromImports code) ;;;
            ret r) ;;
  Await (each (fst r) (note id) (now (settle (snd r)))).

(** [await self.pyodide.runPythonAsync(code)] on the code of a cell. *)
Definition runUserCode (code : string) : Routine Js.JsValue :=
  r <~ now (tick ;;;
            r <- ask (fun h => env_user_code E h code) ;;
            record (CRunUserCode code) ;;;
            ret r) ;;
  Await (each (fst r) deliver (now (lift (snd r)))).

Definition executeCode (id code : string) : Routine unit :=
  w <~ now get ;;
  (if pyodide w then done tt else await initializePyodide) ~~>
  now (modify (upd_cells (fun m =>
                 <[id := Cell.mkCellState id Cell.running Js.JsNull "" ""]> m)) ;;;
       modify (set_stdout_handler (Some id)) ;;;
       modify (set_stderr_handler (Some id))) ~~>
  try_finally_do
    (try_catch_do
       (loadPackagesFromImports id code ~~>
        result <~ runUserCode code ;;
        now (modify_cell id (Cell.set_result result) ;;;
             modify_cell id (Cell.set_status Cell.completed)))
       (fun error =>
          now (modify_cell id (Cell.set_status Cell.error) ;;;
               modify_cell id (Cell.append_stderr (newline +:+ error)))))
    (now (w' <- get ;;
          postMessage (Msg.result id (cells w' !! id)))).

(** [self.onmessage] *)
Definition onmessage (m : Msg.Request) : Routine unit :=
  match m with
  | Msg.initialize =>
      await initializePyodide ~~>
      now (postMessage Msg.initialized)
  | Msg.execute id code =>
      if present id && present code
      then await (executeCode (default "" id) (default "" code))
      else done tt
  | Msg.getState =>
      now (w <- get ;;
           postMessage (Msg.kernelState (cells w)))
  | Msg.terminate =>
      now (modify (upd_cells (fun _ => ∅)) ;;;
           modify (set_closed true))
  | Msg.unknown _ => done tt
  end.

End WithEnv.

(** *** The event loop *)

(** One turn of a function: from where it stands to its next suspension
    or to its settlement. *)
Record Turn (A : Type) := mkTurn {
  rest : Routine A;
  after : World;
  spawned : list (Routine unit);
  seen : list World
}.
Arguments mkTurn {A} rest after spawned seen.
Arguments rest {A} t.
Arguments after {A} t.
Arguments spawned {A} t.
Arguments seen {A} t.

Definition unsettled {A : Type} (t : Routine A) : list (Routine A) :=
  match t with
  | Settled _ => []
  | _ => [t]
  end.

(** [rest] is what is left of the function, [after] the world the turn
    ends in, [spawned] what is left of the functions it called without
    [await], and [seen] the worlds at the end of each stretch, oldest
    first. *)
Fixpoint advance {A : Type} (t : Routine A) (w : World) : Turn A :=
  match t with
  | Settled r => mkTurn (Settled r) w [] []
  | Stretch m k =>
      let r := m w in
      let t' := advance (k (fst r)) (snd r) in
      mkTurn (rest t') (after t') (spawned t') (snd r :: seen t')
  | Await k => mkTurn k w [] []
  | Spawn background k =>
      let b := advance background w in
      let t' := advance k (after b) in
      mkTurn (rest t') (after t')
        (spawned b ++ unsettled (rest b) ++ spawned t') (seen b ++ seen t')
  end.

(** A function run alone: from where it stands to its settlement, with
    nothing else in between. The functions it starts without [await] run
    their first turn and are left suspended. *)
Fixpoint flat {A : Type} (t : Routine A) : M World A :=
  match t with
  | Settled r => lift r
  | Stretch m k => fun w => let r := m w in flat (k (fst r)) (snd r)
  | Await k => flat k
  | Spawn background k => fun w => flat k (after (advance background w))
  end.

(** The number of times the event loop has to resume the function,
    after its first turn, until it has settled. *)
Fixpoint resumes {A : Type} (t : Routine A) (w : World) : nat :=
  match t with
  | Settled _ => 0
  | Stretch m k => let r := m w in resumes (k (fst r)) (snd r)
  | Await k =>
      match k with
      | Settled _ => 0
      | _ => S (resumes k w)
      end
  | Spawn background k => resumes k (after (advance background w))
  end.

(** The worker between two turns: its globals and the suspended
    functions, handlers and background functions alike. *)
Record Config := mkConfig {
  world : World;
  pending : list (Routine unit)
}.

(** What the event loop does next: it hands the next message to
    [onmessage], or resumes a suspended function. *)
Inductive Choice :=
  | Dispatch (m : Msg.Request)
  | Resume (i : nat).

Section Loop.
Context (E : Env).
Context (output : list Call -> list OutChunk).
Context (receiver : list Call -> option string).

(** After [self.close()] the event loop runs nothing more. The function
    that has run is put first in line, those it has started last. *)
Definition turn (c : Choice) (cfg : Config) : Config * list World :=
  if closed (world cfg) then (cfg, [])
  else
    match c with
    | Dispatch m =>
        let t := advance (onmessage E output receiver m) (world cfg) in
        (mkConfig (after t) (unsettled (rest t) ++ pending cfg ++ spawned t), seen t)
    | Resume i =>
        match pending cfg !! i with
        | None => (cfg, [])
        | Some suspended =>
            let t := advance suspended (world cfg) in
            (mkConfig (after t)
               (unsettled (rest t) ++ delete i (pending cfg) ++ spawned t),
             seen t)
        end
    end.

(** The worker along a schedule, with the worlds seen on the way. *)
Fixpoint schedule (cs : list Choice) (cfg : Config) : Config * list World :=
  match cs with
  | [] => (cfg, [])
  | c :: cs' =>
      let s := turn c cfg in
      let s' := schedule cs' (fst s) in
      (fst s', snd s ++ snd s')
  end.

End Loop.

(** A worker in which no function is suspended. *)
Definition at_rest (w : World) : Config := mkConfig w [].

(** Whether a request executes code under the id [__proto__]. *)
Definition is_proto (m : Msg.Request) : bool :=
  match m with
  | Msg.execute (Some id) _ => bool_decide (id = "__proto__")
  | _ => false
  end.

(** Whether the event loop hands over a request to execute code under
    the id. *)
Definition executes (id : string) (c : Choice) : bool :=
  match c with
  | Dispatch (Msg.execute (Some j) _) => bool_decide (j = id)
  | _ => false
  end.

(** No request of the schedule executes under the id [__proto__], which
    a JavaScript object does not keep as a key of its own: the cells of
    the worker are then the entries of a map. *)
Definition plain_ids (cs : list Choice) : bool :=
  forallb (fun c => match c with Dispatch m => negb (is_proto m) | Resume _ => true end) cs.

(** *** What holds of every stretch *)

(** Every stretch of the function, whatever world it starts in and
    whatever the outcomes of the stretches before it, takes the world to
    one related by [R]. *)
Inductive Obeys (R : World -> World -> Prop) : forall {A : Type}, Routine A -> Prop :=
  | obeys_settled {A : Type} (r : Res A) : Obeys R (Settled r)
  | obeys_stretch {A X : Type} (m : M World X) (k : Res X -> Routine A) :
      respects R m -> (forall r, Obeys R (k r)) -> Obeys R (Stretch m k)
  | obeys_await {A : Type} (k : Routine A) : Obeys R k -> Obeys R (Await k)
  | obeys_spawn {A : Type} (background : Routine unit) (k : Routine A) :
      Obeys R background -> Obeys R k -> Obeys R (Spawn background k).

(** Each world of the list is related to the one before it, the first
    one to [w]. *)
Fixpoint chain (R : World -> World -> Prop) (w : World) (l : list World) : Prop :=
  match l with
  | [] => True
  | w' :: l' => R w w' /\ chain R w' l'
  end.

(** The last world of the list, [w] when the list is empty. *)
Fixpoint end_of (w : World) (l : list World) : World :=
  match l with
  | [] => w
  | w' :: l' => end_of w' l'
  end.

(** *** The life of a record *)

(** The two records agree on what an execution decides: the id, the
    status and the result. *)
Definition same_verdict (c c' : Cell.CellState) : Prop :=
  Cell.id c' = Cell.id c /\
  Cell.status c' = Cell.status c /\
  Cell.result c' = Cell.result c.

(** The record of the cell is kept: there is none before and none
    after, or there is one before and one after and they agree on id,
    status and result. *)
Definition kept (id : string) (w w' : World) : Prop :=
  option_Forall2 same_verdict (cells w !! id) (cells w' !! id).

(** What can happen to the record of a cell from one world to the next.
    The record is kept. It is replaced, or created, as a fresh record
    with status [running]. It is settled: it keeps its id and gets a
    terminal status. It is removed: there is none after, and the worker
    has been closed or had no runtime. *)
Inductive life_step (id : string) (w w' : World) : Prop :=
  | record_kept :
      kept id w w' ->
      life_step id w w'
  | record_fresh :
      cells w' !! id = Some (fresh_cell id) ->
      life_step id w w'
  | record_settled (c c' : Cell.CellState) :
      cells w !! id = Some c ->
      cells w' !! id = Some c' ->
      Cell.id c' = Cell.id c ->
      Cell.is_terminal (Cell.status c') = true ->
      life_step id w w'
  | record_removed :
      cells w' !! id = None ->
      closed w' = true \/ pyodide w = false ->
      life_step id w w'.

(** The record is kept or removed: what every step does to it that is
    not a step of an execution under its id. *)
Definition no_verdict (id : string) (w w' : World) : Prop :=
  kept id w w' \/
  (cells w' !! id = None /\ (closed w' = true \/ pyodide w = false)).

(** The record of the cell, if there is one, does not have the status
    [idle]. *)
Definition never_idle (id : string) (w : World) : Prop :=
  forall c, cells w !! id = Some c -> Cell.status c <> Cell.idle.

(** The steps that neither set the runtime, nor start a preload, nor
    close the worker. *)
Definition same_runtime (w w' : World) : Prop :=
  pyodide w' = pyodide w /\
  background_preloads w' = background_preloads w /\
  closed w' = closed w.

(** The steps that decide nothing: the record of the cell is kept, the
    runtime is not set, no preload is started and the worker is not
    closed. *)
Definition aside (id : string) (w w' : World) : Prop :=
  kept id w w' /\ same_runtime w w'.

(** The steps that do not close the worker. *)
Definition stays_open (w w' : World) : Prop := closed w' = closed w.

(** The steps that set the runtime only together with the start of a
    preload: the runtime, once set, stays set; no preload is counted
    while there is none, and one more is counted by the step that sets
    it. *)
Record preload_counted (w w' : World) : Prop := mkPreloadCounted {
  pc_stays : pyodide w = true -> pyodide w' = true;
  pc_grows : background_preloads w <= background_preloads w';
  pc_none : pyodide w' = false -> background_preloads w' = background_preloads w;
  pc_first : pyodide w = false -> pyodide w' = true ->
             background_preloads w < background_preloads w'
}.

End Async.

(** ** Example schedules *)

Module AsyncExamples.
Import Async.

(** The runtime writes nothing beside the output of the cells. *)
Definition silent : list Call -> list OutChunk := fun _ => [].

(** The diagnostic snippet of the preload prints the Python version. *)
Definition diagnostics_print (h : list Call) : list OutChunk :=
  match List.last h CDateNow with
  | CRunPython PyDiagnostics => [ToStdout "Python version: 3.12.7"]
  | _ => []
  end.

(** Every chunk reaches the handlers installed last. *)
Definition current : list Call -> option string := fun _ => None.

(** One cell is executed on a fresh worker, the handler is resumed until
    it has settled, and then the worker is terminated. *)
Definition execute_then_terminate : list Choice :=
  [Dispatch (Msg.execute (Some "c1") (Some "print(1)"));
   Resume 0; Resume 0; Resume 0; Resume 0; Resume 0;
   Dispatch Msg.terminate].

(** One cell is executed on a fresh worker and the handler is resumed
    until it has settled; then the preload that the initialisation
    started is resumed up to the first chunk its diagnostic snippet
    prints. *)
Definition execute_then_preload : list Choice :=
  [Dispatch (Msg.execute (Some "c1") (Some "print(1)")); Resume 0;
   Resume 0; Resume 0; Resume 0; Resume 0;
   Resume 0; Resume 0; Resume 0; Resume 0; Resume 0].

(** A second [initialize] is handled while the [loadPyodide] of the
    first is pending; then both calls resolve. *)
Definition two_initializations : list Choice :=
  [Dispatch Msg.initialize; Dispatch Msg.initialize; Resume 0; Resume 1].

(** The code [1/0] raises; every other code evaluates to 2. Nothing is
    printed. *)
Definition division : Env :=
  Examples.with_user_code
    (fun _ code =>
       if bool_decide (code = "1/0")
       then ([], Throw "PythonError: ZeroDivisionError: division by zero")
       else ([], Ok (Js.JsNum 2)))
    Examples.quiet.

(** A cell is executed on a fresh worker, and while the execution is
    suspended at the resolution of its imports a second request executes
    other code under the same id; the first execution is resumed until
    it has settled, then the second. *)
Definition overlapping_executions : list Choice :=
  [Dispatch (Msg.execute (Some "c1") (Some "1+1")); Resume 0; Resume 0;
   Dispatch (Msg.execute (Some "c1") (Some "1/0"));
   Resume 1; Resume 0; Resume 0; Resume 0].

End AsyncExamples.

(** * Properties *)

(** ** The registry *)

Module RegistryFacts.
Import Registry.

#[local] Ltac unfold_registry :=
  unfold at_most_one, membership, op_guard, apply_op,
    markLoading, markPackageAsLoaded, markPackageAsFailed in *;
  simpl in *.

Lemma membership_other (o : RegistryOp) (c : PackageCache) (m : string) :
  (match o with OpMarkLoading n | OpMarkLoaded n | OpMarkFailed n => n end) ≠ m ->
  membership m (apply_op o c) = membership m c.
Proof.
  intros Hne. destruct o as [n|n|n]; unfold_registry.
  - rewrite (bool_decide_ext (m ∈ loading c ∪ {[n]}) (m ∈ loading c)) by set_solver.
    by rewrite (bool_decide_ext (m ∈ failed c ∖ {[n]}) (m ∈ failed c)) by set_solver.
  - rewrite (bool_decide_ext (m ∈ loaded c ∪ {[n]}) (m ∈ loaded c)) by set_solver.
    by rewrite (bool_decide_ext (m ∈ loading c ∖ {[n]}) (m ∈ loading c)) by set_solver.
  - rewrite (bool_decide_ext (m ∈ loading c ∖ {[n]}) (m ∈ loading c)) by set_solver.
    by rewrite (bool_decide_ext (m ∈ failed c ∪ {[n]}) (m ∈ failed c)) by set_solver.
Qed.

Lemma apply_op_at_most_one (o : RegistryOp) (c : PackageCache) (m : string) :
  op_guard o c = true ->
  at_most_one m c ->
  at_most_one m (apply_op o c).
Proof.
  intros Hg Hc.
  destruct o as [n|n|n]; unfold_registry;
    apply negb_true_iff, bool_decide_eq_false in Hg;
    destruct (decide (n = m)) as [->|Hne];
    repeat case_bool_decide; try lia; set_solver.
Qed.

Lemma guarded_take (ops : list RegistryOp) (c : PackageCache) (k : nat) :
  guarded ops c = true -> guarded (take k ops) c = true.
Proof.
  revert c k. induction ops as [|o ops IH]; intros c [|k]; simpl; try done.
  intros [Ho Hr]%andb_true_iff. rewrite Ho. simpl. by apply IH.
Qed.

Lemma run_ops_at_most_one (ops : list RegistryOp) (c : PackageCache) (m : string) :
  guarded ops c = true ->
  at_most_one m c ->
  at_most_one m (run_ops ops c).
Proof.
  revert c. induction ops as [|o ops IH]; intros c; simpl; [done|].
  intros [Ho Hr]%andb_true_iff Hc.
  apply IH; [done|]. by apply apply_op_at_most_one.
Qed.

Lemma at_most_one_initial (m : string) : at_most_one m packageCache.
Proof. unfold at_most_one, membership, packageCache. simpl.
  repeat case_bool_decide; set_solver. Qed.

(** Counterexample to C2. Marking a name loaded, and then failed,
    leaves it in [loaded] and in [failed]: each of the two functions
    clears [loading] and nothing else. *)
Lemma registry_loaded_then_failed_in_two_sets :
  "numpy" ∈ loaded (run_ops [OpMarkLoaded "numpy"; OpMarkFailed "numpy"] packageCache) /\
  "numpy" ∈ failed (run_ops [OpMarkLoaded "numpy"; OpMarkFailed "numpy"] packageCache) /\
  ~ at_most_one "numpy"
      (run_ops [OpMarkLoaded "numpy"; OpMarkFailed "numpy"] packageCache).
Proof.
  split; [|split].
  - simpl. set_solver.
  - simpl. set_solver.
  - unfold at_most_one. intros H.
    assert (membership "numpy"
              (run_ops [OpMarkLoaded "numpy"; OpMarkFailed "numpy"] packageCache) = 2)
      as Hm by (vm_compute; reflexivity).
    rewrite Hm in H. lia.
Qed.

(** C2, amended. From the initial registry, along every sequence of
    operations that never marks loaded a name that is in [failed] and
    never marks failed or loading a name that is in [loaded], every name
    is in at most one of the three sets after each operation. Marking a
    name loaded or failed puts it in that set and removes it from
    [loading]; marking it loading puts it in [loading] and removes it
    from [failed]; no operation changes the membership of another name. *)
Theorem registry_at_most_one_when_guarded
    (ops : list RegistryOp) (m : string) (k : nat) :
  guarded ops packageCache = true ->
  at_most_one m (run_ops (take k ops) packageCache) /\
  (forall n c, n ∈ loaded (markPackageAsLoaded n c) /\
               n ∉ loading (markPackageAsLoaded n c)) /\
  (forall n c, n ∈ failed (markPackageAsFailed n c) /\
               n ∉ loading (markPackageAsFailed n c)) /\
  (forall n c, n ∈ loading (markLoading n c) /\
               n ∉ failed (markLoading n c)) /\
  (forall o c n,
     (match o with OpMarkLoading x | OpMarkLoaded x | OpMarkFailed x => x end) ≠ n ->
     membership n (apply_op o c) = membership n c).
Proof.
  intros Hg. split; [|split; [|split; [|split]]].
  - apply run_ops_at_most_one; [by apply guarded_take | apply at_most_one_initial].
  - intros n c. simpl. set_solver.
  - intros n c. simpl. set_solver.
  - intros n c. simpl. set_solver.
  - intros o c n Hne. by apply membership_other.
Qed.

Lemma registry_at_most_one_when_guarded_witness :
  guarded [OpMarkLoading "numpy"; OpMarkLoaded "numpy"] packageCache = true /\
  at_most_one "numpy"
    (run_ops (take 2 [OpMarkLoading "numpy"; OpMarkLoaded "numpy"]) packageCache).
Proof.
  split; [vm_compute; reflexivity|].
  apply (registry_at_most_one_when_guarded
           [OpMarkLoading "numpy"; OpMarkLoaded "numpy"] "numpy" 2).
  vm_compute. reflexivity.
Defined.

End RegistryFacts.

(** ** Reading the monad *)

#[local] Ltac run :=
  repeat (unfold bind, ret, throw, get, modify, try_catch, try_finally,
            Rt.ask, Rt.record, Rt.settle, Rt.lift, Rt.date_now,
            Rt.fetch_package_list, Rt.runPythonAsync, Rt.pyimport,
            Rt.micropip_install in *;
          simpl in *).

Lemma bind_ok {S A B} (m : M S A) (k : A -> M S B) (s s1 : S) (a : A) :
  m s = (Ok a, s1) -> bind m k s = k a s1.
Proof. intros H. unfold bind. by rewrite H. Qed.

Lemma bind_throw {S A B} (m : M S A) (k : A -> M S B) (s s1 : S) (e : string) :
  m s = (Throw e, s1) -> bind m k s = (Throw e, s1).
Proof. intros H. unfold bind. by rewrite H. Qed.

Lemma bind_assoc {S A B C} (m : M S A) (k : A -> M S B) (k' : B -> M S C) (s : S) :
  bind (bind m k) k' s = bind m (fun a => bind (k a) k') s.
Proof. unfold bind. by destruct (m s) as [[a|e] s1]. Qed.

Lemma bind_ext {S A B} (m : M S A) (k k' : A -> M S B) (s : S) :
  (forall a s1, k a s1 = k' a s1) -> bind m k s = bind m k' s.
Proof. intros H. unfold bind. destruct (m s) as [[a|e] s1]; [apply H|done]. Qed.

Lemma try_catch_ext {S A} (m m' : M S A) (h : string -> M S A) (s : S) :
  (forall s0, m s0 = m' s0) -> try_catch m h s = try_catch m' h s.
Proof. intros H. unfold try_catch. by rewrite H. Qed.

Lemma try_catch_ok {S A} (m : M S A) (h : string -> M S A) (s s1 : S) (a : A) :
  m s = (Ok a, s1) -> try_catch m h s = (Ok a, s1).
Proof. intros H. unfold try_catch. by rewrite H. Qed.

Lemma try_catch_throw {S A} (m : M S A) (h : string -> M S A) (s s1 : S) (e : string) :
  m s = (Throw e, s1) -> try_catch m h s = h e s1.
Proof. intros H. unfold try_catch. by rewrite H. Qed.

Lemma try_finally_runs {S A} (m : M S A) (f : M S unit) (s s1 s2 : S) (r : Res A) :
  m s = (r, s1) -> f s1 = (Ok tt, s2) -> try_finally m f s = (r, s2).
Proof. intros H1 H2. unfold try_finally. by rewrite H1, H2. Qed.

(** ** What a computation leaves related *)

Section Respects.
Context (R : World -> World -> Prop) `{!Steps R}.

Lemma respects_ret {A} (a : A) : respects R (ret a).
Proof. intros w. apply R_refl. Qed.

Lemma respects_throw {A} (e : string) : respects R (@throw World A e).
Proof. intros w. apply R_refl. Qed.

Lemma respects_get : respects R get.
Proof. intros w. apply R_refl. Qed.

Lemma respects_ask {A} (f : list Call -> A) : respects R (Rt.ask f).
Proof. intros w. apply R_refl. Qed.

Lemma respects_settle (r : option string) : respects R (Rt.settle r).
Proof. intros w. destruct r; apply R_refl. Qed.

Lemma respects_lift {A} (r : Res A) : respects R (Rt.lift r).
Proof. intros w. destruct r; apply R_refl. Qed.

Lemma respects_modify (f : World -> World) :
  (forall w, R w (f w)) -> respects R (modify f).
Proof. intros H w. apply H. Qed.

Lemma respects_bind {A B} (m : M World A) (k : A -> M World B) :
  respects R m -> (forall a, respects R (k a)) -> respects R (bind m k).
Proof.
  intros Hm Hk w. unfold bind. specialize (Hm w).
  destruct (m w) as [[a|e] w1]; simpl in *; [|done].
  eapply R_trans; [exact Hm|]. apply Hk.
Qed.

Lemma respects_try_catch {A} (m : M World A) (h : string -> M World A) :
  respects R m -> (forall e, respects R (h e)) -> respects R (try_catch m h).
Proof.
  intros Hm Hh w. unfold try_catch. specialize (Hm w).
  destruct (m w) as [[a|e] w1]; simpl in *; [done|].
  eapply R_trans; [exact Hm|]. apply Hh.
Qed.

Lemma respects_try_finally {A} (m : M World A) (f : M World unit) :
  respects R m -> respects R f -> respects R (try_finally m f).
Proof.
  intros Hm Hf w. unfold try_finally. specialize (Hm w).
  destruct (m w) as [r w1]. specialize (Hf w1).
  destruct (f w1) as [[[]|e] w2]; simpl in *; eapply R_trans; eauto.
Qed.

Lemma respects_for_of {A} (l : list A) (body : A -> M World unit) :
  (forall a, respects R (body a)) -> respects R (for_of l body).
Proof.
  intros Hb. induction l as [|a l IH]; simpl.
  - apply respects_ret.
  - apply respects_bind; [apply Hb|]. intros _. exact IH.
Qed.

End Respects.

(** Unfold a computation along its structure, leaving the steps that
    change the world and the calls of other functions. *)
#[local] Ltac respects_step :=
  lazymatch goal with
  | |- respects _ (bind _ _) => apply respects_bind; [tc_solve| |intros ?]
  | |- respects _ (ret _) => apply respects_ret; tc_solve
  | |- respects _ (throw _) => apply respects_throw; tc_solve
  | |- respects _ get => apply respects_get; tc_solve
  | |- respects _ (Rt.ask _) => apply respects_ask; tc_solve
  | |- respects _ (Rt.settle _) => apply respects_settle; tc_solve
  | |- respects _ (Rt.lift _) => apply respects_lift; tc_solve
  | |- respects _ (try_catch _ _) => apply respects_try_catch; [tc_solve| |intros ?]
  | |- respects _ (try_finally _ _) => apply respects_try_finally; [tc_solve| |]
  | |- respects _ (for_of _ _) => apply respects_for_of; [tc_solve|intros ?]
  | |- respects _ (match ?x with _ => _ end) => destruct x
  | |- respects _ (let _ := _ in _) => cbv zeta
  end.

#[local] Instance calm_steps : Steps calm.
Proof.
  split.
  - intros w. by split.
  - intros w1 w2 w3 [] []. split; congruence.
Qed.

Lemma installs_snoc (h : list Call) (c : Call) :
  Rt.installs (h ++ [c]) =
    Rt.installs h ++ match c with CInstall names => [names] | _ => [] end.
Proof. unfold Rt.installs. rewrite omap_app. by destruct c. Qed.

Create HintDb calm.

#[local] Ltac calm_frame :=
  intros ?; split; simpl; rewrite ?installs_snoc, ?app_nil_r; reflexivity.

#[local] Ltac calm_auto :=
  repeat first
    [ respects_step
    | apply respects_modify; calm_frame
    | solve [eauto with calm] ].

Lemma calm_record (c : Call) :
  (forall names, c <> CInstall names) -> respects calm (Rt.record c).
Proof.
  intros Hc. unfold Rt.record. apply respects_modify.
  intros w. split; simpl; try done. rewrite installs_snoc.
  destruct c; rewrite ?app_nil_r; try done. by destruct (Hc names).
Qed.

Lemma calm_date_now (E : Env) : respects calm (Rt.date_now E).
Proof. unfold Rt.date_now. calm_auto. Qed.
#[local] Hint Resolve calm_date_now : calm.

Lemma calm_fetch_package_list (E : Env) : respects calm (Rt.fetch_package_list E).
Proof. unfold Rt.fetch_package_list. calm_auto. Qed.
#[local] Hint Resolve calm_fetch_package_list : calm.

Lemma calm_runPythonAsync (E : Env) (s : PyScript) : respects calm (Rt.runPythonAsync E s).
Proof. unfold Rt.runPythonAsync. calm_auto. Qed.
#[local] Hint Resolve calm_runPythonAsync : calm.

Lemma calm_pyimport (E : Env) (n : string) : respects calm (Rt.pyimport E n).
Proof. unfold Rt.pyimport. calm_auto. Qed.
#[local] Hint Resolve calm_pyimport : calm.

Lemma calm_worker_fetchPyodidePackages (E : Env) :
  respects calm (Worker.fetchPyodidePackages E).
Proof. unfold Worker.fetchPyodidePackages, Worker.cached_list. calm_auto. Qed.
#[local] Hint Resolve calm_worker_fetchPyodidePackages : calm.

Lemma calm_loader_fetchPyodidePackages (E : Env) :
  respects calm (Loader.fetchPyodidePackages E).
Proof. unfold Loader.fetchPyodidePackages, Loader.cached_list. calm_auto. Qed.
#[local] Hint Resolve calm_loader_fetchPyodidePackages : calm.

Lemma calm_initPackageDatabase (E : Env) : respects calm (Loader.initPackageDatabase E).
Proof. unfold Loader.initPackageDatabase. calm_auto. Qed.
#[local] Hint Resolve calm_initPackageDatabase : calm.

Lemma calm_cachePackageWheel (E : Env) (n u : string) (d : list Byte.byte) :
  respects calm (Loader.cachePackageWheel E n u d).
Proof.
  unfold Loader.cachePackageWheel, Loader.open_or_log. calm_auto.
Qed.
#[local] Hint Resolve calm_cachePackageWheel : calm.

Lemma calm_getCachedPackageWheel (E : Env) (n : string) :
  respects calm (Loader.getCachedPackageWheel E n).
Proof.
  unfold Loader.getCachedPackageWheel, Loader.open_or_log. calm_auto.
Qed.
#[local] Hint Resolve calm_getCachedPackageWheel : calm.

Lemma calm_through_fetch (E : Env) (f : FetchFn) (d : Download) :
  respects calm (Loader.through_fetch E f d).
Proof. induction f; simpl; calm_auto. Qed.
#[local] Hint Resolve calm_through_fetch : calm.

Lemma calm_native_loadPackage (E : Env) (ambient : World -> FetchFn) (names : list string) :
  respects calm (Loader.native_loadPackage E ambient names).
Proof. unfold Loader.native_loadPackage. calm_auto. Qed.
#[local] Hint Resolve calm_native_loadPackage : calm.

Lemma calm_split_cached (E : Env) (packages c l : list string) :
  respects calm (Loader.split_cached E packages c l).
Proof. revert c l. induction packages; intros c l; simpl; calm_auto. Qed.
#[local] Hint Resolve calm_split_cached : calm.

Lemma calm_call_loadPackage (E : Env) (f : LoadPackageFn) (names : list string) :
  respects calm (Loader.call_loadPackage E f names).
Proof.
  revert names. induction f as [|f IH]; intros names; simpl; [calm_auto|].
  apply respects_bind; [tc_solve|calm_auto|]. intros parts.
  destruct (0 <? length (snd parts)); [|calm_auto].
  intros w. unfold bind, get, modify, try_finally. simpl.
  specialize (IH (snd parts) (set_window_fetch (WheelCapture (window_fetch w)) w)).
  destruct (Loader.call_loadPackage E f (snd parts) _) as [r w2].
  destruct IH; simpl in *. by split.
Qed.
#[local] Hint Resolve calm_call_loadPackage : calm.

Lemma calm_pyodide_loadPackage (E : Env) (names : list string) :
  respects calm (Loader.pyodide_loadPackage E names).
Proof. unfold Loader.pyodide_loadPackage. calm_auto. Qed.
#[local] Hint Resolve calm_pyodide_loadPackage : calm.

Lemma calm_setupCachedPackageLoader : respects calm Loader.setupCachedPackageLoader.
Proof. unfold Loader.setupCachedPackageLoader. calm_auto. Qed.
#[local] Hint Resolve calm_setupCachedPackageLoader : calm.

Lemma calm_checkMissingPackages (E : Env) (packages : option (list string)) :
  respects calm (Loader.checkMissingPackages E packages).
Proof. unfold Loader.checkMissingPackages. calm_auto. Qed.
#[local] Hint Resolve calm_checkMissingPackages : calm.

Lemma micropip_install_run (E : Env) (names : list string) (w : World) :
  Rt.micropip_install E names w =
    (match env_install E (calls w) names with
     | None => Ok tt
     | Some e => Throw e
     end,
     upd_calls (fun h => h ++ [CInstall names]) w).
Proof. unfold Rt.micropip_install. run. by destruct (env_install E (calls w) names). Qed.

(** ** The package loader utility *)

Module LoaderFacts.
Import Rt Loader.

(** C10. With a non-empty list of requested names, when the runtime
    raises on the query of the installed modules, [checkMissingPackages]
    resolves with the requested list itself; with an empty or an absent
    list it resolves with the empty list, and asks the runtime nothing. *)
Theorem checkMissingPackages_assumes_all_missing
    (E : Env) (w : World) (packages : list string) (e : string) :
  packages ≠ [] ->
  env_runPython E (calls w) (PyCheckMissing (map Js.toLowerCase packages)) = Some e ->
  fst (checkMissingPackages E (Some packages) w) = Ok (Some packages) /\
  checkMissingPackages E (Some []) w = (Ok (Some []), w) /\
  checkMissingPackages E None w = (Ok (Some []), w).
Proof.
  intros Hne Hraise. split; [|split]; [|reflexivity..].
  destruct packages as [|p ps]; [done|].
  unfold checkMissingPackages. run. by rewrite Hraise.
Qed.

Lemma checkMissingPackages_assumes_all_missing_witness :
  ["numpy"; "Pandas"] ≠ [] /\
  fst (checkMissingPackages Examples.python_down (Some ["numpy"; "Pandas"]) world0)
    = Ok (Some ["numpy"; "Pandas"]).
Proof.
  split; [discriminate|].
  apply (checkMissingPackages_assumes_all_missing Examples.python_down world0
           ["numpy"; "Pandas"] "PythonError: interpreter unavailable");
    [discriminate | reflexivity].
Defined.

Lemma installMissingPackages_unfold (E : Env) (packages : list string) :
  installMissingPackages E packages =
    try_catch (install_missing E packages)
      (fun _ => try_catch (install_all E packages) (fun _ => ret tt)).
Proof. reflexivity. Qed.

(** The loader utility's side of the fetch interception. A call of
    [pyodide.loadPackage], with any number of caching wrappers
    installed, leaves [window.fetch] as it found it, whether the call
    resolves or rejects. *)
Lemma loadPackage_restores_fetch (E : Env) (names : list string) (w : World) :
  window_fetch (snd (pyodide_loadPackage E names w)) = window_fetch w.
Proof. apply (calm_pyodide_loadPackage E names w). Qed.

(** While the function the wrapper replaced runs, [window.fetch] is the
    capturing wrapper around the original. *)
Lemma loadPackage_wraps_fetch_meanwhile (E : Env) (name : string) (w : World) :
  db_available E ->
  wheels w !! name = None ->
  exists w1,
    window_fetch w1 = WheelCapture (window_fetch w) /\
    call_loadPackage E (CachedLoadPackage NativeLoadPackage) [name] w =
      try_finally (native_loadPackage E window_fetch [name])
                  (modify (set_window_fetch (window_fetch w))) w1.
Proof.
  intros [Hopen Hreq] Hnone. simpl.
  unfold getCachedPackageWheel, open_or_log, initPackageDatabase. run.
  rewrite Hopen, Hreq. simpl. rewrite Hnone. simpl.
  eexists. split; [|reflexivity]. reflexivity.
Qed.

(** C3, evaluated on the code. With the wheel of a package in the cache
    and IndexedDB available, the caching [loadPackage] called for that
    package reads the cache and does nothing else: the world after the
    call differs from the one before only by the two database calls. No
    call reaches the runtime, so the package is not registered with it,
    and the payload is not used. *)
Theorem cached_package_is_not_registered
    (E : Env) (w : World) (f : LoadPackageFn) (name : string)
    (wheel : Wheel.PackageWheelCache) :
  db_available E ->
  loadPackage w = CachedLoadPackage f ->
  wheels w !! name = Some wheel ->
  pyodide_loadPackage E [name] w
    = (Ok tt, upd_calls (fun h => h ++ [CDbOpen; CDbGet name]) w).
Proof.
  intros [Hopen Hreq] Hf Hw. unfold pyodide_loadPackage.
  unfold bind at 1, get at 1. simpl. rewrite Hf. simpl.
  unfold getCachedPackageWheel, open_or_log, initPackageDatabase. run.
  rewrite Hopen, Hreq. simpl. rewrite Hw. simpl.
  f_equal. unfold upd_calls. simpl. by rewrite <- app_assoc.
Qed.

Lemma cached_package_is_not_registered_witness :
  wheels Examples.numpy_cached !! "numpy" = Some Examples.numpy_wheel /\
  pyodide_loadPackage Examples.quiet ["numpy"] Examples.numpy_cached
    = (Ok tt, upd_calls (fun h => h ++ [CDbOpen; CDbGet "numpy"]) Examples.numpy_cached) /\
  loads (calls (snd (pyodide_loadPackage Examples.quiet ["numpy"] Examples.numpy_cached)))
    = [].
Proof.
  assert (wheels Examples.numpy_cached !! "numpy" = Some Examples.numpy_wheel) as Hw
    by (vm_compute; reflexivity).
  assert (pyodide_loadPackage Examples.quiet ["numpy"] Examples.numpy_cached
          = (Ok tt, upd_calls (fun h => h ++ [CDbOpen; CDbGet "numpy"]) Examples.numpy_cached))
    as Hrun.
  { apply (cached_package_is_not_registered Examples.quiet Examples.numpy_cached
             NativeLoadPackage "numpy" Examples.numpy_wheel).
    - split; intros h; reflexivity.
    - reflexivity.
    - exact Hw. }
  split; [exact Hw|]. split; [exact Hrun|]. rewrite Hrun. reflexivity.
Defined.

(** The fallback block: at most one install call, and that call carries
    the whole list. *)
Lemma install_all_runs (E : Env) (packages : list string) (w : World) :
  exists (r : Res unit) (w' : World) (made : list (list string)),
    install_all E packages w = (r, w') /\
    registry w' = registry w /\
    window_fetch w' = window_fetch w /\
    installs (calls w') = installs (calls w) ++ made /\
    (made = [] \/ made = [packages]) /\
    (r = Ok tt -> made = [packages]).
Proof.
  unfold install_all.
  pose proof (calm_pyodide_loadPackage E ["micropip"] w) as C1.
  destruct (pyodide_loadPackage E ["micropip"] w) as [[[]|e] w1] eqn:H1; simpl in C1.
  - pose proof (calm_pyimport E "micropip" w1) as C2.
    destruct (pyimport E "micropip" w1) as [[[]|e] w2] eqn:H2; simpl in C2.
    + eexists _, _, [packages]. split.
      { erewrite bind_ok; [|exact H1]. erewrite bind_ok; [|exact H2].
        apply micropip_install_run. }
      destruct C1, C2. simpl. rewrite installs_snoc.
      repeat split; try congruence. by right.
    + exists (Throw e), w2, []. split.
      { erewrite bind_ok; [|exact H1]. by erewrite bind_throw. }
      destruct C1, C2. rewrite app_nil_r. repeat split; try congruence. by left.
  - exists (Throw e), w1, []. split; [by erewrite bind_throw|].
    destruct C1. rewrite app_nil_r. repeat split; try congruence. by left.
Qed.

(** The first block: it installs nothing, or the missing names in one
    call. *)
Lemma install_missing_runs (E : Env) (packages : list string) (w : World) :
  exists (r : Res unit) (w' : World) (made : list (list string)),
    install_missing E packages w = (r, w') /\
    registry w' = registry w /\
    window_fetch w' = window_fetch w /\
    installs (calls w') = installs (calls w) ++ made /\
    length made <= 1.
Proof.
  unfold install_missing.
  pose proof (calm_checkMissingPackages E (Some packages) w) as C1.
  destruct (checkMissingPackages E (Some packages) w) as [[r|e] w1] eqn:H1; simpl in C1.
  - destruct r as [missing|].
    + destruct (length missing =? 0) eqn:Hz.
      * exists (Ok tt), w1, []. split.
        { erewrite bind_ok; [|exact H1]. erewrite bind_ok; [|reflexivity].
          by rewrite Hz. }
        destruct C1. rewrite app_nil_r. repeat split; try congruence. simpl. lia.
      * destruct (install_all_runs E missing w1) as (r & w' & made & Hrun & Hr & Hf & Hi & Hm & _).
        exists r, w', made. split.
        { erewrite bind_ok; [|exact H1]. erewrite bind_ok; [|reflexivity].
          rewrite Hz. exact Hrun. }
        destruct C1. repeat split; try congruence.
        destruct Hm as [->| ->]; simpl; lia.
    + exists (Throw "TypeError: Cannot read properties of undefined (reading 'length')"),
        w1, []. split.
      { erewrite bind_ok; [|exact H1]. by erewrite bind_throw. }
      destruct C1. rewrite app_nil_r. repeat split; try congruence. simpl. lia.
  - exists (Throw e), w1, []. split; [by erewrite bind_throw|].
    destruct C1. rewrite app_nil_r. repeat split; try congruence. simpl. lia.
Qed.

(** [installMissingPackages] resolves in every environment. When its
    first block throws, the fallback block runs, once, from the world the
    first block left; nothing is written to the registry. *)
Lemma installMissingPackages_runs (E : Env) (packages : list string) (w : World) :
  exists (w' : World) (first retry : list (list string)),
    installMissingPackages E packages w = (Ok tt, w') /\
    registry w' = registry w /\
    installs (calls w') = installs (calls w) ++ first ++ retry /\
    length first <= 1 /\
    match install_missing E packages w with
    | (Ok _, w1) => retry = [] /\ w' = w1
    | (Throw _, w1) =>
        (retry = [] \/ retry = [packages]) /\
        (fst (install_all E packages w1) = Ok tt -> retry = [packages]) /\
        w' = snd (install_all E packages w1)
    end.
Proof.
  rewrite installMissingPackages_unfold.
  destruct (install_missing_runs E packages w) as (r & w1 & first & H1 & Hr1 & _ & Hi1 & Hlen).
  rewrite H1. destruct r as [[]|e].
  - exists w1, first, []. rewrite app_nil_r.
    split; [by apply try_catch_ok|]. done.
  - destruct (install_all_runs E packages w1) as (r2 & w2 & retry & H2 & Hr2 & _ & Hi2 & Hm & Hok).
    exists w2, first, retry. split.
    { erewrite try_catch_throw; [|exact H1]. unfold try_catch. rewrite H2. by destruct r2 as [[]|]. }
    rewrite H2. simpl. split; [congruence|]. split; [by rewrite Hi2, Hi1, app_assoc|].
    done.
Qed.

(** *** Which names the caching loader passes on *)

#[local] Instance no_load_steps : Steps no_load.
Proof. split; unfold no_load; [done|congruence]. Qed.

Lemma loads_snoc (h : list Call) (c : Call) :
  loads (h ++ [c]) = loads h ++ match c with CLoadPackage names => [names] | _ => [] end.
Proof. unfold loads. rewrite omap_app. by destruct c. Qed.

Create HintDb no_load.

#[local] Ltac no_load_auto :=
  repeat first
    [ respects_step
    | apply respects_modify; intros ?; unfold no_load; simpl;
      rewrite ?loads_snoc, ?app_nil_r; reflexivity
    | solve [eauto with no_load] ].

Lemma no_load_cachePackageWheel (E : Env) (n u : string) (d : list Byte.byte) :
  respects no_load (cachePackageWheel E n u d).
Proof.
  unfold cachePackageWheel, open_or_log, initPackageDatabase, date_now. no_load_auto.
Qed.
#[local] Hint Resolve no_load_cachePackageWheel : no_load.

Lemma no_load_through_fetch (E : Env) (f : FetchFn) (d : Download) :
  respects no_load (through_fetch E f d).
Proof. induction f; simpl; no_load_auto. Qed.
#[local] Hint Resolve no_load_through_fetch : no_load.

Lemma native_loadPackage_loads (E : Env) (ambient : World -> FetchFn)
    (names : list string) (w : World) :
  loads (calls (snd (native_loadPackage E ambient names w)))
    = loads (calls w) ++ [names].
Proof.
  unfold native_loadPackage. unfold bind at 1, ask at 1. simpl.
  unfold bind at 1, record at 1, modify at 1. simpl.
  set (w1 := upd_calls _ w).
  assert (respects no_load
            (for_of (fst (env_loadPackage E (calls w) names))
               (fun d => w0 <- get ;; through_fetch E (ambient w0) d) ;;;
             settle (snd (env_loadPackage E (calls w) names)))) as Hr
    by no_load_auto.
  rewrite (Hr w1). unfold w1. simpl. by rewrite loads_snoc.
Qed.

Lemma getCachedPackageWheel_available (E : Env) (name : string) (w : World) :
  db_available E ->
  getCachedPackageWheel E name w
    = (Ok (Wheel.data <$> wheels w !! name),
       upd_calls (fun h => h ++ [CDbOpen; CDbGet name]) w).
Proof.
  intros [Hopen Hreq]. unfold getCachedPackageWheel, open_or_log, initPackageDatabase.
  run. rewrite Hopen, Hreq. simpl. f_equal. unfold upd_calls. simpl.
  by rewrite <- app_assoc.
Qed.

Lemma loads_two (h : list Call) (name : string) :
  loads (h ++ [CDbOpen; CDbGet name]) = loads h.
Proof. unfold loads. rewrite omap_app. simpl. by rewrite app_nil_r. Qed.

Lemma split_cached_available (E : Env) (packages : list string) :
  db_available E ->
  forall (c l : list string) (w : World),
    exists w',
      split_cached E packages c l w
        = (Ok (c ++ filter (fun p => is_Some (wheels w !! p)) packages,
               l ++ filter (fun p => wheels w !! p = None) packages), w') /\
      wheels w' = wheels w /\
      window_fetch w' = window_fetch w /\
      loads (calls w') = loads (calls w).
Proof.
  intros Hdb. induction packages as [|p packages IH]; intros c l w.
  - exists w. simpl. by rewrite !app_nil_r.
  - simpl. unfold bind at 1. rewrite (getCachedPackageWheel_available E p w Hdb).
    set (w1 := upd_calls _ w).
    destruct (wheels w !! p) as [wh|] eqn:Hp; simpl.
    + destruct (IH (c ++ [p]) l w1) as (w' & Hrun & Hw & Hf & Hl).
      exists w'. split; [|by rewrite Hw, Hf, Hl; unfold w1; simpl; rewrite loads_two].
      rewrite Hrun. rewrite filter_cons_True by (by rewrite Hp).
      rewrite filter_cons_False by (by rewrite Hp). by rewrite <- app_assoc.
    + destruct (IH c (l ++ [p]) w1) as (w' & Hrun & Hw & Hf & Hl).
      exists w'. split; [|by rewrite Hw, Hf, Hl; unfold w1; simpl; rewrite loads_two].
      rewrite Hrun. rewrite filter_cons_False by (rewrite Hp; by intros [? ?]).
      rewrite filter_cons_True by done. by rewrite <- app_assoc.
Qed.

(** What the caching loader does do for cached names: with IndexedDB
    available, it passes to Pyodide's own [loadPackage] exactly the
    requested names that have no record in the wheel cache, in their
    order and in one call, and does not call it when every name has a
    record. *)
Lemma cached_loader_passes_only_uncached (E : Env) (names : list string) (w : World) :
  db_available E ->
  loads (calls (snd (call_loadPackage E (CachedLoadPackage NativeLoadPackage) names w)))
    = loads (calls w) ++
      match filter (fun p => wheels w !! p = None) names with
      | [] => []
      | packagesToLoad => [packagesToLoad]
      end.
Proof.
  intros Hdb. simpl.
  destruct (split_cached_available E names Hdb [] [] w) as (w1 & Hrun & _ & _ & Hl).
  unfold bind at 1. rewrite Hrun. simpl.
  destruct (filter (fun p => wheels w !! p = None) names) as [|p l] eqn:Hfilter; simpl.
  - by rewrite Hl, app_nil_r.
  - unfold bind, get, modify, try_finally. simpl.
    pose proof (native_loadPackage_loads E window_fetch (p :: l)
                  (set_window_fetch (WheelCapture (window_fetch w1)) w1)) as Hn.
    destruct (native_loadPackage E window_fetch (p :: l) _) as [r w2].
    simpl in *. by rewrite Hn, Hl.
Qed.

(** [preloadPyodidePackages] does not batch: it resolves in every
    environment after at most one install call. *)
Lemma preloadPyodidePackages_one_call (E : Env) (packages : list string)
    (forceReload useCache : bool) (w : World) :
  exists (w' : World) (made : list (list string)),
    preloadPyodidePackages E packages forceReload useCache w = (Ok tt, w') /\
    installs (calls w') = installs (calls w) ++ made /\
    length made <= 1 /\
    (forceReload = true -> made = [] \/ made = [packages]).
Proof.
  unfold preloadPyodidePackages.
  set (setup := if useCache then setupCachedPackageLoader else ret tt).
  assert (respects calm setup) as Hs by (unfold setup; destruct useCache; calm_auto).
  pose proof (Hs w) as C0. destruct (setup w) as [r0 w0] eqn:H0. simpl in C0.
  assert (r0 = Ok tt) as ->
    by (unfold setup, setupCachedPackageLoader, modify, ret in H0;
        destruct useCache; by inversion H0).
  pose proof (calm_pyodide_loadPackage E ["micropip"] w0) as C1.
  destruct (pyodide_loadPackage E ["micropip"] w0) as [[[]|e] w1] eqn:H1; simpl in C1.
  2:{ exists w1, []. split.
      { erewrite try_catch_throw; [reflexivity|].
        erewrite bind_ok; [|exact H0]. by erewrite bind_throw. }
      destruct C0, C1. rewrite app_nil_r. split; [congruence|]. split; [simpl; lia|by left]. }
  pose proof (calm_pyimport E "micropip" w1) as C2.
  destruct (pyimport E "micropip" w1) as [[[]|e] w2] eqn:H2; simpl in C2.
  2:{ exists w2, []. split.
      { erewrite try_catch_throw; [reflexivity|].
        erewrite bind_ok; [|exact H0]. erewrite bind_ok; [|exact H1].
        by erewrite bind_throw. }
      destruct C0, C1, C2. rewrite app_nil_r.
      split; [congruence|]. split; [simpl; lia|by left]. }
  set (select :=
         if negb forceReload then
           r <- checkMissingPackages E (Some packages) ;;
           missingPackages <- the_array r ;;
           if length missingPackages =? 0 then ret None
           else ret (Some missingPackages)
         else ret (Some packages)).
  assert (respects calm select) as Hsel by (unfold select, the_array; calm_auto).
  pose proof (Hsel w2) as C3. destruct (select w2) as [[sel|e] w3] eqn:H3; simpl in C3.
  2:{ exists w3, []. split.
      { erewrite try_catch_throw; [reflexivity|].
        erewrite bind_ok; [|exact H0]. erewrite bind_ok; [|exact H1].
        erewrite bind_ok; [|exact H2]. by erewrite bind_throw. }
      destruct C0, C1, C2, C3. rewrite app_nil_r.
      split; [congruence|]. split; [simpl; lia|by left]. }
  destruct sel as [l|].
  2:{ exists w3, []. split.
      { erewrite try_catch_ok; [reflexivity|].
        erewrite bind_ok; [|exact H0]. erewrite bind_ok; [|exact H1].
        erewrite bind_ok; [|exact H2]. erewrite bind_ok; [|exact H3]. reflexivity. }
      destruct C0, C1, C2, C3. rewrite app_nil_r.
      split; [congruence|]. split; [simpl; lia|by left]. }
  pose proof (calm_runPythonAsync E PyShowAvailable w3) as C4.
  destruct (runPythonAsync E PyShowAvailable w3) as [[x|e] w4] eqn:H4; simpl in C4.
  2:{ exists w4, []. split.
      { erewrite try_catch_throw; [reflexivity|].
        erewrite bind_ok; [|exact H0]. erewrite bind_ok; [|exact H1].
        erewrite bind_ok; [|exact H2]. erewrite bind_ok; [|exact H3].
        cbv beta iota. by erewrite bind_throw. }
      destruct C0, C1, C2, C3, C4. rewrite app_nil_r.
      split; [congruence|]. split; [simpl; lia|by left]. }
  exists (upd_calls (fun h => h ++ [CInstall l]) w4), [l]. split.
  { unfold try_catch.
    erewrite bind_ok; [|exact H0]. erewrite bind_ok; [|exact H1].
    erewrite bind_ok; [|exact H2]. erewrite bind_ok; [|exact H3].
    cbv beta iota. erewrite bind_ok; [|exact H4]. rewrite micropip_install_run.
    by destruct (env_install E (calls w4) l). }
  destruct C0, C1, C2, C3, C4. simpl. rewrite installs_snoc.
  split; [congruence|]. split; [simpl; lia|].
  intros ->. right. unfold select in H3. simpl in H3. by inversion H3.
Qed.

End LoaderFacts.

(** ** The package list *)

Module ListFacts.
Import Rt.

Lemma worker_list_failure (E : Env) (w w1 : World) :
  Worker.cached_list E w = (Ok None, w1) ->
  list_request_failed (env_fetch_list E (calls w1)) = true ->
  exists w',
    Worker.fetchPyodidePackages E w = (Ok Worker.DEFAULT_PACKAGES, w') /\
    packageCache w' = packageCache w1.
Proof.
  intros Hmiss Hfail. unfold Worker.fetchPyodidePackages.
  unfold bind at 1. rewrite Hmiss. run.
  destruct (env_fetch_list E (calls w1)) as [e|status body]; simpl in *.
  - eexists. split; [reflexivity|]. by destruct w1.
  - destruct body; simpl in *;
      destruct (response_ok status); simpl in *; try discriminate;
      (eexists; split; [reflexivity|]; by destruct w1).
Qed.

Lemma worker_cached_list_keeps_cache (E : Env) (w w1 : World) r :
  Worker.cached_list E w = (r, w1) -> packageCache w1 = packageCache w.
Proof.
  unfold Worker.cached_list. run.
  destruct (packageCache w) as [c|] eqn:Hc; simpl.
  - destruct (_ <? _)%Z; intros [= <- <-]; by destruct w.
  - by intros [= <- <-].
Qed.

Lemma loader_list_failure (E : Env) (w w1 : World) :
  Loader.cached_list E w = (Ok None, w1) ->
  list_request_failed (env_fetch_list E (calls w1)) = true ->
  exists w',
    Loader.fetchPyodidePackages E w = (Ok Loader.DEFAULT_PACKAGES, w') /\
    localStorage w' = localStorage w1.
Proof.
  intros Hmiss Hfail. unfold Loader.fetchPyodidePackages.
  unfold bind at 1. rewrite Hmiss. run.
  destruct (env_fetch_list E (calls w1)) as [e|status body]; simpl in *.
  - eexists. split; [reflexivity|]. by destruct w1.
  - destruct body; simpl in *;
      destruct (response_ok status); simpl in *; try discriminate;
      (eexists; split; [reflexivity|]; by destruct w1).
Qed.

Lemma loader_cached_list_keeps_storage (E : Env) (w w1 : World) r :
  Loader.cached_list E w = (r, w1) -> localStorage w1 = localStorage w.
Proof.
  unfold Loader.cached_list. run.
  destruct (localStorage w) as [[|c]|] eqn:Hc; simpl.
  - by intros [= <- <-].
  - destruct (_ && _); intros [= <- <-]; by destruct w.
  - by intros [= <- <-].
Qed.

(** Counterexample to C7. On HTTP 500 the [fetchPyodidePackages] of
    the loader utility returns its own default list, which has six
    names, not nine. *)
Lemma loader_defaults_are_six_on_http500 :
  fst (Loader.fetchPyodidePackages Examples.http500 world0)
    = Ok ["micropip"; "packaging"; "requests"; "beautifulsoup4"; "numpy"; "pandas"] /\
  ~ (exists l, fst (Loader.fetchPyodidePackages Examples.http500 world0) = Ok l /\
               length l = 9).
Proof.
  split; [reflexivity|].
  intros (l & Hl & Hlen). vm_compute in Hl. injection Hl as <-. discriminate.
Qed.

(** C7, amended. Whenever a call of [fetchPyodidePackages] reaches the
    remote request and that request rejects, answers with a non-success
    status, or carries a body that is not JSON or is [null], the function
    returns the static default list of its module, nine names in the
    worker and six in the loader utility, and the list cache is what it
    was before the call. A body that parses but has no [packages] field
    is not such a failure: the default list is returned and cached. *)
Theorem list_fetch_failure_returns_defaults (E : Env) (w w1 : World) :
  list_request_failed (env_fetch_list E (calls w1)) = true ->
  (Worker.cached_list E w = (Ok None, w1) ->
   exists w',
     Worker.fetchPyodidePackages E w = (Ok Worker.DEFAULT_PACKAGES, w') /\
     packageCache w' = packageCache w /\
     length Worker.DEFAULT_PACKAGES = 9) /\
  (Loader.cached_list E w = (Ok None, w1) ->
   exists w',
     Loader.fetchPyodidePackages E w = (Ok Loader.DEFAULT_PACKAGES, w') /\
     localStorage w' = localStorage w /\
     length Loader.DEFAULT_PACKAGES = 6).
Proof.
  intros Hfail. split; intros Hmiss.
  - destruct (worker_list_failure E w w1 Hmiss Hfail) as (w' & Hrun & Hc).
    exists w'. split; [done|]. split; [|done].
    rewrite Hc. by eapply worker_cached_list_keeps_cache.
  - destruct (loader_list_failure E w w1 Hmiss Hfail) as (w' & Hrun & Hc).
    exists w'. split; [done|]. split; [|done].
    rewrite Hc. by eapply loader_cached_list_keeps_storage.
Qed.

Lemma list_fetch_failure_returns_defaults_witness :
  list_request_failed (env_fetch_list Examples.http500 (calls world0)) = true /\
  Worker.cached_list Examples.http500 world0 = (Ok None, world0) /\
  Loader.cached_list Examples.http500 world0 = (Ok None, world0) /\
  (exists w',
     Worker.fetchPyodidePackages Examples.http500 world0
       = (Ok Worker.DEFAULT_PACKAGES, w') /\
     packageCache w' = packageCache world0 /\
     length Worker.DEFAULT_PACKAGES = 9) /\
  (exists w',
     Loader.fetchPyodidePackages Examples.http500 world0
       = (Ok Loader.DEFAULT_PACKAGES, w') /\
     localStorage w' = localStorage world0 /\
     length Loader.DEFAULT_PACKAGES = 6).
Proof.
  split; [reflexivity|]. split; [reflexivity|]. split; [reflexivity|].
  destruct (list_fetch_failure_returns_defaults Examples.http500 world0 world0)
    as [Hw Hl]; [reflexivity|].
  split; [apply Hw | apply Hl]; reflexivity.
Defined.

(** A body that is JSON but has no [packages] field is answered with the
    default list, and that list is written to the cache. *)
Lemma worker_list_without_packages_is_cached (E : Env) (w : World) (status : Z) :
  packageCache w = None ->
  env_fetch_list E (calls w) = HttpResponse status BodyNoPackages ->
  response_ok status = true ->
  exists w',
    Worker.fetchPyodidePackages E w = (Ok Worker.DEFAULT_PACKAGES, w') /\
    packageCache w' =
      Some (ListCache.mkPackageCache
              (env_now E (calls w ++ [CFetchPackageList])) Worker.DEFAULT_PACKAGES).
Proof.
  intros Hc Hr Hok. unfold Worker.fetchPyodidePackages, Worker.cached_list.
  run. rewrite Hc. simpl. rewrite Hr. simpl. rewrite Hok. simpl.
  eexists. split; reflexivity.
Qed.

End ListFacts.

(** ** The wheel cache *)

Module WheelFacts.
Import Rt Loader.

Lemma cachePackageWheel_stores (E : Env) (w w1 : World)
    (name url : string) (payload : list Byte.byte) :
  env_db_open E (calls w) = true ->
  cachePackageWheel E name url payload w = (Ok tt, w1) ->
  exists now,
    wheels w1 = <[name := Wheel.mkPackageWheelCache name url payload now]> (wheels w).
Proof.
  intros Hopen. unfold cachePackageWheel, open_or_log, initPackageDatabase.
  run. rewrite Hopen. simpl.
  destruct (env_db_request E _); simpl; [|discriminate].
  intros [= <-]. eexists. reflexivity.
Qed.

Lemma getCachedPackageWheel_cases (E : Env) (w : World) (name : string) :
  fst (getCachedPackageWheel E name w) =
    if env_db_open E (calls w) then
      if env_db_request E (calls w ++ [CDbOpen])
      then Ok (Wheel.data <$> wheels w !! name)
      else Throw ("Failed to retrieve package wheel: " +:+ name)
    else Ok None.
Proof.
  unfold getCachedPackageWheel, open_or_log, initPackageDatabase. run.
  destruct (env_db_open E (calls w)); simpl; [|done].
  destruct (env_db_request E _); by simpl.
Qed.

(** C9. After a put of (name, url, payload) that reached the store and
    succeeded, a get of the same name, with the store available, returns
    exactly the payload that was stored. Whatever the store does at the
    time of the get, the get returns that payload, or nothing because the
    database does not open, or rejects because the request fails: never
    other bytes. *)
Theorem wheel_put_get_round_trip (E : Env) (w w1 : World)
    (name url : string) (payload : list Byte.byte) :
  env_db_open E (calls w) = true ->
  cachePackageWheel E name url payload w = (Ok tt, w1) ->
  (env_db_open E (calls w1) = true ->
   env_db_request E (calls w1 ++ [CDbOpen]) = true ->
   fst (getCachedPackageWheel E name w1) = Ok (Some payload)) /\
  (fst (getCachedPackageWheel E name w1) = Ok (Some payload) \/
   (fst (getCachedPackageWheel E name w1) = Ok None /\
    env_db_open E (calls w1) = false) \/
   (fst (getCachedPackageWheel E name w1)
      = Throw ("Failed to retrieve package wheel: " +:+ name) /\
    env_db_request E (calls w1 ++ [CDbOpen]) = false)).
Proof.
  intros Hopen Hput.
  destruct (cachePackageWheel_stores E w w1 name url payload Hopen Hput) as [now Hst].
  rewrite getCachedPackageWheel_cases, Hst, lookup_insert_eq. simpl.
  split.
  - by intros -> ->.
  - destruct (env_db_open E (calls w1)); [|by right; left].
    destruct (env_db_request E _); [by left | by right; right].
Qed.

Lemma wheel_put_get_round_trip_witness :
  env_db_open Examples.quiet (calls world0) = true /\
  (exists w1,
     cachePackageWheel Examples.quiet "numpy" "https://cdn/pyodide/numpy-1.26.whl"
       [Byte.x50; Byte.x4b; Byte.x03; Byte.x04] world0 = (Ok tt, w1) /\
     fst (getCachedPackageWheel Examples.quiet "numpy" w1)
       = Ok (Some [Byte.x50; Byte.x4b; Byte.x03; Byte.x04])).
Proof.
  split; [reflexivity|].
  exists (snd (cachePackageWheel Examples.quiet "numpy"
                 "https://cdn/pyodide/numpy-1.26.whl"
                 [Byte.x50; Byte.x4b; Byte.x03; Byte.x04] world0)).
  split; [vm_compute; reflexivity|].
  apply (wheel_put_get_round_trip Examples.quiet world0 _ "numpy"
           "https://cdn/pyodide/numpy-1.26.whl");
    vm_compute; reflexivity.
Defined.

(** A put that finds the database closed also resolves, and stores
    nothing: the error is logged inside [cachePackageWheel]. *)
Lemma cachePackageWheel_swallows_closed_database (E : Env) (w : World)
    (name url : string) (payload : list Byte.byte) :
  env_db_open E (calls w) = false ->
  exists w1, cachePackageWheel E name url payload w = (Ok tt, w1) /\
             wheels w1 = wheels w.
Proof.
  intros Hopen. unfold cachePackageWheel, open_or_log, initPackageDatabase.
  run. rewrite Hopen. simpl. eexists. split; [reflexivity|]. by destruct w.
Qed.

End WheelFacts.

(** ** The worker: one execution *)

Module ExecFacts.
Import Rt Worker.

Lemma string_app_cons (x : ascii) (a b : string) :
  String x a +:+ b = String x (a +:+ b).
Proof. reflexivity. Qed.

Lemma string_app_assoc (a b c : string) : (a +:+ b) +:+ c = a +:+ (b +:+ c).
Proof. induction a as [|x a IH]; [done|]. by rewrite !string_app_cons, IH. Qed.

Lemma string_app_empty_r (a : string) : a +:+ "" = a.
Proof. induction a as [|x a IH]; [done|]. by rewrite string_app_cons, IH. Qed.

Lemma stream_into_fields (c : Cell.CellState) (chunks : list OutChunk) :
  Cell.id (stream_into c chunks) = Cell.id c /\
  Cell.status (stream_into c chunks) = Cell.status c /\
  Cell.result (stream_into c chunks) = Cell.result c /\
  Cell.stdout (stream_into c chunks) = Cell.stdout c +:+ stdout_text chunks /\
  Cell.stderr (stream_into c chunks) = Cell.stderr c +:+ stderr_text chunks.
Proof.
  revert c. induction chunks as [|ch chunks IH]; intros c; simpl.
  - by rewrite !string_app_empty_r.
  - destruct (IH (stream_chunk c ch)) as (Hi & Hs & Hr & Ho & He).
    unfold stream_into in *. rewrite Hi, Hs, Hr, Ho, He.
    destruct ch; simpl; rewrite ?string_app_assoc; done.
Qed.

Lemma streams_refl (id : string) (c : Cell.CellState) (w : World) :
  cells w !! id = Some c -> streams id c c [] [] w w.
Proof.
  intros Hc. split; rewrite ?app_nil_r; try done.
  - by rewrite insert_id.
  - exists []. by rewrite app_nil_r.
Qed.

Lemma streams_trans (id : string) (c c' c'' : Cell.CellState)
    (made made' : list Call) (posted posted' : list Msg.Message) (w w' w'' : World) :
  Cell.status c' = Cell.status c ->
  streams id c c' made posted w w' ->
  streams id c' c'' made' posted' w' w'' ->
  streams id c c'' (made ++ made') (posted ++ posted') w w''.
Proof.
  intros Hs [H1 H2 H3 H4 H5 H6 H7 H8 (s1 & Ht1 & Hf1)]
            [G1 G2 G3 G4 G5 G6 G7 G8 (s2 & Ht2 & Hf2)].
  split.
  - by rewrite G1, H1, app_assoc.
  - congruence.
  - congruence.
  - congruence.
  - congruence.
  - done.
  - by rewrite G7, H7, insert_insert_eq.
  - by rewrite G8, H8, app_assoc.
  - exists (s1 ++ s2). split; [by rewrite Ht2, Ht1, app_assoc|].
    apply Forall_app. split; [done|].
    eapply Forall_impl; [exact Hf2|]. intros m (k & Hk & Hk'). exists k.
    split; [done|]. congruence.
Qed.

Lemma tick_streams (id : string) (c : Cell.CellState) (w : World) :
  cells w !! id = Some c ->
  exists w', tick w = (Ok tt, w') /\ streams id c c [] [] w w' /\
             timeline w' = timeline w ++ [cells w].
Proof.
  intros Hc. eexists. split; [reflexivity|]. split; [|done].
  split; simpl; rewrite ?app_nil_r; try done.
  - by rewrite insert_id.
  - exists [cells w]. split; [done|]. constructor; [|done]. by exists c.
Qed.

Lemma record_streams (id : string) (c : Cell.CellState) (k : Call) (w : World) :
  cells w !! id = Some c ->
  exists w', record k w = (Ok tt, w') /\ streams id c c [k] [] w w'.
Proof.
  intros Hc. eexists. split; [reflexivity|].
  split; simpl; rewrite ?app_nil_r; try done.
  - by rewrite insert_id.
  - exists []. by rewrite app_nil_r.
Qed.

Lemma deliver_streams (id : string) (ch : OutChunk) (w : World) (c : Cell.CellState) :
  stdout_handler w = Some id ->
  stderr_handler w = Some id ->
  cells w !! id = Some c ->
  exists w',
    deliver ch w = (Ok tt, w') /\
    streams id c (stream_chunk c ch) [] [chunk_message id ch] w w'.
Proof.
  intros Hout Herr Hc.
  exists (upd_timeline (fun t => t ++ [<[id := stream_chunk c ch]> (cells w)])
            (upd_outbox (fun o => o ++ [chunk_message id ch])
               (upd_cells (fun m => <[id := stream_chunk c ch]> m) w))).
  split.
  - unfold deliver, modify_cell, postMessage, tick. run.
    destruct ch; simpl; rewrite ?Hout, ?Herr; simpl; rewrite Hc; reflexivity.
  - split; simpl; rewrite ?app_nil_r; try done.
    eexists. split; [done|]. constructor; [|done].
    eexists. rewrite lookup_insert_eq. split; [done|]. by destruct ch.
Qed.

Lemma deliver_all (id : string) (chunks : list OutChunk) :
  forall (w : World) (c : Cell.CellState),
    stdout_handler w = Some id ->
    stderr_handler w = Some id ->
    cells w !! id = Some c ->
    exists w',
      for_of chunks deliver w = (Ok tt, w') /\
      streams id c (stream_into c chunks) [] (map (chunk_message id) chunks) w w'.
Proof.
  induction chunks as [|ch chunks IH]; intros w c Hout Herr Hc.
  - exists w. split; [done|]. by apply streams_refl.
  - destruct (deliver_streams id ch w c Hout Herr Hc) as (w1 & Hd & Hst).
    destruct (IH w1 (stream_chunk c ch)) as (w' & Hrun & Hst').
    + by rewrite (st_stdout _ _ _ _ _ _ _ Hst).
    + by rewrite (st_stderr _ _ _ _ _ _ _ Hst).
    + rewrite (st_cells _ _ _ _ _ _ _ Hst). apply lookup_insert_eq.
    + exists w'. split.
      * simpl. unfold bind. rewrite Hd. exact Hrun.
      * change (map (chunk_message id) (ch :: chunks))
          with ([chunk_message id ch] ++ map (chunk_message id) chunks).
        change (@nil Call) with (@nil Call ++ []).
        eapply streams_trans; [|exact Hst|exact Hst']. by destruct ch.
Qed.

Lemma note_streams (id : string) (n : LoadNote) (w : World) (c : Cell.CellState) :
  stdout_handler w = Some id ->
  stderr_handler w = Some id ->
  cells w !! id = Some c ->
  exists w',
    note id n w = (Ok tt, w') /\
    streams id c (stream_into c (streamed [n])) [] [note_message id n] w w'.
Proof.
  intros Hout Herr Hc. destruct n as [ch|msg|msg].
  - by apply deliver_streams.
  - eexists. split; [reflexivity|].
    split; simpl; rewrite ?app_nil_r; try done.
    + by rewrite insert_id.
    + eexists. split; [done|]. constructor; [|done]. by exists c.
  - eexists. split; [reflexivity|].
    split; simpl; rewrite ?app_nil_r; try done.
    + by rewrite insert_id.
    + eexists. split; [done|]. constructor; [|done]. by exists c.
Qed.

Lemma streamed_cons (n : LoadNote) (notes : list LoadNote) :
  streamed (n :: notes) = streamed [n] ++ streamed notes.
Proof. unfold streamed. simpl. by destruct n. Qed.

Lemma stream_into_app (c : Cell.CellState) (l1 l2 : list OutChunk) :
  stream_into c (l1 ++ l2) = stream_into (stream_into c l1) l2.
Proof. unfold stream_into. apply fold_left_app. Qed.

Lemma note_all (id : string) (notes : list LoadNote) :
  forall (w : World) (c : Cell.CellState),
    stdout_handler w = Some id ->
    stderr_handler w = Some id ->
    cells w !! id = Some c ->
    exists w',
      for_of notes (note id) w = (Ok tt, w') /\
      streams id c (stream_into c (streamed notes)) []
        (map (note_message id) notes) w w'.
Proof.
  induction notes as [|n notes IH]; intros w c Hout Herr Hc.
  - exists w. split; [done|]. by apply streams_refl.
  - destruct (note_streams id n w c Hout Herr Hc) as (w1 & Hd & Hst).
    destruct (IH w1 (stream_into c (streamed [n]))) as (w' & Hrun & Hst').
    + by rewrite (st_stdout _ _ _ _ _ _ _ Hst).
    + by rewrite (st_stderr _ _ _ _ _ _ _ Hst).
    + rewrite (st_cells _ _ _ _ _ _ _ Hst). apply lookup_insert_eq.
    + exists w'. split.
      * simpl. unfold bind. rewrite Hd. exact Hrun.
      * rewrite streamed_cons, stream_into_app.
        change (map (note_message id) (n :: notes))
          with ([note_message id n] ++ map (note_message id) notes).
        change (@nil Call) with (@nil Call ++ []).
        eapply streams_trans; [|exact Hst|exact Hst'].
        apply stream_into_fields.
Qed.

Lemma imports_streams (E : Env) (id code : string) (w : World) (c : Cell.CellState) :
  stdout_handler w = Some id ->
  stderr_handler w = Some id ->
  cells w !! id = Some c ->
  exists w',
    loadPackagesFromImports E id code w =
      (match snd (env_imports E (calls w) code) with
       | None => Ok tt
       | Some e => Throw e
       end, w') /\
    streams id c (stream_into c (streamed (fst (env_imports E (calls w) code))))
      [CLoadPackagesFromImports code]
      (map (note_message id) (fst (env_imports E (calls w) code))) w w' /\
    exists rest, timeline w' = timeline w ++ cells w :: rest.
Proof.
  intros Hout Herr Hc.
  set (r := env_imports E (calls w) code).
  set (w2 := upd_calls (fun h => h ++ [CLoadPackagesFromImports code])
               (upd_timeline (fun t => t ++ [cells w]) w)).
  destruct (note_all id (fst r) w2 c Hout Herr Hc) as (w3 & Hrun & Hst).
  exists w3. split; [|split].
  - unfold loadPackagesFromImports, tick. run. fold r. fold w2.
    rewrite Hrun. by case_match.
  - destruct Hst as [H1 H2 H3 H4 H5 H6 H7 H8 (seen & Ht & Hf)].
    split; simpl in *; rewrite ?app_nil_r in *; try done.
    exists (cells w :: seen). split; [by rewrite Ht, <- app_assoc|].
    constructor; [by exists c | done].
  - destruct Hst as [_ _ _ _ _ _ _ _ (seen & Ht & _)].
    exists seen. simpl in Ht. by rewrite Ht, <- app_assoc.
Qed.

Lemma runUserCode_streams (E : Env) (id code : string) (w : World) (c : Cell.CellState) :
  stdout_handler w = Some id ->
  stderr_handler w = Some id ->
  cells w !! id = Some c ->
  exists w',
    runUserCode E code w = (snd (env_user_code E (calls w) code), w') /\
    streams id c (stream_into c (fst (env_user_code E (calls w) code)))
      [CRunUserCode code]
      (map (chunk_message id) (fst (env_user_code E (calls w) code))) w w'.
Proof.
  intros Hout Herr Hc.
  set (r := env_user_code E (calls w) code).
  set (w2 := upd_calls (fun h => h ++ [CRunUserCode code])
               (upd_timeline (fun t => t ++ [cells w]) w)).
  destruct (deliver_all id (fst r) w2 c Hout Herr Hc) as (w3 & Hrun & Hst).
  exists w3. split.
  - unfold runUserCode, tick. run. fold r. fold w2.
    rewrite Hrun. by case_match.
  - destruct Hst as [H1 H2 H3 H4 H5 H6 H7 H8 (seen & Ht & Hf)].
    split; simpl in *; rewrite ?app_nil_r in *; try done.
    exists (cells w :: seen). split; [by rewrite Ht, <- app_assoc|].
    constructor; [by exists c | done].
Qed.

Lemma upd_cells_twice (id : string) (c c' : Cell.CellState) (w : World) :
  upd_cells (fun m => <[id := c']> m) (upd_cells (fun m => <[id := c]> m) w)
  = upd_cells (fun m => <[id := c']> m) w.
Proof. unfold upd_cells. simpl. by rewrite insert_insert_eq. Qed.

Lemma try_finally_throws {S A} (m : M S A) (f : M S unit) (s s1 s2 : S)
    (r : Res A) (e : string) :
  m s = (r, s1) -> f s1 = (Throw e, s2) -> try_finally m f s = (Throw e, s2).
Proof. intros H1 H2. unfold try_finally. by rewrite H1, H2. Qed.

(** The [finally] of [executeCode] on a world whose cell [id] holds
    [final]: the [result] message is posted when the record can be
    cloned, and [postMessage] throws when it cannot. *)
Lemma finally_posts (id : string) (final : Cell.CellState) (w1 : World) :
  cells w1 !! id = Some final ->
  (w' <- get ;; postMessage (Msg.result id (cells w' !! id))) w1 =
    if Js.clonable (Cell.result final)
    then (Ok tt, upd_outbox (fun o => o ++ [Msg.result id (Some final)]) w1)
    else (Throw "DataCloneError: The object could not be cloned.", w1).
Proof.
  intros Hc. unfold postMessage, bind, get. simpl. rewrite Hc. simpl.
  by destruct (Js.clonable (Cell.result final)).
Qed.

Lemma failed_cell_result (id : string) (chunks : list OutChunk) (e : string) :
  Cell.result (failed_cell (stream_into (fresh_cell id) chunks) e) = Js.JsNull.
Proof.
  unfold failed_cell. simpl.
  by destruct (stream_into_fields (fresh_cell id) chunks) as (_ & _ & -> & _).
Qed.

Lemma completed_cell_result (c : Cell.CellState) (v : Js.JsValue) :
  Cell.result (completed_cell c v) = v.
Proof. reflexivity. Qed.

(** One call of [executeCode] on an initialised worker, run from its
    start to its settlement. The record it leaves is determined by what
    the runtime does; the call resolves after posting the record when the
    record can be cloned, and rejects without posting it when it cannot. *)
Lemma executeCode_initialized (E : Env) (id code : string) (w : World) :
  pyodide w = true ->
  let imp := env_imports E (calls w) code in
  let usr := env_user_code E (calls w ++ [CLoadPackagesFromImports code]) code in
  exists (w' : World) (final : Cell.CellState)
         (posted : list Msg.Message) (seen : list (gmap string Cell.CellState)),
    executeCode E id code w =
      (if Js.clonable (Cell.result final) then Ok tt
       else Throw "DataCloneError: The object could not be cloned.", w') /\
    cells w' = <[id := final]> (cells w) /\
    outbox w' =
      outbox w ++ posted ++
        (if Js.clonable (Cell.result final) then [Msg.result id (Some final)] else []) /\
    Forall (fun m => Msg.is_result m = false) posted /\
    timeline w' = timeline w ++ seen /\
    (exists rest, seen = <[id := fresh_cell id]> (cells w) :: rest) /\
    Forall (fun m => exists k, m !! id = Some k /\ Cell.status k = Cell.running) seen /\
    pyodide w' = true /\
    closed w' = closed w /\
    calls w' =
      calls w ++ CLoadPackagesFromImports code ::
        match snd imp with Some _ => [] | None => [CRunUserCode code] end /\
    posted =
      map (note_message id) (fst imp) ++
        match snd imp with
        | Some _ => []
        | None => map (chunk_message id) (fst usr)
        end /\
    final =
      match snd imp with
      | Some e => failed_cell (stream_into (fresh_cell id) (streamed (fst imp))) e
      | None =>
          match snd usr with
          | Throw e =>
              failed_cell
                (stream_into (fresh_cell id) (streamed (fst imp) ++ fst usr)) e
          | Ok v =>
              completed_cell
                (stream_into (fresh_cell id) (streamed (fst imp) ++ fst usr)) v
          end
      end.
Proof.
  intros Hpy imp usr.
  set (wb := set_stderr_handler (Some id)
               (set_stdout_handler (Some id)
                  (upd_cells (fun m => <[id := fresh_cell id]> m) w))).
  assert (cells wb !! id = Some (fresh_cell id)) as Hfresh
    by (simpl; apply lookup_insert_eq).
  destruct (imports_streams E id code wb (fresh_cell id)) as (w1 & Himp & Hst1 & rest & Hrest);
    [done..|].
  change (env_imports E (calls wb) code) with imp in Himp, Hst1.
  assert (executeCode E id code w =
            try_finally
              (try_catch
                 (loadPackagesFromImports E id code ;;;
                  result <- runUserCode E code ;;
                  modify_cell id (Cell.set_result result) ;;;
                  modify_cell id (Cell.set_status Cell.completed))
                 (fun error =>
                    modify_cell id (Cell.set_status Cell.error) ;;;
                    modify_cell id (Cell.append_stderr (newline +:+ error))))
              (w' <- get ;; postMessage (Msg.result id (cells w' !! id))) wb) as ->.
  { unfold executeCode. unfold bind at 1, get at 1. simpl. rewrite Hpy. reflexivity. }
  destruct Hst1 as [C1 P1 L1 O1 R1 B1 M1 X1 (seen1 & T1 & F1)].
  simpl in C1, P1, L1, O1, R1, M1, X1, T1.
  rewrite insert_insert_eq in M1.
  (* what the body of the [try] leaves, and what the [finally] does then *)
  assert (forall (body : M World unit) (wc : World) (final : Cell.CellState)
                 (posted : list Msg.Message) (seen : list (gmap string Cell.CellState)),
            body wb = (Ok tt, wc) ->
            cells wc = <[id := final]> (cells w) ->
            outbox wc = outbox w ++ posted ->
            timeline wc = timeline w ++ seen ->
            exists w',
              try_finally body
                (w' <- get ;; postMessage (Msg.result id (cells w' !! id))) wb
              = (if Js.clonable (Cell.result final) then Ok tt
                 else Throw "DataCloneError: The object could not be cloned.", w') /\
              cells w' = <[id := final]> (cells w) /\
              outbox w' =
                outbox w ++ posted ++
                  (if Js.clonable (Cell.result final)
                   then [Msg.result id (Some final)] else []) /\
              timeline w' = timeline w ++ seen /\
              pyodide w' = pyodide wc /\ closed w' = closed wc /\ calls w' = calls wc)
    as Hfinally.
  { intros body wc final posted seen Hbody Hcells Hout Htime.
    assert (cells wc !! id = Some final) as Hc by (rewrite Hcells; apply lookup_insert_eq).
    pose proof (finally_posts id final wc Hc) as Hpost.
    destruct (Js.clonable (Cell.result final)).
    - eexists. split; [eapply try_finally_runs; [exact Hbody|exact Hpost]|].
      simpl. rewrite Hout, <- app_assoc. done.
    - eexists. split; [eapply try_finally_throws; [exact Hbody|exact Hpost]|].
      rewrite Hout, app_nil_r. done. }
  set (c1 := stream_into (fresh_cell id) (streamed (fst imp))) in *.
  destruct (snd imp) as [e|] eqn:Himpr.
  - (* the import resolution fails *)
    destruct (Hfinally
                (try_catch
                   (loadPackagesFromImports E id code ;;;
                    result <- runUserCode E code ;;
                    modify_cell id (Cell.set_result result) ;;;
                    modify_cell id (Cell.set_status Cell.completed))
                   (fun error =>
                      modify_cell id (Cell.set_status Cell.error) ;;;
                      modify_cell id (Cell.append_stderr (newline +:+ error))))
                (upd_cells (fun m => <[id := failed_cell c1 e]> m) w1)
                (failed_cell c1 e) (map (note_message id) (fst imp)) seen1)
      as (w' & Hrun & Hcells & Hout & Htime & Hpy' & Hcl' & Hcalls').
    { erewrite try_catch_throw; [|by erewrite bind_throw].
      unfold modify_cell. run. rewrite M1, lookup_insert_eq. simpl.
      rewrite lookup_insert_eq. simpl. rewrite upd_cells_twice. reflexivity. }
    { simpl. by rewrite M1, insert_insert_eq. }
    { simpl. exact X1. }
    { simpl. exact T1. }
    exists w', (failed_cell c1 e), (map (note_message id) (fst imp)), seen1.
    split; [exact Hrun|]. split; [exact Hcells|]. split; [exact Hout|].
    split; [apply Forall_map, Forall_true; intros [[]| |]; done|].
    split; [exact Htime|]. split.
    { rewrite Hrest in T1. simpl in T1. apply app_inv_head in T1. subst seen1.
      by exists rest. }
    split; [eapply Forall_impl; [exact F1|]; by simpl|].
    split; [rewrite Hpy'; simpl; by rewrite P1|].
    split; [rewrite Hcl'; simpl; by rewrite L1|].
    split; [rewrite Hcalls'; simpl; exact C1|].
    split; [by rewrite app_nil_r|done].
  - (* the imports are resolved, the code runs *)
    assert (cells w1 !! id = Some c1) as Hc1 by (rewrite M1; apply lookup_insert_eq).
    destruct (runUserCode_streams E id code w1 c1) as (w2 & Husr & Hst2);
      [congruence..|].
    rewrite C1 in Husr, Hst2. change (env_user_code E _ code) with usr in Husr, Hst2.
    destruct Hst2 as [C2 P2 L2 O2 R2 B2 M2 X2 (seen2 & T2 & F2)].
    rewrite M1, insert_insert_eq in M2.
    assert (Cell.status c1 = Cell.running) as Hs1 by apply stream_into_fields.
    set (c2 := stream_into c1 (fst usr)) in *.
    assert (c2 = stream_into (fresh_cell id) (streamed (fst imp) ++ fst usr)) as Hc2
      by (unfold c2, c1; by rewrite stream_into_app).
    rewrite <- Hc2.
    set (final := match snd usr with
                  | Ok v => completed_cell c2 v
                  | Throw e => failed_cell c2 e
                  end).
    destruct (Hfinally
                (try_catch
                   (loadPackagesFromImports E id code ;;;
                    result <- runUserCode E code ;;
                    modify_cell id (Cell.set_result result) ;;;
                    modify_cell id (Cell.set_status Cell.completed))
                   (fun error =>
                      modify_cell id (Cell.set_status Cell.error) ;;;
                      modify_cell id (Cell.append_stderr (newline +:+ error))))
                (upd_cells (fun m => <[id := final]> m) w2)
                final
                (map (note_message id) (fst imp) ++ map (chunk_message id) (fst usr))
                (seen1 ++ seen2))
      as (w' & Hrun & Hcells & Hout & Htime & Hpy' & Hcl' & Hcalls').
    { unfold final. destruct (snd usr) as [v|e] eqn:Husrr.
      - erewrite try_catch_ok; [reflexivity|].
        erewrite bind_ok; [|exact Himp]. erewrite bind_ok; [|exact Husr].
        unfold modify_cell. run. rewrite M2, lookup_insert_eq. simpl.
        rewrite lookup_insert_eq. simpl. rewrite upd_cells_twice. reflexivity.
      - erewrite try_catch_throw;
          [|erewrite bind_ok; [|exact Himp]; by erewrite bind_throw].
        unfold modify_cell. run. rewrite M2, lookup_insert_eq. simpl.
        rewrite lookup_insert_eq. simpl. rewrite upd_cells_twice. reflexivity. }
    { simpl. by rewrite M2, insert_insert_eq. }
    { simpl. by rewrite X2, X1, <- app_assoc. }
    { simpl. by rewrite T2, T1, <- app_assoc. }
    exists w', final,
      (map (note_message id) (fst imp) ++ map (chunk_message id) (fst usr)),
      (seen1 ++ seen2).
    split; [exact Hrun|]. split; [exact Hcells|]. split; [exact Hout|].
    split.
    { apply Forall_app. split; apply Forall_map, Forall_true.
      - intros [[]| |]; done.
      - intros []; done. }
    split; [exact Htime|]. split.
    { rewrite Hrest in T1. simpl in T1. apply app_inv_head in T1. subst seen1.
      by exists (rest ++ seen2). }
    split.
    { apply Forall_app. split; [done|].
      eapply Forall_impl; [exact F2|]. intros m (k & Hk & Hk'). exists k.
      split; [done|]. congruence. }
    split; [rewrite Hpy'; simpl; by rewrite P2, P1|].
    split; [rewrite Hcl'; simpl; by rewrite L2, L1|].
    split; [rewrite Hcalls'; simpl; rewrite C2, C1, <- app_assoc; done|].
    split; [done|]. unfold final. by destruct (snd usr).
Qed.

Lemma initializePyodide_boots (E : Env) (w : World) :
  pyodide w = false ->
  env_loadPyodide E (calls w) = None ->
  exists wi,
    initializePyodide E w = (Ok tt, wi) /\
    pyodide wi = true /\
    calls wi = calls w ++ [CLoadPyodide] /\
    cells wi = ∅ /\
    outbox wi = outbox w /\
    timeline wi = timeline w ++ [∅] /\
    closed wi = closed w.
Proof.
  intros Hpy Hload. unfold initializePyodide, tick. run. rewrite Hpy. simpl.
  rewrite Hload. simpl. eexists. split; [reflexivity|]. by simpl.
Qed.

Lemma initializePyodide_fails (E : Env) (w : World) (e : string) :
  pyodide w = false ->
  env_loadPyodide E (calls w) = Some e ->
  exists wi,
    initializePyodide E w = (Throw e, wi) /\
    pyodide wi = false /\
    cells wi = ∅ /\
    outbox wi = outbox w /\
    timeline wi = timeline w ++ [∅] /\
    closed wi = closed w.
Proof.
  intros Hpy Hload. unfold initializePyodide, tick. run. rewrite Hpy. simpl.
  rewrite Hload. simpl. eexists. split; [reflexivity|]. by simpl.
Qed.

Lemma initializePyodide_idle (E : Env) (w : World) :
  pyodide w = true -> initializePyodide E w = (Ok tt, w).
Proof. intros Hpy. unfold initializePyodide. run. by rewrite Hpy. Qed.

Lemma executeCode_after_boot (E : Env) (id code : string) (w wi : World) :
  pyodide w = false ->
  initializePyodide E w = (Ok tt, wi) ->
  pyodide wi = true ->
  executeCode E id code w = executeCode E id code wi.
Proof.
  intros Hpy Hinit Hpi. unfold executeCode.
  unfold bind at 1, get at 1. simpl. rewrite Hpy.
  unfold bind at 1. rewrite Hinit.
  symmetry. unfold bind at 1, get at 1. simpl. rewrite Hpi. reflexivity.
Qed.

Lemma executeCode_boot_fails (E : Env) (id code : string) (w wi : World) (e : string) :
  pyodide w = false ->
  initializePyodide E w = (Throw e, wi) ->
  executeCode E id code w = (Throw e, wi).
Proof.
  intros Hpy Hinit. unfold executeCode.
  unfold bind at 1, get at 1. simpl. rewrite Hpy.
  unfold bind at 1. by rewrite Hinit.
Qed.

(** What [executeCode] does with a fault and with a value that can be
    cloned, for every call that has a runtime (the worker is
    initialised, or [loadPyodide] resolves now) and runs from its start
    to its settlement: the call resolves. If resolving the imports or
    running the code raises a fault, the cell ends with status [error]
    and its stderr is the text streamed so far followed by a newline and
    the description of the fault; if the code runs to a value that can be
    cloned, the cell ends with status [completed] and that value as
    result. In both cases the messages posted during the call end with
    one [result] message that carries the final cell. *)
Lemma executeCode_reports_clonable_outcome (E : Env) (id code : string) (w : World) :
  pyodide w = true \/ env_loadPyodide E (calls w) = None ->
  let h := if pyodide w then calls w else calls w ++ [CLoadPyodide] in
  let imp := env_imports E h code in
  let usr := env_user_code E (h ++ [CLoadPackagesFromImports code]) code in
  (forall v, snd imp = None -> snd usr = Ok v -> Js.clonable v = true) ->
  exists (w' : World) (c : Cell.CellState) (posted : list Msg.Message),
    executeCode E id code w = (Ok tt, w') /\
    cells w' !! id = Some c /\
    Cell.id c = id /\
    outbox w' = outbox w ++ posted ++ [Msg.result id (Some c)] /\
    Forall (fun m => Msg.is_result m = false) posted /\
    match snd imp, snd usr with
    | Some e, _ =>
        Cell.status c = Cell.error /\
        Cell.stderr c = stderr_text (streamed (fst imp)) +:+ newline +:+ e
    | None, Throw e =>
        Cell.status c = Cell.error /\
        Cell.stderr c =
          stderr_text (streamed (fst imp) ++ fst usr) +:+ newline +:+ e
    | None, Ok v =>
        Cell.status c = Cell.completed /\
        Cell.result c = v /\
        Cell.stdout c = stdout_text (streamed (fst imp) ++ fst usr) /\
        Cell.stderr c = stderr_text (streamed (fst imp) ++ fst usr)
    end.
Proof.
  intros Hrt h imp usr Hclone.
  assert (exists wi, executeCode E id code w = executeCode E id code wi /\
                     pyodide wi = true /\ calls wi = h /\ outbox wi = outbox w)
    as (wi & Heq & Hpi & Hcalls & Hbox).
  { destruct (pyodide w) eqn:Hpy.
    - by exists w.
    - destruct Hrt as [?|Hload]; [done|].
      destruct (initializePyodide_boots E w Hpy Hload)
        as (wi & Hinit & Hpi & Hc & _ & Hb & _).
      exists wi. split; [by apply executeCode_after_boot|done]. }
  destruct (executeCode_initialized E id code wi Hpi)
    as (w' & final & posted & seen & Hrun & Hcells & Hout & Hposted
        & _ & _ & _ & _ & _ & _ & _ & Hfinal).
  rewrite Hcalls in Hfinal. fold imp usr in Hfinal.
  assert (Js.clonable (Cell.result final) = true) as Hcl.
  { rewrite Hfinal. destruct (snd imp) as [e|] eqn:Hi; [by rewrite failed_cell_result|].
    destruct (snd usr) as [v|e] eqn:Hu.
    - rewrite completed_cell_result. by apply Hclone.
    - by rewrite failed_cell_result. }
  rewrite Hcl in Hrun, Hout.
  exists w', final, posted.
  split; [congruence|]. split; [rewrite Hcells; apply lookup_insert_eq|].
  assert (forall l, Cell.id (stream_into (fresh_cell id) l) = id
                    /\ Cell.result (stream_into (fresh_cell id) l) = Js.JsNull
                    /\ Cell.stdout (stream_into (fresh_cell id) l) = stdout_text l
                    /\ Cell.stderr (stream_into (fresh_cell id) l) = stderr_text l)
    as Hfields.
  { intros l. destruct (stream_into_fields (fresh_cell id) l) as (H1 & _ & H3 & H4 & H5).
    by rewrite H1, H3, H4, H5. }
  split; [|split; [congruence|split; [done|]]].
  - rewrite Hfinal. destruct (snd imp); [apply Hfields|].
    destruct (snd usr); apply Hfields.
  - rewrite Hfinal. destruct (snd imp) as [e|].
    + split; [done|]. simpl. destruct (Hfields (streamed (fst imp))) as (_ & _ & _ & ->).
      done.
    + destruct (snd usr) as [v|e].
      * destruct (Hfields (streamed (fst imp) ++ fst usr)) as (_ & _ & Ho & He). done.
      * split; [done|]. simpl.
        destruct (Hfields (streamed (fst imp) ++ fst usr)) as (_ & _ & _ & ->). done.
Qed.

(** C5, evaluated on the code. When the code of a cell runs to a value
    that is not a JavaScript primitive, a list for example, the value is
    a proxy that [postMessage] cannot clone. On an initialised worker,
    for a call that runs from its start to its settlement with no other
    code of the worker in between, the cell is then set to [completed]
    with that value, but the [postMessage] of the [finally] throws: no
    [result] message is posted for the execution, and [executeCode]
    rejects with the [DataCloneError]. *)
Theorem executeCode_drops_result_it_cannot_clone
    (E : Env) (id code : string) (w : World) (v : Js.JsValue) :
  pyodide w = true ->
  snd (env_imports E (calls w) code) = None ->
  snd (env_user_code E (calls w ++ [CLoadPackagesFromImports code]) code) = Ok v ->
  Js.clonable v = false ->
  exists (w' : World) (c : Cell.CellState) (posted : list Msg.Message),
    executeCode E id code w
      = (Throw "DataCloneError: The object could not be cloned.", w') /\
    cells w' !! id = Some c /\
    Cell.status c = Cell.completed /\
    Cell.result c = v /\
    outbox w' = outbox w ++ posted /\
    Forall (fun m => Msg.is_result m = false) posted.
Proof.
  intros Hpy Himp Husr Hv.
  destruct (executeCode_initialized E id code w Hpy)
    as (w' & final & posted & seen & Hrun & Hcells & Hout & Hposted
        & _ & _ & _ & _ & _ & _ & _ & Hfinal).
  simpl in Hfinal. rewrite Himp, Husr in Hfinal.
  assert (Js.clonable (Cell.result final) = false) as Hcl
    by (by rewrite Hfinal, completed_cell_result).
  rewrite Hcl in Hrun, Hout. rewrite app_nil_r in Hout.
  exists w', final, posted.
  split; [exact Hrun|]. split; [rewrite Hcells; apply lookup_insert_eq|].
  split; [by rewrite Hfinal|]. split; [by rewrite Hfinal|]. done.
Qed.

Lemma executeCode_drops_result_it_cannot_clone_witness :
  exists (w' : World) (c : Cell.CellState),
    executeCode MoreExamples.listing "c1" "[1, 2]" MoreExamples.booted
      = (Throw "DataCloneError: The object could not be cloned.", w') /\
    cells w' !! "c1" = Some c /\
    Cell.status c = Cell.completed /\
    Cell.result c = Js.JsProxy "[1, 2]" /\
    outbox w' = [].
Proof.
  destruct (executeCode_drops_result_it_cannot_clone MoreExamples.listing "c1" "[1, 2]"
              MoreExamples.booted (Js.JsProxy "[1, 2]"))
    as (w' & c & posted & Hrun & Hc & Hs & Hr & Hout & _); [reflexivity..|].
  exists w', c. repeat (split; [done|]).
  injection Hrun as <-. vm_compute. reflexivity.
Defined.

End ExecFacts.

(** ** The worker as the event loop runs it *)

Module AsyncFacts.
Import Rt Worker Async.

(** *** From the stretches of a function to the schedules of the worker *)

Section Obeying.
Context (R : World -> World -> Prop).

Lemma obeys_and_then {A B} (t : Routine A) (k : Res A -> Routine B) :
  Obeys R t -> (forall r, Obeys R (k r)) -> Obeys R (and_then t k).
Proof.
  intros Ht. revert B k.
  induction Ht as [A r|A X m k' Hm _ IH|A k' _ IH|A b k' Hb _ _ IH];
    intros B k Hk; simpl.
  - apply Hk.
  - constructor; [exact Hm|]. intros r. by apply IH.
  - constructor. by apply IH.
  - constructor; [exact Hb|]. by apply IH.
Qed.

Lemma obeys_done {A} (a : A) : Obeys R (done a).
Proof. constructor. Qed.

Lemma obeys_fail {A} (e : string) : Obeys R (@fail A e).
Proof. constructor. Qed.

Lemma obeys_now {A} (m : M World A) : respects R m -> Obeys R (now m).
Proof. intros Hm. constructor; [exact Hm|]. intros r. constructor. Qed.

Lemma obeys_awaited {A} (t : Routine A) : Obeys R t -> Obeys R (await t).
Proof.
  intros Ht. apply obeys_and_then; [exact Ht|]. intros r. repeat constructor.
Qed.

Lemma obeys_then_do {A B} (t : Routine A) (k : A -> Routine B) :
  Obeys R t -> (forall a, Obeys R (k a)) -> Obeys R (then_do t k).
Proof.
  intros Ht Hk. apply obeys_and_then; [exact Ht|]. intros [a|e]; [apply Hk|constructor].
Qed.

Lemma obeys_try_catch_do {A} (t : Routine A) (h : string -> Routine A) :
  Obeys R t -> (forall e, Obeys R (h e)) -> Obeys R (try_catch_do t h).
Proof.
  intros Ht Hh. apply obeys_and_then; [exact Ht|]. intros [a|e]; [constructor|apply Hh].
Qed.

Lemma obeys_try_finally_do {A} (t : Routine A) (f : Routine unit) :
  Obeys R t -> Obeys R f -> Obeys R (try_finally_do t f).
Proof.
  intros Ht Hf. apply obeys_and_then; [exact Ht|]. intros r.
  apply obeys_and_then; [exact Hf|]. intros [a|e]; constructor.
Qed.

Lemma obeys_each {A B} (pieces : list A) (body : A -> M World unit) (k : Routine B) :
  (forall a, respects R (body a)) -> Obeys R k -> Obeys R (each pieces body k).
Proof.
  intros Hb Hk. induction pieces as [|a pieces IH]; simpl; [exact Hk|].
  constructor; [apply Hb|]. intros [u|e]; constructor. exact IH.
Qed.

Lemma obeys_unsettled {A} (t : Routine A) :
  Obeys R t -> Forall (fun t' => Obeys R t') (unsettled t).
Proof.
  intros Ht. destruct t; simpl; repeat first [apply Forall_nil_2|apply Forall_cons_2|done].
Qed.

Lemma end_of_app (w : World) (l1 l2 : list World) :
  end_of w (l1 ++ l2) = end_of (end_of w l1) l2.
Proof. revert w. induction l1 as [|w1 l1 IH]; intros w; simpl; [done|apply IH]. Qed.

Lemma chain_app (w : World) (l1 l2 : list World) :
  chain R w (l1 ++ l2) <-> chain R w l1 /\ chain R (end_of w l1) l2.
Proof.
  revert w. induction l1 as [|w1 l1 IH]; intros w; simpl; [tauto|].
  rewrite IH. tauto.
Qed.

(** One turn of a function whose stretches obey [R]: the worlds seen are
    related one to the next, the turn ends in the last of them, and what
    is left of the function and of the functions it started obeys [R]. *)
Lemma advance_obeys {A} (t : Routine A) :
  Obeys R t ->
  forall w,
    chain R w (seen (advance t w)) /\
    after (advance t w) = end_of w (seen (advance t w)) /\
    Obeys R (rest (advance t w)) /\
    Forall (fun t' => Obeys R t') (spawned (advance t w)).
Proof.
  induction 1 as [A r|A X m k Hm Hk IH|A k Hk _|A b k Hb IHb Hk IHk]; intros w; simpl.
  - repeat split; constructor.
  - destruct (IH (fst (m w)) (snd (m w))) as (H1 & H2 & H3 & H4).
    repeat split; first [done|apply Hm].
  - repeat split; [done|constructor].
  - destruct (IHb w) as (B1 & B2 & B3 & B4).
    destruct (IHk (after (advance b w))) as (K1 & K2 & K3 & K4).
    split; [|split; [|split]].
    + apply chain_app. split; [exact B1|]. by rewrite <- B2.
    + by rewrite end_of_app, <- B2.
    + exact K3.
    + apply Forall_app. split; [exact B4|].
      apply Forall_app. split; [by apply obeys_unsettled|exact K4].
Qed.

Context (E : Env).
Context (output : list Call -> list OutChunk).
Context (receiver : list Call -> option string).

Lemma turn_obeys (c : Choice) (cfg : Config) :
  (forall m, c = Dispatch m -> Obeys R (onmessage E output receiver m)) ->
  Forall (fun t => Obeys R t) (pending cfg) ->
  chain R (world cfg) (snd (turn E output receiver c cfg)) /\
  world (fst (turn E output receiver c cfg))
    = end_of (world cfg) (snd (turn E output receiver c cfg)) /\
  Forall (fun t => Obeys R t) (pending (fst (turn E output receiver c cfg))).
Proof.
  intros Hm Hp. unfold turn. destruct (closed (world cfg)); [done|].
  destruct c as [m|i].
  - destruct (advance_obeys _ (Hm m eq_refl) (world cfg)) as (H1 & H2 & H3 & H4).
    simpl. repeat split; try done.
    apply Forall_app. split; [by apply obeys_unsettled|].
    apply Forall_app. split; [exact Hp|exact H4].
  - destruct (pending cfg !! i) as [t|] eqn:Hi; [|done].
    assert (Obeys R t) as Ht.
    { by eapply (Forall_lookup_1 _ _ _ _ Hp). }
    destruct (advance_obeys _ Ht (world cfg)) as (H1 & H2 & H3 & H4).
    simpl. repeat split; try done.
    apply Forall_app. split; [by apply obeys_unsettled|].
    apply Forall_app. split; [by apply Forall_delete|exact H4].
Qed.

(** Along a schedule, the worlds seen are related one to the next, when
    the stretches of the handlers of its requests obey [R] and so do
    those of the functions that are suspended at its start. *)
Lemma schedule_obeys (cs : list Choice) (cfg : Config) :
  (forall m, Dispatch m ∈ cs -> Obeys R (onmessage E output receiver m)) ->
  Forall (fun t => Obeys R t) (pending cfg) ->
  chain R (world cfg) (snd (schedule E output receiver cs cfg)) /\
  world (fst (schedule E output receiver cs cfg))
    = end_of (world cfg) (snd (schedule E output receiver cs cfg)).
Proof.
  revert cfg. induction cs as [|c cs IH]; intros cfg Hm Hp; simpl; [done|].
  destruct (turn_obeys c cfg) as (T1 & T2 & T3); [|exact Hp|].
  { intros m ->. apply Hm. by left. }
  destruct (IH (fst (turn E output receiver c cfg))) as (S1 & S2); [|exact T3|].
  { intros m Hin. apply Hm. by right. }
  split.
  - apply chain_app. split; [exact T1|]. by rewrite <- T2.
  - by rewrite end_of_app, <- T2.
Qed.

End Obeying.

(** Two neighbours of a chain are related. *)
Lemma chain_lookup (R : World -> World -> Prop) (w : World) (l : list World)
    (i : nat) (w1 w2 : World) :
  chain R w l ->
  (w :: l) !! i = Some w1 ->
  (w :: l) !! S i = Some w2 ->
  R w1 w2.
Proof.
  revert w i. induction l as [|w' l IH]; intros w i Hc H1 H2.
  - by destruct i.
  - destruct Hc as [Hr Hc]. destruct i as [|i].
    + simpl in H1, H2. congruence.
    + by apply (IH w' i).
Qed.

(** What holds of the first world and is kept from each world to the
    next holds of all. *)
Lemma chain_invariant (R : World -> World -> Prop) (P : World -> Prop)
    (w : World) (l : list World) :
  (forall w1 w2, R w1 w2 -> P w1 -> P w2) ->
  chain R w l -> P w -> Forall P (w :: l).
Proof.
  intros Hstep. revert w. induction l as [|w' l IH]; intros w Hc Hw.
  - by constructor.
  - destruct Hc as [Hr Hc]. constructor; [exact Hw|]. apply IH; [exact Hc|].
    by apply (Hstep w).
Qed.

(** Along a chain of a relation that composes, the last world is related
    to the first. *)
Lemma chain_end (R : World -> World -> Prop) `{!Steps R} (w : World) (l : list World) :
  chain R w l -> R w (end_of w l).
Proof.
  revert w. induction l as [|w' l IH]; intros w Hc; simpl; [apply R_refl|].
  destruct Hc as [Hr Hc]. eapply R_trans; [exact Hr|by apply IH].
Qed.

Lemma obeys_weaken (R R' : World -> World -> Prop) {A} (t : Routine A) :
  (forall w w', R w w' -> R' w w') -> Obeys R t -> Obeys R' t.
Proof.
  intros HR. induction 1; constructor; try done.
  intros w. by apply HR.
Qed.

(** Unfold a function along its structure, leaving its stretches. *)
#[local] Ltac obeys_step :=
  lazymatch goal with
  | |- Obeys _ (then_do _ _) => apply obeys_then_do; [|intros ?]
  | |- Obeys _ (try_catch_do _ _) => apply obeys_try_catch_do; [|intros ?]
  | |- Obeys _ (try_finally_do _ _) => apply obeys_try_finally_do
  | |- Obeys _ (await _) => apply obeys_awaited
  | |- Obeys _ (now _) => apply obeys_now
  | |- Obeys _ (done _) => apply obeys_done
  | |- Obeys _ (fail _) => apply obeys_fail
  | |- Obeys _ (each _ _ _) => apply obeys_each; [intros ?|]
  | |- Obeys _ (Settled _) => constructor
  | |- Obeys _ (Await _) => constructor
  | |- Obeys _ (Spawn _ _) => constructor
  | |- Obeys _ (Stretch _ _) => constructor; [|intros ?]
  | |- Obeys _ (match ?x with _ => _ end) => destruct x
  | |- Obeys _ (let _ := _ in _) => cbv zeta
  end.

(** *** The steps that decide nothing *)

Lemma same_verdict_refl (c : Cell.CellState) : same_verdict c c.
Proof. by repeat split. Qed.

Lemma same_verdict_trans (c1 c2 c3 : Cell.CellState) :
  same_verdict c1 c2 -> same_verdict c2 c3 -> same_verdict c1 c3.
Proof. intros (A1 & A2 & A3) (B1 & B2 & B3). repeat split; congruence. Qed.

Lemma kept_same_cells (id : string) (w w' : World) :
  cells w' !! id = cells w !! id -> kept id w w'.
Proof.
  intros Hc. unfold kept. rewrite Hc.
  destruct (cells w !! id); constructor. apply same_verdict_refl.
Qed.

#[local] Instance kept_steps (id : string) : Steps (kept id).
Proof.
  split.
  - intros w. by apply kept_same_cells.
  - intros w1 w2 w3. unfold kept. intros H12 H23.
    destruct H12 as [c1 c2 H12|]; inversion H23 as [c2' c3 H23' Heq|]; subst;
      constructor. by eapply same_verdict_trans.
Qed.

#[local] Instance same_runtime_steps : Steps same_runtime.
Proof.
  split.
  - intros w. by repeat split.
  - intros w1 w2 w3 (A1 & A2 & A3) (B1 & B2 & B3). repeat split; congruence.
Qed.

#[local] Instance aside_steps (id : string) : Steps (aside id).
Proof.
  split.
  - intros w. split; apply R_refl.
  - intros w1 w2 w3 [A1 A2] [B1 B2]. split; eapply R_trans; eauto.
Qed.

Lemma aside_same (id : string) (w w' : World) :
  cells w' = cells w ->
  pyodide w' = pyodide w ->
  background_preloads w' = background_preloads w ->
  closed w' = closed w ->
  aside id w w'.
Proof.
  intros Hc Hp Hb Hcl. split; [apply kept_same_cells; by rewrite Hc|by repeat split].
Qed.

Create HintDb aside.

#[local] Ltac aside_frame := intros ?; apply aside_same; reflexivity.

#[local] Ltac aside_auto :=
  repeat first
    [ respects_step
    | apply respects_modify; aside_frame
    | solve [eauto with aside] ].

Lemma aside_record (id : string) (c : Call) : respects (aside id) (record c).
Proof. unfold record. aside_auto. Qed.
#[local] Hint Resolve aside_record : aside.

Lemma aside_tick (id : string) : respects (aside id) tick.
Proof. unfold tick. aside_auto. Qed.
#[local] Hint Resolve aside_tick : aside.

Lemma aside_postMessage (id : string) (m : Msg.Message) :
  respects (aside id) (postMessage m).
Proof. unfold postMessage. aside_auto. Qed.
#[local] Hint Resolve aside_postMessage : aside.

Lemma aside_date_now (id : string) (E : Env) : respects (aside id) (date_now E).
Proof. unfold date_now. aside_auto. Qed.
#[local] Hint Resolve aside_date_now : aside.

Lemma aside_fetch_package_list (id : string) (E : Env) :
  respects (aside id) (fetch_package_list E).
Proof. unfold fetch_package_list. aside_auto. Qed.
#[local] Hint Resolve aside_fetch_package_list : aside.

Lemma aside_cached_list (id : string) (E : Env) : respects (aside id) (cached_list E).
Proof. unfold cached_list. aside_auto. Qed.
#[local] Hint Resolve aside_cached_list : aside.

Lemma aside_runPythonAsync (id : string) (E : Env) (s : PyScript) :
  respects (aside id) (runPythonAsync E s).
Proof. unfold runPythonAsync. aside_auto. Qed.
#[local] Hint Resolve aside_runPythonAsync : aside.

Lemma aside_pyimport (id : string) (E : Env) (n : string) :
  respects (aside id) (pyimport E n).
Proof. unfold pyimport. aside_auto. Qed.
#[local] Hint Resolve aside_pyimport : aside.

Lemma aside_micropip_install (id : string) (E : Env) (names : list string) :
  respects (aside id) (micropip_install E names).
Proof. unfold micropip_install. aside_auto. Qed.
#[local] Hint Resolve aside_micropip_install : aside.

Lemma aside_cachePackageWheel (id : string) (E : Env) (n u : string) (d : list Byte.byte) :
  respects (aside id) (Loader.cachePackageWheel E n u d).
Proof.
  unfold Loader.cachePackageWheel, Loader.open_or_log, Loader.initPackageDatabase.
  aside_auto.
Qed.
#[local] Hint Resolve aside_cachePackageWheel : aside.

Lemma aside_through_fetch (id : string) (E : Env) (f : FetchFn) (d : Download) :
  respects (aside id) (Loader.through_fetch E f d).
Proof. induction f as [|f IH|f IH]; simpl; aside_auto. Qed.
#[local] Hint Resolve aside_through_fetch : aside.

Lemma aside_native_loadPackage (id : string) (E : Env) (ambient : World -> FetchFn)
    (names : list string) :
  respects (aside id) (Loader.native_loadPackage E ambient names).
Proof. unfold Loader.native_loadPackage. aside_auto. Qed.
#[local] Hint Resolve aside_native_loadPackage : aside.

(** A write to a field of a record that is not its id, status or result
    decides nothing. *)
Lemma aside_modify_cell (id j : string) (f : Cell.CellState -> Cell.CellState) :
  (forall c, same_verdict c (f c)) -> respects (aside id) (modify_cell j f).
Proof.
  intros Hf w. unfold modify_cell, bind, get.
  destruct (cells w !! j) as [c|] eqn:Hj; simpl; [|apply R_refl].
  split; [|by repeat split]. unfold kept. simpl. destruct (decide (id = j)) as [->|Hne].
  - rewrite lookup_insert_eq, Hj. constructor. apply Hf.
  - rewrite lookup_insert_ne by done. destruct (cells w !! id); constructor.
    apply same_verdict_refl.
Qed.

Lemma aside_append_stdout (id j msg : string) :
  respects (aside id) (modify_cell j (Cell.append_stdout msg)).
Proof. apply aside_modify_cell. intros c. by repeat split. Qed.
#[local] Hint Resolve aside_append_stdout : aside.

Lemma aside_append_stderr (id j msg : string) :
  respects (aside id) (modify_cell j (Cell.append_stderr msg)).
Proof. apply aside_modify_cell. intros c. by repeat split. Qed.
#[local] Hint Resolve aside_append_stderr : aside.

Lemma aside_worker_deliver (id : string) (c : OutChunk) :
  respects (aside id) (Worker.deliver c).
Proof. unfold Worker.deliver. aside_auto. Qed.
#[local] Hint Resolve aside_worker_deliver : aside.

Lemma aside_batched (id j : string) (c : OutChunk) : respects (aside id) (batched j c).
Proof. unfold batched. aside_auto. Qed.
#[local] Hint Resolve aside_batched : aside.

Lemma aside_deliver (id : string) (receiver : list Call -> option string) (c : OutChunk) :
  respects (aside id) (deliver receiver c).
Proof. unfold deliver. aside_auto. Qed.
#[local] Hint Resolve aside_deliver : aside.

Lemma aside_note (id : string) (receiver : list Call -> option string)
    (j : string) (n : LoadNote) :
  respects (aside id) (note receiver j n).
Proof. unfold note. aside_auto. Qed.
#[local] Hint Resolve aside_note : aside.

(** *** The stretches of the handlers *)

(** A relation holds of every stretch of the handlers, and of the
    functions the handlers start, when it holds of the steps that decide
    nothing and of five stretches: the one that tests [self.pyodide],
    resets the globals and calls [loadPyodide]; the one that sets
    [self.pyodide]; the one that creates the record of a cell and
    installs its handlers; the one that writes the verdict of an
    execution, be it the result or the error; and [terminate]. Of the
    third and the fourth it need only hold for the ids under which code
    is executed. *)
Section Shape.
Context (E : Env).
Context (output : list Call -> list OutChunk).
Context (receiver : list Call -> option string).
Context (id : string).
Context (R : World -> World -> Prop).
Context (executed : string -> Prop).
Context (R_aside : forall w w', aside id w w' -> R w w').
Context (R_start_loading :
  respects R
    (w <- get ;;
     if pyodide w then ret None
     else
       modify (upd_cells (fun _ => ∅)) ;;;
       modify (set_packagesLoaded false) ;;;
       r <- ask (env_loadPyodide E) ;;
       record CLoadPyodide ;;;
       ret (Some r))).
Context (R_runtime_loaded : forall r,
  respects R
    (settle r ;;;
     modify (set_pyodide true) ;;;
     modify (set_stdout_handler None) ;;;
     modify (set_stderr_handler None) ;;;
     modify (upd_background_preloads S))).
Context (R_fresh : forall j,
  executed j ->
  respects R
    (modify (upd_cells (fun m =>
               <[j := Cell.mkCellState j Cell.running Js.JsNull "" ""]> m)) ;;;
     modify (set_stdout_handler (Some j)) ;;;
     modify (set_stderr_handler (Some j)))).
Context (R_verdict : forall j (f g : Cell.CellState -> Cell.CellState),
  executed j ->
  (forall c, Cell.id (g (f c)) = Cell.id c) ->
  (forall c, Cell.is_terminal (Cell.status (g (f c))) = true) ->
  respects R (modify_cell j f ;;; modify_cell j g)).
Context (R_terminate :
  respects R (modify (upd_cells (fun _ => ∅)) ;;; modify (set_closed true))).

Lemma of_aside {A} (m : M World A) : respects (aside id) m -> respects R m.
Proof. intros H w. apply R_aside, H. Qed.

#[local] Ltac shape_auto :=
  repeat first
    [ obeys_step
    | apply of_aside; aside_auto; fail ].

Lemma await_runtime_obeys {A} (call : M World A) :
  respects (aside id) call -> Obeys R (await_runtime output receiver call).
Proof. intros Hc. unfold await_runtime. pose proof (of_aside call Hc). shape_auto. Qed.

Lemma fetchPyodidePackages_obeys : Obeys R (fetchPyodidePackages E).
Proof. unfold fetchPyodidePackages. shape_auto. Qed.

Lemma install_batches_obeys (fuel i : nat) (l : list string) :
  Obeys R (install_batches E output receiver fuel i l).
Proof.
  revert i. induction fuel as [|fuel IH]; intros i; simpl.
  - shape_auto.
  - destruct (i <? length l); [|shape_auto].
    apply obeys_then_do; [|intros _; apply IH].
    apply await_runtime_obeys. aside_auto.
Qed.

Lemma preloadPackages_obeys : Obeys R (preloadPackages E output receiver).
Proof.
  unfold preloadPackages.
  repeat first
    [ apply fetchPyodidePackages_obeys
    | apply install_batches_obeys
    | apply await_runtime_obeys; aside_auto; fail
    | obeys_step
    | apply of_aside; aside_auto; fail ].
Qed.

Lemma initializePyodide_obeys : Obeys R (initializePyodide E output receiver).
Proof.
  unfold initializePyodide.
  apply obeys_then_do; [apply obeys_now, R_start_loading|].
  intros [r|]; [|apply obeys_done].
  constructor. apply obeys_then_do; [apply obeys_now, R_runtime_loaded|]. intros _.
  constructor; [apply preloadPackages_obeys|apply obeys_done].
Qed.

Lemma loadPackagesFromImports_obeys (j code : string) :
  Obeys R (loadPackagesFromImports E receiver j code).
Proof. unfold loadPackagesFromImports. shape_auto. Qed.

Lemma runUserCode_obeys (code : string) : Obeys R (runUserCode E receiver code).
Proof. unfold runUserCode. shape_auto. Qed.

Lemma executeCode_obeys (j code : string) :
  executed j -> Obeys R (executeCode E output receiver j code).
Proof.
  intros Hj. unfold executeCode.
  apply obeys_then_do; [apply obeys_now, of_aside; aside_auto|]. intros w.
  apply obeys_then_do.
  { destruct (pyodide w); [apply obeys_done|apply obeys_awaited, initializePyodide_obeys]. }
  intros _. apply obeys_then_do; [by apply obeys_now, R_fresh|]. intros _.
  apply obeys_try_finally_do; [|apply obeys_now, of_aside; aside_auto].
  apply obeys_try_catch_do.
  - apply obeys_then_do; [apply loadPackagesFromImports_obeys|]. intros _.
    apply obeys_then_do; [apply runUserCode_obeys|]. intros result.
    apply obeys_now, R_verdict; done.
  - intros e. apply obeys_now, R_verdict; done.
Qed.

Lemma onmessage_obeys (m : Msg.Request) :
  (forall j code, m = Msg.execute (Some j) code -> executed j) ->
  Obeys R (onmessage E output receiver m).
Proof.
  intros Hm. destruct m as [|j code| | |type]; simpl.
  - apply obeys_then_do; [apply obeys_awaited, initializePyodide_obeys|]. intros _.
    apply obeys_now, of_aside. aside_auto.
  - destruct j as [j|]; [|apply obeys_done].
    destruct (present (Some j) && present code); [|apply obeys_done].
    apply obeys_awaited, executeCode_obeys. by eapply Hm.
  - apply obeys_now, of_aside. aside_auto.
  - apply obeys_now, R_terminate.
  - apply obeys_done.
Qed.

End Shape.

(** *** The record of a cell *)

(** Every stretch of every handler, and of the functions the handlers
    start, does to the record of a cell one of the four things of
    [life_step]. *)
Lemma life_onmessage (E : Env) (output : list Call -> list OutChunk)
    (receiver : list Call -> option string) (id : string) (m : Msg.Request) :
  Obeys (life_step id) (onmessage E output receiver m).
Proof.
  apply (onmessage_obeys E output receiver id _ (fun _ => True)); [| | | | | |done].
  - intros w w' [Hk _]. by apply record_kept.
  - intros w. unfold bind at 1, get at 1.
    destruct (pyodide w) eqn:Hpy.
    + apply record_kept, R_refl.
    + apply record_removed; [apply lookup_empty|by right].
  - intros r w. apply record_kept.
    destruct r; simpl; apply kept_same_cells; reflexivity.
  - intros j _ w. simpl. destruct (decide (id = j)) as [->|Hne].
    + apply record_fresh. simpl. apply lookup_insert_eq.
    + apply record_kept, kept_same_cells. simpl. by rewrite lookup_insert_ne.
  - intros j f g _ Hid Hterminal w. unfold modify_cell, bind, get.
    destruct (cells w !! j) as [c|] eqn:Hj; simpl; [|apply record_kept, R_refl].
    rewrite lookup_insert_eq. simpl. destruct (decide (id = j)) as [->|Hne].
    + apply (record_settled _ _ _ c (g (f c))); simpl;
        [exact Hj|by rewrite lookup_insert_eq|apply Hid|apply Hterminal].
    + apply record_kept, kept_same_cells. simpl. by rewrite !lookup_insert_ne.
  - intros w. apply record_removed; [apply lookup_empty|by left].
Qed.

(** The stretches of a handler that does not execute code under the id,
    and of the functions it starts, keep the record or remove it. *)
Lemma no_verdict_onmessage (E : Env) (output : list Call -> list OutChunk)
    (receiver : list Call -> option string) (id : string) (m : Msg.Request) :
  executes id (Dispatch m) = false ->
  Obeys (no_verdict id) (onmessage E output receiver m).
Proof.
  intros Hm.
  apply (onmessage_obeys E output receiver id _ (fun j => j <> id)).
  - intros w w' [Hk _]. by left.
  - intros w. unfold bind at 1, get at 1.
    destruct (pyodide w) eqn:Hpy.
    + left. apply R_refl.
    + right. split; [apply lookup_empty|by right].
  - intros r w. left.
    destruct r; simpl; apply kept_same_cells; reflexivity.
  - intros j Hj w. left. apply kept_same_cells. simpl. by rewrite lookup_insert_ne.
  - intros j f g Hj _ _ w. left. unfold modify_cell, bind, get.
    destruct (cells w !! j) as [c|] eqn:Hc; simpl; [|apply R_refl].
    rewrite lookup_insert_eq. simpl.
    apply kept_same_cells. simpl. by rewrite !lookup_insert_ne.
  - intros w. right. split; [apply lookup_empty|by left].
  - intros j code ->. simpl in Hm. by apply bool_decide_eq_false in Hm.
Qed.

Lemma life_step_never_idle (id : string) (w w' : World) :
  life_step id w w' -> never_idle id w -> never_idle id w'.
Proof.
  intros [Hk|Hf|c c' Hc Hc' _ Ht|Hn _] Hw k Hk'.
  - unfold kept in Hk. rewrite Hk' in Hk. inversion Hk as [c0 k0 (_ & Hs & _) Hc0|]; subst.
    rewrite Hs. by apply Hw.
  - rewrite Hf in Hk'. by injection Hk' as <-.
  - rewrite Hc' in Hk'. injection Hk' as <-. by destruct (Cell.status c').
  - congruence.
Qed.

(** *** The runtime and its preload *)

#[local] Instance preload_counted_steps : Steps preload_counted.
Proof.
  split.
  - intros w. split; [done|lia|done|congruence].
  - intros w1 w2 w3 [A1 A2 A3 A4] [B1 B2 B3 B4]. split.
    + auto.
    + lia.
    + intros H3. destruct (pyodide w2) eqn:H2; [rewrite B1 in H3; done|].
      rewrite B3, A3; done.
    + intros H1 H3. destruct (pyodide w2) eqn:H2.
      * specialize (A4 H1 eq_refl). lia.
      * specialize (B4 eq_refl H3). lia.
Qed.

(** Every stretch of every handler, and of the functions the handlers
    start, sets the runtime only together with the start of a preload. *)
Lemma counted_onmessage (E : Env) (output : list Call -> list OutChunk)
    (receiver : list Call -> option string) (m : Msg.Request) :
  Obeys preload_counted (onmessage E output receiver m).
Proof.
  assert (forall w w', pyodide w' = pyodide w ->
                       background_preloads w' = background_preloads w ->
                       preload_counted w w') as Hsame.
  { intros w w' Hp Hb. split; intros; rewrite ?Hp, ?Hb in *; try done; try lia.
    congruence. }
  apply (onmessage_obeys E output receiver "" _ (fun _ => True)); [| | | | | |done].
  - intros w w' [_ (Hp & Hb & _)]. by apply Hsame.
  - intros w. unfold bind at 1, get at 1.
    destruct (pyodide w); by apply Hsame.
  - intros [e|] w; simpl; [apply R_refl|]. split; simpl; intros; try done; lia.
  - intros j _ w. by apply Hsame.
  - intros j f g _ _ _ w. unfold modify_cell, bind, get.
    destruct (cells w !! j) as [c|]; simpl; [|by apply Hsame].
    rewrite lookup_insert_eq. by apply Hsame.
  - intros w. by apply Hsame.
Qed.

(** *** A function run alone *)

Lemma lift_run {A} (r : Res A) (w : World) : lift r w = (r, w).
Proof. by destruct r. Qed.

Lemma flat_and_then {A B} (t : Routine A) (k : Res A -> Routine B) (w : World) :
  flat (and_then t k) w = flat (k (fst (flat t w))) (snd (flat t w)).
Proof.
  revert B k w.
  induction t as [A r|A X m k' IH|A t' IH|A b _ t' IH]; intros B k w; simpl.
  - by rewrite lift_run.
  - apply IH.
  - apply IH.
  - apply IH.
Qed.

Lemma flat_now {A} (m : M World A) (w : World) : flat (now m) w = m w.
Proof. simpl. rewrite lift_run. by destruct (m w). Qed.

Lemma flat_await {A} (t : Routine A) (w : World) : flat (await t) w = flat t w.
Proof.
  unfold await. rewrite flat_and_then. simpl. rewrite lift_run. by destruct (flat t w).
Qed.

Lemma flat_then_do {A B} (t : Routine A) (k : A -> Routine B) (w : World) :
  flat (then_do t k) w = bind (flat t) (fun a => flat (k a)) w.
Proof.
  unfold then_do, bind. rewrite flat_and_then.
  by destruct (flat t w) as [[a|e] w1].
Qed.

Lemma flat_try_catch_do {A} (t : Routine A) (h : string -> Routine A) (w : World) :
  flat (try_catch_do t h) w = try_catch (flat t) (fun e => flat (h e)) w.
Proof.
  unfold try_catch_do, try_catch. rewrite flat_and_then.
  by destruct (flat t w) as [[a|e] w1].
Qed.

Lemma flat_try_finally_do {A} (t : Routine A) (f : Routine unit) (w : World) :
  flat (try_finally_do t f) w = try_finally (flat t) (flat f) w.
Proof.
  unfold try_finally_do, try_finally. rewrite flat_and_then.
  destruct (flat t w) as [r w1]. simpl. rewrite flat_and_then.
  destruct (flat f w1) as [[[]|e] w2]; simpl; by rewrite ?lift_run.
Qed.

Lemma flat_each {A B} (pieces : list A) (body : A -> M World unit) (k : Routine B)
    (w : World) :
  flat (each pieces body k) w = bind (for_of pieces body) (fun _ => flat k) w.
Proof.
  revert w. induction pieces as [|a pieces IH]; intros w; simpl; [done|].
  unfold bind at 1 2. destruct (body a w) as [[[]|e] w1]; simpl; [apply IH|done].
Qed.

Lemma for_of_ext {A} (l : list A) (body body' : A -> M World unit) (w : World) :
  (forall a s, body a s = body' a s) -> for_of l body w = for_of l body' w.
Proof.
  intros Hb. revert w. induction l as [|a l IH]; intros w; simpl; [done|].
  unfold bind. rewrite Hb. destruct (body' a w) as [[[]|e] w1]; [apply IH|done].
Qed.

(** What a turn leaves of a function is run alone as the function is;
    and it has settled, or it takes one resumption less. *)
Lemma advance_flat {A} (t : Routine A) (w : World) :
  flat (rest (advance t w)) (after (advance t w)) = flat t w.
Proof.
  revert w. induction t as [A r|A X m k IH|A k _|A b _ k IH]; intros w; simpl;
    solve [done|apply IH].
Qed.

Lemma advance_resumes {A} (t : Routine A) (w : World) :
  (unsettled (rest (advance t w)) = [] /\ resumes t w = 0) \/
  (unsettled (rest (advance t w)) = [rest (advance t w)] /\
   resumes t w = S (resumes (rest (advance t w)) (after (advance t w)))).
Proof.
  revert w. induction t as [A r|A X m k IH|A k _|A b _ k IH]; intros w; simpl.
  - by left.
  - apply IH.
  - destruct k; [by left|by right..].
  - apply IH.
Qed.

Lemma settled_flat {A} (t : Routine A) (w : World) :
  unsettled t = [] -> snd (flat t w) = w.
Proof. destruct t; simpl; [|done..]. intros _. by rewrite lift_run. Qed.

#[local] Instance stays_open_steps : Steps stays_open.
Proof. split; unfold stays_open; [done|congruence]. Qed.

Section Alone.
Context (E : Env).
Context (output : list Call -> list OutChunk).
Context (receiver : list Call -> option string).

(** When the event loop resumes the function that ran last, and nothing
    else, as often as it takes, the worker ends in the world in which the
    function run alone ends. *)
Lemma resumed_alone (n : nat) :
  forall (t : Routine unit) (w : World) (others : list (Routine unit)),
    resumes t w = n ->
    closed w = false ->
    Obeys stays_open t ->
    world (fst (schedule E output receiver (replicate n (Resume 0))
                  (mkConfig (after (advance t w))
                     (unsettled (rest (advance t w)) ++ others))))
      = snd (flat t w).
Proof.
  induction n as [|n IH]; intros t w others Hn Hopen Ht.
  - simpl. destruct (advance_resumes t w) as [[Hs _]|[_ Hr]]; [|lia].
    rewrite <- (advance_flat t w). by rewrite settled_flat.
  - destruct (advance_resumes t w) as [[_ Hr]|[Hs Hr]]; [lia|].
    destruct (advance_obeys stays_open t Ht w) as (Hchain & Hafter & Hrest & _).
    apply chain_end in Hchain; [|apply stays_open_steps].
    rewrite <- Hafter in Hchain. unfold stays_open in Hchain.
    rewrite Hs. cbn [replicate schedule]. unfold turn at 1.
    cbn [world pending]. rewrite Hchain, Hopen. cbn [app lookup list_lookup fst snd].
    rewrite <- (advance_flat t w).
    apply (IH (rest (advance t w)) (after (advance t w))); [lia|congruence|exact Hrest].
Qed.

(** The same from the message on: the event loop hands the message to
    [onmessage] and resumes the handler until it has settled. *)
Lemma handled_alone (m : Msg.Request) (cfg : Config) :
  closed (world cfg) = false ->
  Obeys stays_open (onmessage E output receiver m) ->
  world (fst (schedule E output receiver
                (Dispatch m ::
                   replicate (resumes (onmessage E output receiver m) (world cfg)) (Resume 0))
                cfg))
    = snd (flat (onmessage E output receiver m) (world cfg)).
Proof.
  intros Hopen Hm. cbn [schedule]. unfold turn at 1. rewrite Hopen. cbn [fst snd].
  by apply resumed_alone.
Qed.

End Alone.

Lemma schedule_app (E : Env) (output : list Call -> list OutChunk)
    (receiver : list Call -> option string) (cs1 cs2 : list Choice) (cfg : Config) :
  fst (schedule E output receiver (cs1 ++ cs2) cfg)
    = fst (schedule E output receiver cs2 (fst (schedule E output receiver cs1 cfg))).
Proof.
  revert cfg. induction cs1 as [|c cs1 IH]; intros cfg; [done|].
  cbn [app schedule fst]. apply IH.
Qed.

(** The handlers other than [terminate], and the functions they start,
    do not close the worker. *)
Lemma open_onmessage (E : Env) (output : list Call -> list OutChunk)
    (receiver : list Call -> option string) (m : Msg.Request) :
  m <> Msg.terminate ->
  Obeys stays_open (onmessage E output receiver m).
Proof.
  intros Hm. destruct m as [|j code| | |type]; simpl; [| | |done|].
  - apply obeys_then_do; [apply obeys_awaited|intros _].
    + apply (initializePyodide_obeys E output receiver "").
      * intros w w' [_ (_ & _ & Hc)]. exact Hc.
      * intros w. unfold bind at 1, get at 1. by destruct (pyodide w).
      * intros [e|] w; done.
    + apply obeys_now. intros w. unfold postMessage. by destruct (Msg.clonable _).
  - destruct j as [j|]; [|apply obeys_done].
    destruct (present (Some j) && present code); [|apply obeys_done].
    apply obeys_awaited.
    apply (executeCode_obeys E output receiver "" _ (fun _ => True)); [| | | | |done].
    + intros w w' [_ (_ & _ & Hc)]. exact Hc.
    + intros w. unfold bind at 1, get at 1. by destruct (pyodide w).
    + intros [e|] w; done.
    + intros i _ w. done.
    + intros i f g _ _ _ w. unfold modify_cell, bind, get.
      destruct (cells w !! i) as [c|]; simpl; [|done]. by rewrite lookup_insert_eq.
  - apply obeys_now. intros w. unfold bind, get, postMessage. by destruct (Msg.clonable _).
  - apply obeys_done.
Qed.

Lemma flat_bind_result {A B} (m : M World A) (k : A -> Routine B) (w : World) :
  flat (then_do (now m) k) w = bind m (fun a => flat (k a)) w.
Proof. rewrite flat_then_do. unfold bind. by rewrite flat_now. Qed.

Lemma bind_cong {A B} (m : M World A) (k k' : A -> M World B) (w : World) :
  (forall a s, m w = (Ok a, s) -> k a s = k' a s) -> bind m k w = bind m k' w.
Proof. intros H. unfold bind. destruct (m w) as [[a|e] s]; [by apply H|done]. Qed.

Lemma try_catch_cong {A} (m m' : M World A) (h h' : string -> M World A) (w : World) :
  m w = m' w -> (forall e s, h e s = h' e s) -> try_catch m h w = try_catch m' h' w.
Proof.
  intros Hm Hh. unfold try_catch. rewrite Hm. by destruct (m' w) as [[a|e] s].
Qed.

Lemma try_finally_cong {A} (m m' : M World A) (f f' : M World unit) (w : World) :
  m w = m' w -> (forall s, f s = f' s) -> try_finally m f w = try_finally m' f' w.
Proof.
  intros Hm Hf. unfold try_finally. rewrite Hm. destruct (m' w) as [r s]. by rewrite Hf.
Qed.

Section Agreement.
Context (E : Env).
Context (output : list Call -> list OutChunk).
Context (receiver : list Call -> option string).
Context (current : forall h, receiver h = None).

Lemma deliver_current (c : OutChunk) (s : World) :
  deliver receiver c s = Worker.deliver c s.
Proof. unfold deliver. unfold bind at 1, get at 1. by rewrite current. Qed.

Lemma note_current (j : string) (n : LoadNote) (s : World) :
  note receiver j n s = Worker.note j n s.
Proof. destruct n; simpl; [apply deliver_current|done..]. Qed.

Lemma loadPackagesFromImports_alone (id code : string) (s : World) :
  flat (loadPackagesFromImports E receiver id code) s
    = Worker.loadPackagesFromImports E id code s.
Proof.
  unfold loadPackagesFromImports, Worker.loadPackagesFromImports.
  rewrite flat_bind_result. unfold bind, tick, ask, record, modify, ret. cbv beta iota.
  cbn [flat]. rewrite flat_each. unfold bind.
  rewrite (for_of_ext _ _ (Worker.note id)) by apply note_current.
  destruct (for_of _ _ _) as [[[]|e] s1]; [|done]. by rewrite flat_now.
Qed.

Lemma runUserCode_alone (code : string) (s : World) :
  flat (runUserCode E receiver code) s = Worker.runUserCode E code s.
Proof.
  unfold runUserCode, Worker.runUserCode.
  rewrite flat_bind_result. unfold bind, tick, ask, record, modify, ret. cbv beta iota.
  cbn [flat]. rewrite flat_each. unfold bind.
  rewrite (for_of_ext _ _ Worker.deliver) by apply deliver_current.
  destruct (for_of _ _ _) as [[[]|e] s1]; [|done]. by rewrite flat_now.
Qed.

(** On an initialised worker whose runtime has not been replaced,
    [executeCode] run alone is the function of module [Worker]. *)
Lemma executeCode_alone (id code : string) (w : World) :
  pyodide w = true ->
  flat (executeCode E output receiver id code) w = Worker.executeCode E id code w.
Proof.
  intros Hpy. unfold executeCode, Worker.executeCode.
  rewrite flat_bind_result. apply bind_cong. intros w0 s Hget.
  injection Hget as <- <-. rewrite Hpy.
  rewrite flat_then_do. apply bind_cong. intros _ s _.
  rewrite flat_then_do. unfold bind at 1. rewrite flat_now.
  rewrite <- !bind_assoc. apply bind_cong. intros _ s0 _.
  rewrite flat_try_finally_do. apply try_finally_cong; [|intros s1; apply flat_now].
  rewrite flat_try_catch_do. apply try_catch_cong; [|intros e s1; apply flat_now].
  rewrite flat_then_do. unfold bind at 1 3. rewrite loadPackagesFromImports_alone.
  destruct (Worker.loadPackagesFromImports E id code s0) as [[[]|e] s1]; [|done].
  rewrite flat_then_do. unfold bind at 1 3. rewrite runUserCode_alone.
  destruct (Worker.runUserCode E code s1) as [[v|e] s2]; [|done].
  apply flat_now.
Qed.

(** So is the handler of an [execute] request. *)
Lemma execute_alone (id code : string) (w : World) :
  pyodide w = true ->
  Js.truthy id = true ->
  Js.truthy code = true ->
  flat (onmessage E output receiver (Msg.execute (Some id) (Some code))) w
    = Worker.executeCode E id code w.
Proof.
  intros Hpy Hid Hcode. unfold onmessage, present. rewrite Hid, Hcode.
  change (flat (await (executeCode E output receiver id code)) w
          = Worker.executeCode E id code w).
  rewrite flat_await. by apply executeCode_alone.
Qed.

(** So on the event loop: when it hands the request to [onmessage] and
    resumes the handler until it has settled, and nothing else
    meanwhile, whatever else is suspended, the worker ends in the world
    in which [Worker.executeCode] ends. *)
Lemma execute_on_the_event_loop (id code : string) (cfg : Config) :
  pyodide (world cfg) = true ->
  closed (world cfg) = false ->
  Js.truthy id = true ->
  Js.truthy code = true ->
  world (fst (schedule E output receiver
                (Dispatch (Msg.execute (Some id) (Some code)) ::
                   replicate
                     (resumes (onmessage E output receiver
                                 (Msg.execute (Some id) (Some code))) (world cfg))
                     (Resume 0))
                cfg))
    = snd (Worker.executeCode E id code (world cfg)).
Proof.
  intros Hpy Hcl Hid Hcode.
  rewrite handled_alone; [|exact Hcl|by apply open_onmessage].
  by rewrite execute_alone.
Qed.

End Agreement.

End AsyncFacts.

(** ** The worker: the life cycle of a cell *)

Module LifeCycleFacts.
Import Rt Worker ExecFacts.

Lemma run_cons (E : Env) (m : Msg.Request) (ms : list Msg.Request) (w : World) :
  run E (m :: ms) w = run E ms (handle E w m).
Proof. reflexivity. Qed.

Lemma handle_closed (E : Env) (m : Msg.Request) (w : World) :
  closed w = true -> handle E w m = w.
Proof. intros Hc. unfold handle. by rewrite Hc. Qed.

Lemma run_closed (E : Env) (ms : list Msg.Request) (w : World) :
  closed w = true -> run E ms w = w.
Proof.
  intros Hc. induction ms as [|m ms IH]; [done|].
  rewrite run_cons, (handle_closed E m w Hc). exact IH.
Qed.

Import Async.

(** From one world to the next the record of a cell is kept, settled,
    replaced by a fresh one or removed; so a record that has a terminal
    status has one until it is replaced or removed. *)
Lemma terminal_until_replaced (id : string) (obs : list World) :
  (forall i w1 w2,
     obs !! i = Some w1 -> obs !! S i = Some w2 -> life_step id w1 w2) ->
  forall d i wi wj c,
    obs !! i = Some wi ->
    obs !! (i + d) = Some wj ->
    cells wi !! id = Some c ->
    Cell.is_terminal (Cell.status c) = true ->
    (exists c', cells wj !! id = Some c' /\ Cell.is_terminal (Cell.status c') = true) \/
    (exists k wk,
       i < k <= i + d /\ obs !! k = Some wk /\
       (cells wk !! id = Some (fresh_cell id) \/ cells wk !! id = None)).
Proof.
  intros Hstep d. induction d as [|d IH]; intros i wi wj c Hi Hj Hc Ht.
  - rewrite Nat.add_0_r in Hj. left. exists c. split; congruence.
  - destruct (obs !! (i + d)) as [wm|] eqn:Hm.
    2:{ apply lookup_ge_None in Hm. apply lookup_lt_Some in Hj. lia. }
    replace (i + S d) with (S (i + d)) in Hj by lia.
    destruct (IH i wi wm c Hi Hm Hc Ht) as [(c' & Hc' & Ht')|(k & wk & Hk & Hwk & Hcase)].
    + destruct (Hstep (i + d) wm wj Hm Hj) as [Hk|Hf|c1 c2 H1 H2 _ Ht2|Hn _].
      * left. unfold kept in Hk. rewrite Hc' in Hk.
        inversion Hk as [c0 c2 (_ & Hs & _) H0 H2|]; subst.
        exists c2. split; [done|]. by rewrite Hs.
      * right. exists (S (i + d)), wj. split; [lia|]. split; [done|by left].
      * left. by exists c2.
      * right. exists (S (i + d)), wj. split; [lia|]. split; [done|by right].
    + right. exists k, wk. split; [lia|]. by split.
Qed.


(** Beside that, the handlers that an execution installs stay installed
    when it has settled, so output that the runtime writes later, here a
    line that the diagnostic snippet of the background preload prints,
    is appended to the record after its [result] message has been
    posted, and posted under the id of the cell. *)
Lemma late_output_reaches_a_settled_record :
  exists (c : Cell.CellState),
    outbox (world (fst (schedule Examples.printing AsyncExamples.diagnostics_print
                          AsyncExamples.current AsyncExamples.execute_then_preload
                          (at_rest world0))))
      = [Msg.stdout "c1" false "1";
         Msg.result "c1" (Some c);
         Msg.stdout "c1" false "Python version: 3.12.7"] /\
    Cell.status c = Cell.completed /\
    Cell.stdout c = "1" /\
    cells (world (fst (schedule Examples.printing AsyncExamples.diagnostics_print
                         AsyncExamples.current AsyncExamples.execute_then_preload
                         (at_rest world0)))) !! "c1"
      = Some (Cell.append_stdout "Python version: 3.12.7" c).
Proof.
  eexists. vm_compute. repeat split.
Qed.

(** And when two executions under the same id overlap, the verdict of
    the one that settles first is overwritten by the other without a
    fresh record in between: the record goes from [completed] to [error]
    and keeps the result of the first execution. *)
Lemma overlapping_executions_share_a_record :
  exists (first second : Cell.CellState),
    outbox (world (fst (schedule AsyncExamples.division AsyncExamples.silent
                          AsyncExamples.current AsyncExamples.overlapping_executions
                          (at_rest world0))))
      = [Msg.result "c1" (Some first); Msg.result "c1" (Some second)] /\
    Cell.status first = Cell.completed /\
    Cell.result first = Js.JsNum 2 /\
    Cell.status second = Cell.error /\
    Cell.result second = Js.JsNum 2.
Proof.
  eexists _, _. vm_compute. repeat split.
Qed.



End LifeCycleFacts.

(** ** The worker: preloading *)

Module PreloadFacts.
Import Rt Worker.

Lemma upd_calls_twice (a b : list Call) (w : World) :
  upd_calls (fun _ => calls (upd_calls (fun h => h ++ a) w) ++ b)
    (upd_calls (fun h => h ++ a) w)
  = upd_calls (fun _ => calls w ++ a ++ b) w.
Proof. unfold upd_calls. simpl. by rewrite <- app_assoc. Qed.

Lemma upd_calls_none (w : World) : upd_calls (fun _ => calls w ++ []) w = w.
Proof. unfold upd_calls. rewrite app_nil_r. by destruct w. Qed.

(** The loop installs the batches in order and stops at the first batch
    whose install call fails: the calls it makes are the batches up to
    that one, and every call before it succeeded. With enough fuel for
    the list it never runs out of fuel. *)
Lemma install_batches_run (E : Env) (fuel : nat) :
  forall (i : nat) (l : list string) (w : World),
    length l - i <= fuel ->
    exists (made : list (list string)) (r : Res unit),
      install_batches E fuel i l w
        = (r, upd_calls (fun _ => calls w ++ map CInstall made) w) /\
      made `prefix_of` batches_from fuel i l /\
      match r with
      | Ok _ =>
          made = batches_from fuel i l /\
          install_answers E (calls w) made = replicate (length made) None
      | Throw e =>
          exists k, length made = S k /\
            install_answers E (calls w) made = replicate k None ++ [Some e]
      end.
Proof.
  induction fuel as [|fuel IH]; intros i l w Hfuel; simpl.
  - assert ((i <? length l) = false) as -> by (apply Nat.ltb_ge; lia).
    exists [], (Ok tt). simpl. by rewrite upd_calls_none.
  - destruct (i <? length l) eqn:Hlt.
    + set (batch := Js.slice i (i + BATCH_SIZE) l).
      unfold bind. rewrite micropip_install_run.
      destruct (env_install E (calls w) batch) as [e|] eqn:Hans.
      * exists [batch], (Throw e). simpl. split; [done|]. split.
        -- by apply prefix_cons, prefix_nil.
        -- exists 0. by rewrite Hans.
      * apply Nat.ltb_lt in Hlt.
        destruct (IH (i + BATCH_SIZE) l (upd_calls (fun h => h ++ [CInstall batch]) w))
          as (made & r & Hrun & Hpre & Hr); [unfold BATCH_SIZE; lia|].
        exists (batch :: made), r. split; [|split].
        -- rewrite Hrun. f_equal. apply upd_calls_twice.
        -- by apply prefix_cons.
        -- simpl. rewrite Hans. destruct r as [[]|e].
           ++ destruct Hr as [-> Hall]. split; [done|]. simpl in Hall. by rewrite Hall.
           ++ destruct Hr as (k & Hlen & Hall). exists (S k). split; [by rewrite Hlen|].
              simpl in Hall. by rewrite Hall.
    + exists [], (Ok tt). simpl. by rewrite upd_calls_none.
Qed.

(** The batches are a partition of the list into consecutive pieces of
    one to three names. *)
Lemma batches_from_partition (fuel : nat) :
  forall (i : nat) (l : list string),
    length l - i <= fuel ->
    concat (batches_from fuel i l) = drop i l /\
    Forall (fun b => 1 <= length b <= BATCH_SIZE) (batches_from fuel i l).
Proof.
  induction fuel as [|fuel IH]; intros i l Hfuel; simpl.
  - split; [|done]. symmetry. apply drop_ge. lia.
  - destruct (i <? length l) eqn:Hlt.
    + apply Nat.ltb_lt in Hlt.
      destruct (IH (i + BATCH_SIZE) l) as [Hc Hf]; [unfold BATCH_SIZE; lia|].
      unfold Js.slice. replace (i + BATCH_SIZE - i) with BATCH_SIZE by lia.
      split.
      * simpl. rewrite Hc, <- drop_drop. apply take_drop.
      * constructor; [|done]. rewrite length_take, length_drop. unfold BATCH_SIZE. lia.
    + apply Nat.ltb_ge in Hlt. split; [|done]. symmetry. apply drop_ge. lia.
Qed.

Lemma batches_partition (l : list string) :
  concat (batches l) = l /\
  Forall (fun b => 1 <= length b <= BATCH_SIZE) (batches l).
Proof.
  destruct (batches_from_partition (length l) 0 l) as [Hc Hf]; [lia|].
  split; [|done]. by rewrite <- (drop_0 l) at 2.
Qed.

Lemma installs_map_CInstall (made : list (list string)) :
  installs (map CInstall made) = made.
Proof.
  induction made as [|b made IH]; [done|].
  change (installs (map CInstall (b :: made))) with (b :: installs (map CInstall made)).
  by rewrite IH.
Qed.

Lemma installs_app (h1 h2 : list Call) :
  installs (h1 ++ h2) = installs h1 ++ installs h2.
Proof. unfold installs. apply omap_app. Qed.

Lemma calm_packages_to_install (E : Env) : respects calm (packages_to_install E).
Proof. unfold packages_to_install. calm_auto. Qed.

Lemma preloadPackages_unfold (E : Env) (w : World) :
  packagesLoaded w = false ->
  preloadPackages E w =
    try_catch
      (modify (set_self_fetch (ProgressLogger (self_fetch w))) ;;;
       packagesToInstall <- packages_to_install E ;;
       (if 0 <? length packagesToInstall then
          runPythonAsync E PyConfigureMicropip ;;;
          install_batches E (length packagesToInstall) 0 packagesToInstall ;;;
          runPythonAsync E PyVerifyInstallation ;;;
          ret tt
        else ret tt) ;;;
       modify (set_packagesLoaded true))
      (fun _ => ret tt) w.
Proof.
  intros Hl. unfold preloadPackages. unfold bind at 1, get at 1. simpl. rewrite Hl.
  apply try_catch_ext. intros w0.
  apply bind_ext. intros _ w1.
  unfold packages_to_install.
  rewrite bind_assoc. apply bind_ext. intros packages w2.
  rewrite bind_assoc. apply bind_ext. intros _ w3.
  rewrite bind_assoc. apply bind_ext. intros _ w4.
  rewrite bind_assoc. apply bind_ext. intros mods w5.
  reflexivity.
Qed.

Lemma runPythonAsync_ok (E : Env) (s : PyScript) (w : World) :
  env_runPython E (calls w) s = None ->
  exists v, fst (runPythonAsync E s w) = Ok v.
Proof. intros H. unfold runPythonAsync. run. rewrite H. by eexists. Qed.

(** What one run of [preloadPackages] does, in every environment. It
    resolves; the registry is as before; the install calls it makes are
    a prefix of the batches; after a failing install call there is no
    further call at all, and [packagesLoaded] is still false. *)
Lemma preloadPackages_runs (E : Env) (w : World) :
  packagesLoaded w = false ->
  exists (w' : World) (made : list (list string)),
    preloadPackages E w = (Ok tt, w') /\
    registry w' = registry w /\
    self_fetch w' = ProgressLogger (self_fetch w) /\
    window_fetch w' = window_fetch w /\
    installs (calls w') = installs (calls w) ++ made /\
    match packages_to_install E (set_self_fetch (ProgressLogger (self_fetch w)) w) with
    | (Throw _, _) => made = [] /\ packagesLoaded w' = false
    | (Ok [], _) => made = [] /\ packagesLoaded w' = true
    | (Ok l, w5) =>
        made `prefix_of` batches l /\
        match runPythonAsync E PyConfigureMicropip w5 with
        | (Throw _, _) => made = [] /\ packagesLoaded w' = false
        | (Ok _, w6) =>
            (made = batches l /\
             install_answers E (calls w6) made = replicate (length made) None /\
             ((forall h, env_runPython E h PyVerifyInstallation = None) ->
              packagesLoaded w' = true)) \/
            (exists k e,
               length made = S k /\
               install_answers E (calls w6) made = replicate k None ++ [Some e] /\
               packagesLoaded w' = false /\
               calls w' = calls w6 ++ map CInstall made)
        end
    end.
Proof.
  intros Hl. rewrite (preloadPackages_unfold E w Hl).
  pose proof (calm_packages_to_install E (set_self_fetch (ProgressLogger (self_fetch w)) w)) as C5.
  destruct (packages_to_install E (set_self_fetch (ProgressLogger (self_fetch w)) w))
    as [[l|e] w5] eqn:HP; simpl in C5.
  - destruct l as [|a l'].
    + (* nothing to install *)
      exists (set_packagesLoaded true w5), []. destruct C5; simpl in *.
      split; [|simpl; rewrite ?app_nil_r; repeat split; congruence].
      apply try_catch_ok. erewrite bind_ok; [|reflexivity].
      erewrite bind_ok; [|exact HP]. reflexivity.
    + set (l := a :: l') in *.
      pose proof (calm_runPythonAsync E PyConfigureMicropip w5) as C6.
      destruct (runPythonAsync E PyConfigureMicropip w5) as [[x|e] w6] eqn:HC; simpl in C6.
      * destruct (install_batches_run E (length l) 0 l w6) as (made & r & Hrun & Hpre & Hr);
          [lia|].
        set (w7 := upd_calls (fun _ => calls w6 ++ map CInstall made) w6) in *.
        assert (installs (calls w7) = installs (calls w) ++ made) as Hinst.
        { simpl. rewrite installs_app, installs_map_CInstall.
          destruct C5, C6; simpl in *. f_equal. simpl in *. congruence. }
        destruct r as [[]|e].
        -- pose proof (calm_runPythonAsync E PyVerifyInstallation w7) as C8.
           destruct (runPythonAsync E PyVerifyInstallation w7) as [[y|e] w8] eqn:HV;
             simpl in C8.
           ++ exists (set_packagesLoaded true w8), made. destruct C5, C6, C8; simpl in *.
              split; [|simpl in *; repeat split; try congruence].
              ** apply try_catch_ok. erewrite bind_ok; [|reflexivity].
                 erewrite bind_ok; [|exact HP].
                 erewrite bind_ok; [reflexivity|].
                 change (0 <? length l) with true. cbv iota.
                 erewrite bind_ok; [|exact HC]. erewrite bind_ok; [|exact Hrun].
                 erewrite bind_ok; [|exact HV]. reflexivity.
              ** by destruct Hr as [-> _].
              ** left. destruct Hr as [-> Hall]. done.
           ++ exists w8, made. destruct C5, C6, C8; simpl in *.
              split; [|simpl in *; repeat split; try congruence].
              ** erewrite try_catch_throw; [reflexivity|].
                 erewrite bind_ok; [|reflexivity].
                 erewrite bind_ok; [|exact HP].
                 erewrite bind_throw; [reflexivity|].
                 change (0 <? length l) with true. cbv iota.
                 erewrite bind_ok; [|exact HC]. erewrite bind_ok; [|exact Hrun].
                 erewrite bind_throw; [reflexivity|exact HV].
              ** by destruct Hr as [-> _].
              ** left. destruct Hr as [-> Hall]. split; [done|]. split; [done|].
                 intros Hok. destruct (runPythonAsync_ok E PyVerifyInstallation w7 (Hok _))
                   as [v Hv]. rewrite HV in Hv. done.
        -- exists w7, made. destruct C5, C6; simpl in *.
           split; [|simpl in *; repeat split; try congruence].
           ++ erewrite try_catch_throw; [reflexivity|].
              erewrite bind_ok; [|reflexivity].
              erewrite bind_ok; [|exact HP].
              erewrite bind_throw; [reflexivity|].
              change (0 <? length l) with true. cbv iota.
              erewrite bind_ok; [|exact HC]. erewrite bind_throw; [reflexivity|exact Hrun].
           ++ done.
           ++ right. destruct Hr as (k & Hlen & Hall). exists k, e.
              repeat split; try done. simpl in *. congruence.
      * exists w6, []. destruct C5, C6; simpl in *.
        split; [|simpl in *; rewrite ?app_nil_r; repeat split; try congruence].
        -- erewrite try_catch_throw; [reflexivity|].
           erewrite bind_ok; [|reflexivity].
           erewrite bind_ok; [|exact HP].
           erewrite bind_throw; [reflexivity|].
           change (0 <? length l) with true. cbv iota.
           erewrite bind_throw; [reflexivity|exact HC].
        -- apply prefix_nil.
  - exists w5, []. destruct C5; simpl in *.
    split; [|simpl in *; rewrite ?app_nil_r; repeat split; congruence].
    erewrite try_catch_throw; [reflexivity|].
    erewrite bind_ok; [|reflexivity]. erewrite bind_throw; [reflexivity|exact HP].
Qed.

Lemma through_fetch_resolves (E : Env) (f : FetchFn) (d : Download) (w : World) :
  fst (Loader.through_fetch E f d w) = Ok tt.
Proof.
  revert w. induction f as [|f IH|f IH]; intros w; simpl; [done|apply IH|].
  unfold bind. specialize (IH w).
  destruct (Loader.through_fetch E f d w) as [[[]|e] w1]; simpl in IH; [|done].
  destruct (_ && _); [|done].
  unfold try_catch.
  match goal with |- context [match ?m w1 with _ => _ end] =>
    by destruct (m w1) as [[[]|e] w2] end.
Qed.

Lemma for_of_resolves {A} (l : list A) (body : A -> M World unit) (w : World) :
  (forall a w0, fst (body a w0) = Ok tt) -> fst (for_of l body w) = Ok tt.
Proof.
  intros Hb. revert w. induction l as [|a l IH]; intros w; simpl; [done|].
  unfold bind. specialize (Hb a w). destruct (body a w) as [[[]|e] w1]; simpl in Hb; [|done].
  apply IH.
Qed.

Lemma native_loadPackage_result (E : Env) (ambient : World -> FetchFn)
    (names : list string) (w : World) :
  fst (Loader.native_loadPackage E ambient names w) =
    match snd (env_loadPackage E (calls w) names) with
    | None => Ok tt
    | Some e => Throw e
    end.
Proof.
  unfold Loader.native_loadPackage. run.
  set (w1 := upd_calls _ w).
  pose proof (for_of_resolves (fst (env_loadPackage E (calls w) names))
                (fun d => bind get (fun w0 => Loader.through_fetch E (ambient w0) d)) w1) as Hf.
  unfold bind, get in Hf.
  destruct (for_of _ _ w1) as [[[]|e] w2]; simpl in *.
  - by destruct (snd (env_loadPackage E (calls w) names)).
  - discriminate Hf. intros a w0. apply through_fetch_resolves.
Qed.

Lemma filter_all {A} (P : A -> Prop) `{!forall x, Decision (P x)} (l : list A) :
  Forall P l -> filter P l = l.
Proof.
  induction 1 as [|x l Hx _ IH]; [done|].
  rewrite filter_cons_True by done. by rewrite IH.
Qed.

Lemma packages_to_install_all (E : Env) (w : World) (names : list string) :
  packageCache w = None ->
  (forall h, env_fetch_list E h = HttpResponse 200 (BodyPackages names)) ->
  runtime_ok E ->
  none_loaded E names ->
  exists w5, packages_to_install E w = (Ok names, w5).
Proof.
  intros Hc Hlist (Hload & Himp & Hpy) Hnone.
  unfold packages_to_install.
  assert (exists w2, fetchPyodidePackages E w = (Ok names, w2)) as [w2 H2].
  { unfold fetchPyodidePackages, cached_list. run. rewrite Hc. simpl.
    rewrite Hlist. simpl. by eexists. }
  erewrite bind_ok; [|exact H2].
  pose proof (native_loadPackage_result E self_fetch ["micropip"] w2) as H3.
  rewrite Hload in H3.
  destruct (Loader.native_loadPackage E self_fetch ["micropip"] w2) as [r3 w3] eqn:H3e.
  simpl in H3. subst r3. erewrite bind_ok; [|exact H3e].
  unfold pyimport, runPythonAsync. run. rewrite Himp. simpl. rewrite Hpy. simpl.
  eexists. rewrite filter_all; [reflexivity|]. apply Hnone.
Qed.

Lemma install_answers_ok (E : Env) (h : list Call) (made : list (list string)) :
  installs_ok E -> install_answers E h made = replicate (length made) None.
Proof.
  intros Hok. revert h. induction made as [|b made IH]; intros h; simpl; [done|].
  by rewrite Hok, IH.
Qed.

Lemma answers_not_both (k n : nat) (e : string) :
  replicate n (@None string) <> replicate k None ++ [Some e].
Proof.
  intros H. assert (Some e ∈ replicate n (@None string)) as Hin.
  { rewrite H. apply elem_of_app. right. apply list_elem_of_here. }
  by apply elem_of_replicate in Hin as [? _].
Qed.

Lemma batches_of_seven (names : list string) :
  length names = 7 ->
  batches names = [take 3 names; take 3 (drop 3 names); drop 6 names].
Proof.
  intros Hlen. do 8 (destruct names as [|? names]; try discriminate). reflexivity.
Qed.

(** Counterexample to C8. With seven names to install and an install
    call that fails, the worker issues one install call, for the first
    batch, and none for the other two. *)
Lemma preloadPackages_stops_at_failed_batch :
  installs (calls (snd (preloadPackages Examples.seven_packages_install_fails world0)))
    = [["a"; "b"; "c"]] /\
  length (installs
            (calls (snd (preloadPackages Examples.seven_packages_install_fails world0))))
    <> 3.
Proof. split; [vm_compute; reflexivity|]. vm_compute. discriminate. Qed.

(** C8, amended. Given seven names to install, none of them loaded, in
    an environment where the list request, the runtime and every install
    call succeed, [preloadPackages] issues exactly three install calls,
    of sizes 3, 3 and 1, which together are the names in their order;
    each call is made after the one before it has been answered. *)
Theorem preloadPackages_seven_in_three_batches
    (E : Env) (w : World) (names : list string) :
  length names = 7 ->
  packagesLoaded w = false ->
  packageCache w = None ->
  (forall h, env_fetch_list E h = HttpResponse 200 (BodyPackages names)) ->
  runtime_ok E ->
  none_loaded E names ->
  installs_ok E ->
  exists (w' : World) (h : list Call),
    preloadPackages E w = (Ok tt, w') /\
    installs (calls w') =
      installs (calls w) ++ [take 3 names; take 3 (drop 3 names); drop 6 names] /\
    map length [take 3 names; take 3 (drop 3 names); drop 6 names] = [3; 3; 1] /\
    take 3 names ++ take 3 (drop 3 names) ++ drop 6 names = names /\
    install_answers E h [take 3 names; take 3 (drop 3 names); drop 6 names]
      = [None; None; None] /\
    packagesLoaded w' = true.
Proof.
  intros Hlen Hl Hc Hlist Hrt Hnone Hinst.
  destruct (preloadPackages_runs E w Hl) as (w' & made & Hrun & _ & _ & _ & Hmade & Hcase).
  destruct (packages_to_install_all E
              (set_self_fetch (ProgressLogger (self_fetch w)) w) names)
    as [w5 HP]; [done..|].
  rewrite HP in Hcase.
  assert (exists a l', names = a :: l') as (a & l' & Hnames)
    by (destruct names; [discriminate|by eexists _, _]).
  rewrite Hnames in Hcase. rewrite <- Hnames in Hcase.
  destruct Hcase as [_ Hcase].
  destruct Hrt as (_ & _ & Hpy).
  destruct (runPythonAsync_ok E PyConfigureMicropip w5 (Hpy _ _)) as [v Hv].
  destruct (runPythonAsync E PyConfigureMicropip w5) as [[x|e] w6]; [|done].
  destruct Hcase as [(Hb & Hans & Hloaded)|(k & e & _ & Hans & _)].
  - rewrite (batches_of_seven names Hlen) in Hb. subst made.
    exists w', (calls w6). split; [done|]. split; [done|].
    split; [|split; [|split; [done|]]].
    + do 8 (destruct names as [|? names]; try discriminate). reflexivity.
    + do 8 (destruct names as [|? names]; try discriminate). reflexivity.
    + apply Hloaded. intros h. apply Hpy.
  - rewrite (install_answers_ok E _ _ Hinst) in Hans.
    by apply answers_not_both in Hans.
Qed.

Lemma preloadPackages_seven_in_three_batches_witness :
  exists w',
    preloadPackages Examples.seven_packages world0 = (Ok tt, w') /\
    installs (calls w') = [["a"; "b"; "c"]; ["d"; "e"; "f"]; ["g"]] /\
    packagesLoaded w' = true.
Proof.
  destruct (preloadPackages_seven_in_three_batches Examples.seven_packages world0
              Examples.seven)
    as (w' & h & Hrun & Hcalls & _ & _ & _ & Hloaded).
  - reflexivity.
  - reflexivity.
  - reflexivity.
  - intros h. reflexivity.
  - repeat split.
  - intros h. vm_compute. repeat constructor; by intros ?%elem_of_nil.
  - intros h b. reflexivity.
  - exists w'. split; [exact Hrun|]. split; [exact Hcalls|exact Hloaded].
Defined.

Lemma ProgressLogger_not_fixed (f : FetchFn) : ProgressLogger f <> f.
Proof. induction f as [|f IH|f IH]; intros H; try discriminate. injection H. exact IH. Qed.

(** C4, evaluated on the code. In the worker, [preloadPackages]
    replaces [self.fetch] by its wrapper and resolves with the wrapper
    still in place: the original [fetch] is not restored, on no path. *)
Theorem preloadPackages_leaves_fetch_wrapped (E : Env) (w : World) :
  packagesLoaded w = false ->
  exists w',
    preloadPackages E w = (Ok tt, w') /\
    self_fetch w' = ProgressLogger (self_fetch w) /\
    self_fetch w' <> self_fetch w.
Proof.
  intros Hl.
  destruct (preloadPackages_runs E w Hl) as (w' & made & Hrun & _ & Hf & _).
  exists w'. split; [done|]. split; [done|]. rewrite Hf. apply ProgressLogger_not_fixed.
Qed.

Lemma preloadPackages_leaves_fetch_wrapped_witness :
  packagesLoaded world0 = false /\
  exists w',
    preloadPackages Examples.quiet world0 = (Ok tt, w') /\
    self_fetch w' = ProgressLogger NativeFetch /\
    self_fetch w' <> self_fetch world0.
Proof.
  split; [reflexivity|].
  apply (preloadPackages_leaves_fetch_wrapped Examples.quiet world0). reflexivity.
Defined.

End PreloadFacts.

(** ** Installation failures *)

Module InstallFacts.
Import Rt Worker PreloadFacts.

(** Counterexample to C1. With seven names to install and install
    calls that fail: [preloadPackages] makes the call for the first
    batch and no call for the second and third, and marks nothing failed;
    [installMissingPackages] makes its call and one retry with the whole
    list, and marks nothing failed either. *)
Lemma failed_batch_ends_loop_and_marks_nothing :
  installs (calls (snd (preloadPackages Examples.seven_packages_install_fails world0)))
    = [["a"; "b"; "c"]] /\
  ("a" ∉ Registry.failed
           (registry (snd (preloadPackages Examples.seven_packages_install_fails world0)))) /\
  installs (calls (snd (Loader.installMissingPackages
                          Examples.seven_packages_install_fails Examples.seven world0)))
    = [Examples.seven; Examples.seven] /\
  ("a" ∉ Registry.failed
           (registry (snd (Loader.installMissingPackages
                             Examples.seven_packages_install_fails Examples.seven world0)))).
Proof.
  split; [vm_compute; reflexivity|]. split; [|split; [vm_compute; reflexivity|]].
  - replace (registry _) with Registry.packageCache by (vm_compute; reflexivity).
    simpl. set_solver.
  - replace (registry _) with Registry.packageCache by (vm_compute; reflexivity).
    simpl. set_solver.
Qed.

(** C1, amended. In the worker, [preloadPackages] resolves in every
    environment and leaves the registry as it was. The install calls it
    makes are a prefix of the batches of the list to install. Either
    every call made succeeded, or the last call made failed; in that case
    it is the last call of the whole run, so no later batch is attempted,
    and [packagesLoaded] stays false. In the loader utility,
    [installMissingPackages] resolves in every environment and leaves the
    registry as it was; when its first block throws, the fallback block
    runs once, from the world the first block left: it makes at most one
    install call, and that call carries the full original list; when the
    first block does not throw there is no retry. *)
Theorem install_failures_are_logged_not_marked
    (E : Env) (w : World) (packages : list string) :
  packagesLoaded w = false ->
  (exists (w' : World) (h : list Call) (made : list (list string)),
     preloadPackages E w = (Ok tt, w') /\
     registry w' = registry w /\
     installs (calls w') = installs (calls w) ++ made /\
     (made = [] \/
      exists l,
        fst (packages_to_install E (set_self_fetch (ProgressLogger (self_fetch w)) w))
          = Ok l /\
        made `prefix_of` batches l) /\
     (install_answers E h made = replicate (length made) None \/
      exists k e,
        install_answers E h made = replicate k None ++ [Some e] /\
        calls w' = h ++ map CInstall made /\
        packagesLoaded w' = false)) /\
  (exists (w' : World) (first retry : list (list string)),
     Loader.installMissingPackages E packages w = (Ok tt, w') /\
     registry w' = registry w /\
     installs (calls w') = installs (calls w) ++ first ++ retry /\
     length first <= 1 /\
     match Loader.install_missing E packages w with
     | (Ok _, w1) => retry = [] /\ w' = w1
     | (Throw _, w1) =>
         (retry = [] \/ retry = [packages]) /\
         (fst (Loader.install_all E packages w1) = Ok tt -> retry = [packages]) /\
         w' = snd (Loader.install_all E packages w1)
     end).
Proof.
  intros Hl. split; [|apply LoaderFacts.installMissingPackages_runs].
  destruct (preloadPackages_runs E w Hl) as (w' & made & Hrun & Hreg & _ & _ & Hmade & Hcase).
  destruct (packages_to_install E _) as [[l|e] w5].
  - destruct l as [|a l'].
    + destruct Hcase as [-> _]. exists w', [], []. repeat split; try done; by left.
    + destruct Hcase as [Hpre Hcase].
      destruct (runPythonAsync E PyConfigureMicropip w5) as [[x|e] w6].
      * exists w', (calls w6), made. repeat split; try done.
        -- right. by exists (a :: l').
        -- destruct Hcase as [(_ & Hans & _)|(k & e & _ & Hans & Hp & Hc)]; [by left|].
           right. by exists k, e.
      * destruct Hcase as [-> _]. exists w', [], []. repeat split; try done; by left.
  - destruct Hcase as [-> _]. exists w', [], []. repeat split; try done; by left.
Qed.

Lemma install_failures_are_logged_not_marked_witness :
  packagesLoaded world0 = false /\
  (exists w',
     preloadPackages Examples.seven_packages_install_fails world0 = (Ok tt, w') /\
     registry w' = registry world0) /\
  (exists w',
     Loader.installMissingPackages Examples.seven_packages_install_fails
       Examples.seven world0 = (Ok tt, w') /\
     registry w' = registry world0).
Proof.
  split; [reflexivity|].
  destruct (install_failures_are_logged_not_marked
              Examples.seven_packages_install_fails world0 Examples.seven)
    as [(w1 & _ & _ & H1 & R1 & _) (w2 & _ & _ & H2 & R2 & _)]; [reflexivity|].
  split; [by exists w1 | by exists w2].
Defined.

End InstallFacts.

(** ** The list caches of the worker and of the loader utility *)

Module ListCacheFacts.
Import Rt.

Lemma worker_cached_list_hit (E : Env) (w : World) (c : ListCache.PackageCache) :
  packageCache w = Some c ->
  (env_now E (calls w) - ListCache.timestamp c < Worker.CACHE_EXPIRY_MS)%Z ->
  Worker.fetchPyodidePackages E w
    = (Ok (ListCache.packages c), upd_calls (fun h => h ++ [CDateNow]) w).
Proof.
  intros Hc Hfresh. unfold Worker.fetchPyodidePackages, Worker.cached_list. run.
  rewrite Hc. simpl. apply Z.ltb_lt in Hfresh. by rewrite Hfresh.
Qed.

Lemma loader_cached_list_hit (E : Env) (w : World) (c : ListCache.PackageCache) :
  localStorage w = Some (ListCache.Stored c) ->
  (env_now E (calls w) - ListCache.timestamp c <= Loader.CACHE_EXPIRY_MS)%Z ->
  ListCache.packages c <> [] ->
  Loader.fetchPyodidePackages E w
    = (Ok (ListCache.packages c), upd_calls (fun h => h ++ [CDateNow]) w).
Proof.
  intros Hc Hfresh Hne. unfold Loader.fetchPyodidePackages, Loader.cached_list. run.
  rewrite Hc. simpl.
  assert ((Loader.CACHE_EXPIRY_MS <? env_now E (calls w) - ListCache.timestamp c)%Z = false)
    as -> by (apply Z.ltb_ge; lia).
  destruct (ListCache.packages c); [done|]. reflexivity.
Qed.

(** X1. In the worker, a list that [fetchPyodidePackages] has fetched
    with a success status is kept with the time read after the response
    has arrived, and a
    second call made less than 24 hours later returns the same list
    after reading the clock only: it sends no request. *)
Theorem worker_list_round_trip
    (E : Env) (w w0 : World) (status : Z) (p : list string) :
  Worker.cached_list E w = (Ok None, w0) ->
  env_fetch_list E (calls w0) = HttpResponse status (BodyPackages p) ->
  response_ok status = true ->
  exists (w1 : World) (stamp : Z),
    Worker.fetchPyodidePackages E w = (Ok p, w1) /\
    stamp = env_now E (calls w0 ++ [CFetchPackageList]) /\
    packageCache w1 = Some (ListCache.mkPackageCache stamp p) /\
    ((env_now E (calls w1) - stamp < Worker.CACHE_EXPIRY_MS)%Z ->
     Worker.fetchPyodidePackages E w1
       = (Ok p, upd_calls (fun h => h ++ [CDateNow]) w1)).
Proof.
  intros Hmiss Hlist Hok.
  eexists _, (env_now E (calls w0 ++ [CFetchPackageList])).
  split; [|split; [reflexivity|split]].
  - unfold Worker.fetchPyodidePackages. unfold bind at 1. rewrite Hmiss.
    run. rewrite Hlist. simpl. rewrite Hok. simpl. reflexivity.
  - reflexivity.
  - intros Hfresh.
    by apply (worker_cached_list_hit E _
                (ListCache.mkPackageCache (env_now E (calls w0 ++ [CFetchPackageList])) p)).
Qed.

Lemma worker_list_round_trip_witness :
  exists w1,
    Worker.fetchPyodidePackages MoreExamples.two_packages world0
      = (Ok ["numpy"; "pandas"], w1) /\
    Worker.fetchPyodidePackages MoreExamples.two_packages w1
      = (Ok ["numpy"; "pandas"], upd_calls (fun h => h ++ [CDateNow]) w1).
Proof.
  destruct (worker_list_round_trip MoreExamples.two_packages world0 world0 200
              ["numpy"; "pandas"])
    as (w1 & stamp & Hrun & -> & _ & Hhit); [reflexivity..|].
  exists w1. split; [exact Hrun|]. apply Hhit.
  injection Hrun as <-. vm_compute. reflexivity.
Defined.

(** X2. In the loader utility, a non-empty list that
    [fetchPyodidePackages] has fetched with a success status is written
    to localStorage with the time read after the response has arrived,
    and a second call made
    at most 24 hours later returns the same list after reading the clock
    only: it sends no request. *)
Theorem loader_list_round_trip
    (E : Env) (w w0 : World) (status : Z) (p : list string) :
  Loader.cached_list E w = (Ok None, w0) ->
  env_fetch_list E (calls w0) = HttpResponse status (BodyPackages p) ->
  response_ok status = true ->
  p <> [] ->
  exists (w1 : World) (stamp : Z),
    Loader.fetchPyodidePackages E w = (Ok p, w1) /\
    stamp = env_now E (calls w0 ++ [CFetchPackageList]) /\
    localStorage w1 = Some (ListCache.Stored (ListCache.mkPackageCache stamp p)) /\
    ((env_now E (calls w1) - stamp <= Loader.CACHE_EXPIRY_MS)%Z ->
     Loader.fetchPyodidePackages E w1
       = (Ok p, upd_calls (fun h => h ++ [CDateNow]) w1)).
Proof.
  intros Hmiss Hlist Hok Hne.
  eexists _, (env_now E (calls w0 ++ [CFetchPackageList])).
  split; [|split; [reflexivity|split]].
  - unfold Loader.fetchPyodidePackages. unfold bind at 1. rewrite Hmiss.
    run. rewrite Hlist. simpl. rewrite Hok. simpl. reflexivity.
  - reflexivity.
  - intros Hfresh.
    by apply (loader_cached_list_hit E _
                (ListCache.mkPackageCache (env_now E (calls w0 ++ [CFetchPackageList])) p)).
Qed.

Lemma loader_list_round_trip_witness :
  exists w1,
    Loader.fetchPyodidePackages MoreExamples.two_packages world0
      = (Ok ["numpy"; "pandas"], w1) /\
    Loader.fetchPyodidePackages MoreExamples.two_packages w1
      = (Ok ["numpy"; "pandas"], upd_calls (fun h => h ++ [CDateNow]) w1).
Proof.
  destruct (loader_list_round_trip MoreExamples.two_packages world0 world0 200
              ["numpy"; "pandas"])
    as (w1 & stamp & Hrun & -> & _ & Hhit); [reflexivity..|discriminate|].
  exists w1. split; [exact Hrun|]. apply Hhit.
  injection Hrun as <-. vm_compute. discriminate.
Defined.

(** X3. An entry that is exactly 24 hours old is treated differently
    by the two modules. The worker compares with [<]: the entry is
    expired and the list is requested again. The loader utility compares
    with [>]: the entry is still valid and is returned without a
    request. *)
Theorem list_cache_expiry_boundary (E : Env) (w : World) (c : ListCache.PackageCache) :
  (env_now E (calls w) - ListCache.timestamp c = 24 * 60 * 60 * 1000)%Z ->
  ListCache.packages c <> [] ->
  (packageCache w = Some c ->
   exists rest,
     calls (snd (Worker.fetchPyodidePackages E w))
       = calls w ++ CDateNow :: CFetchPackageList :: rest) /\
  (localStorage w = Some (ListCache.Stored c) ->
   Loader.fetchPyodidePackages E w
     = (Ok (ListCache.packages c), upd_calls (fun h => h ++ [CDateNow]) w)).
Proof.
  intros Hage Hne. split.
  - intros Hc. unfold Worker.fetchPyodidePackages, Worker.cached_list. run.
    rewrite Hc. simpl. rewrite Hage. simpl.
    destruct (env_fetch_list E _) as [e|status body]; simpl.
    + exists []. by rewrite <- app_assoc.
    + destruct (response_ok status); simpl.
      * destruct body; simpl; eexists; rewrite <- ?app_assoc; simpl; reflexivity.
      * exists []. by rewrite <- app_assoc.
  - intros Hc. apply loader_cached_list_hit; [done| |done].
    rewrite Hage. unfold Loader.CACHE_EXPIRY_MS. lia.
Qed.

Lemma list_cache_expiry_boundary_witness :
  (exists rest,
     calls (snd (Worker.fetchPyodidePackages MoreExamples.a_day_later
                   (MoreExamples.both_cached ["numpy"])))
       = CDateNow :: CFetchPackageList :: rest) /\
  fst (Loader.fetchPyodidePackages MoreExamples.a_day_later
         (MoreExamples.both_cached ["numpy"])) = Ok ["numpy"].
Proof.
  destruct (list_cache_expiry_boundary MoreExamples.a_day_later
              (MoreExamples.both_cached ["numpy"]) (ListCache.mkPackageCache 0 ["numpy"]))
    as [Hw Hl]; [reflexivity|discriminate|].
  split.
  - apply Hw. reflexivity.
  - rewrite Hl; reflexivity.
Defined.

(** X4. An empty list is cached differently by the two modules. After
    the endpoint has answered with an empty array, the worker serves the
    empty list from its cache while the entry is fresh; the loader
    utility stores the entry but never uses it: every later call sends
    the request again, whatever the clock says. *)
Theorem empty_list_is_cached_by_the_worker_only (E : Env) (w : World) (stamp : Z) :
  (packageCache w = Some (ListCache.mkPackageCache stamp []) ->
   (env_now E (calls w) - stamp < Worker.CACHE_EXPIRY_MS)%Z ->
   Worker.fetchPyodidePackages E w = (Ok [], upd_calls (fun h => h ++ [CDateNow]) w)) /\
  (localStorage w = Some (ListCache.Stored (ListCache.mkPackageCache stamp [])) ->
   exists rest,
     calls (snd (Loader.fetchPyodidePackages E w))
       = calls w ++ CDateNow :: CFetchPackageList :: rest).
Proof.
  split.
  - intros Hc Hfresh.
    by apply (worker_cached_list_hit E w (ListCache.mkPackageCache stamp [])).
  - intros Hc. unfold Loader.fetchPyodidePackages, Loader.cached_list. run.
    rewrite Hc. simpl. rewrite andb_false_r. simpl.
    destruct (env_fetch_list E _) as [e|status body]; simpl.
    + exists []. by rewrite <- app_assoc.
    + destruct (response_ok status); simpl.
      * destruct body; simpl; eexists; rewrite <- ?app_assoc; simpl; reflexivity.
      * exists []. by rewrite <- app_assoc.
Qed.

Lemma empty_list_is_cached_by_the_worker_only_witness :
  Worker.fetchPyodidePackages Examples.quiet (MoreExamples.both_cached [])
    = (Ok [], upd_calls (fun h => h ++ [CDateNow]) (MoreExamples.both_cached [])) /\
  (exists rest,
     calls (snd (Loader.fetchPyodidePackages Examples.quiet (MoreExamples.both_cached [])))
       = CDateNow :: CFetchPackageList :: rest).
Proof.
  destruct (empty_list_is_cached_by_the_worker_only Examples.quiet
              (MoreExamples.both_cached []) 0) as [Hw Hl].
  split.
  - apply Hw; reflexivity.
  - apply Hl. reflexivity.
Defined.

(** X29. A cache entry in localStorage that is not JSON is ignored.
    The loader's [fetchPyodidePackages] then behaves as with no entry at
    all: it does not read the clock, sends the list request and returns
    the same list; a successful fetch replaces the corrupt entry, a
    failed one leaves it where it is. *)
Theorem corrupt_list_cache_is_ignored (E : Env) (w : World) :
  localStorage w = Some ListCache.Unparseable ->
  let r := Loader.fetchPyodidePackages E w in
  let r0 := Loader.fetchPyodidePackages E (set_localStorage None w) in
  fst r = fst r0 /\
  calls (snd r) = calls (snd r0) /\
  (exists rest, calls (snd r) = calls w ++ CFetchPackageList :: rest) /\
  (localStorage (snd r) = localStorage (snd r0) \/
   (localStorage (snd r) = Some ListCache.Unparseable /\
    list_request_failed (env_fetch_list E (calls w)) = true)).
Proof.
  intros Hls. unfold Loader.fetchPyodidePackages, Loader.cached_list. run.
  rewrite Hls. simpl.
  destruct (env_fetch_list E (calls w)) as [e|status body]; simpl.
  - repeat split; [by exists []|]. right. by rewrite Hls.
  - destruct (response_ok status); simpl.
    + destruct body; simpl; repeat split;
        try (eexists; rewrite <- ?app_assoc; simpl; reflexivity);
        try (by left); right; by rewrite Hls.
    + repeat split; [by exists []|]. right. rewrite Hls. by destruct body.
Qed.

Lemma corrupt_list_cache_is_ignored_witness :
  fst (Loader.fetchPyodidePackages MoreExamples.two_packages
         (set_localStorage (Some ListCache.Unparseable) world0))
    = Ok ["numpy"; "pandas"].
Proof.
  destruct (corrupt_list_cache_is_ignored MoreExamples.two_packages
              (set_localStorage (Some ListCache.Unparseable) world0))
    as (H & _); [reflexivity|].
  rewrite H. reflexivity.
Defined.

End ListCacheFacts.

(** ** The wheel store and the clearing of the caches *)

Module StoreFacts.
Import Rt Loader Maintenance.

Lemma cachePackageWheel_other (E : Env) (w : World)
    (name url : string) (payload : list Byte.byte) (other : string) :
  other <> name ->
  wheels (snd (cachePackageWheel E name url payload w)) !! other = wheels w !! other.
Proof.
  intros Hne. unfold cachePackageWheel, open_or_log, initPackageDatabase. run.
  destruct (env_db_open E (calls w)); simpl; [|done].
  destruct (env_db_request E _); simpl; [|done].
  by rewrite lookup_insert_ne.
Qed.

(** X5. The wheel store holds one record per package name. A put
    changes no record of another name, whether it succeeds or not; of
    two successful puts under one name the second replaces the first,
    and a get that reaches the store returns the payload of the second. *)
Theorem wheel_put_replaces_by_name (E : Env) (w w1 w2 : World)
    (name url1 url2 : string) (payload1 payload2 : list Byte.byte) :
  env_db_open E (calls w) = true ->
  env_db_open E (calls w1) = true ->
  cachePackageWheel E name url1 payload1 w = (Ok tt, w1) ->
  cachePackageWheel E name url2 payload2 w1 = (Ok tt, w2) ->
  (exists now,
     wheels w2 = <[name := Wheel.mkPackageWheelCache name url2 payload2 now]> (wheels w)) /\
  (forall other, other <> name -> wheels w2 !! other = wheels w !! other) /\
  (env_db_open E (calls w2) = true ->
   env_db_request E (calls w2 ++ [CDbOpen]) = true ->
   fst (getCachedPackageWheel E name w2) = Ok (Some payload2)).
Proof.
  intros Ho Ho1 H1 H2.
  destruct (WheelFacts.cachePackageWheel_stores E w w1 name url1 payload1 Ho H1) as [n1 S1].
  destruct (WheelFacts.cachePackageWheel_stores E w1 w2 name url2 payload2 Ho1 H2) as [n2 S2].
  rewrite S1, insert_insert_eq in S2.
  split; [by exists n2|]. split.
  - intros other Hne. by rewrite S2, lookup_insert_ne.
  - intros Ho2 Hr2. rewrite WheelFacts.getCachedPackageWheel_cases, Ho2, Hr2, S2.
    by rewrite lookup_insert_eq.
Qed.

Lemma wheel_put_replaces_by_name_witness :
  exists w1 w2,
    cachePackageWheel Examples.quiet "numpy" "https://cdn/pyodide/numpy-1.26.whl"
      [Byte.x01] world0 = (Ok tt, w1) /\
    cachePackageWheel Examples.quiet "numpy" "https://cdn/pyodide/numpy-2.0.whl"
      [Byte.x02; Byte.x03] w1 = (Ok tt, w2) /\
    fst (getCachedPackageWheel Examples.quiet "numpy" w2) = Ok (Some [Byte.x02; Byte.x03]).
Proof.
  eexists _, _. split; [vm_compute; reflexivity|]. split; [vm_compute; reflexivity|].
  eapply (wheel_put_replaces_by_name Examples.quiet world0 _ _ "numpy"
            "https://cdn/pyodide/numpy-1.26.whl" "https://cdn/pyodide/numpy-2.0.whl"
            [Byte.x01] [Byte.x02; Byte.x03]);
    vm_compute; reflexivity.
Defined.

Lemma clearPyodideCache_run (E : Env) (w : World) :
  clearPyodideCache E w =
    let w1 := upd_calls (fun h => h ++ [CDbOpen]) (set_localStorage None w) in
    if env_db_open E (calls w) then
      if env_db_request E (calls w ++ [CDbOpen])
      then (Ok true, upd_wheels (fun _ => ∅) w1)
      else (Throw "false", w1)
    else (Ok false, w1).
Proof.
  unfold clearPyodideCache, initPackageDatabase. run.
  destruct (env_db_open E (calls w)); simpl; [|done].
  by destruct (env_db_request E _).
Qed.

(** X6. [clearPyodideCache] removes the package list from
    localStorage on every path, also when IndexedDB cannot be opened or
    the clearing of the wheel store fails; the next
    [fetchPyodidePackages] of the loader utility therefore sends the
    list request, without reading the clock. *)
Theorem clearPyodideCache_forgets_the_list (E : Env) (w : World) :
  let w1 := snd (clearPyodideCache E w) in
  localStorage w1 = None /\
  exists rest,
    calls (snd (fetchPyodidePackages E w1)) = calls w1 ++ CFetchPackageList :: rest.
Proof.
  intros w1.
  assert (localStorage w1 = None) as Hls.
  { unfold w1. rewrite clearPyodideCache_run. cbv zeta.
    destruct (env_db_open E (calls w)); [|done].
    by destruct (env_db_request E _). }
  split; [done|].
  unfold fetchPyodidePackages, cached_list. run. rewrite Hls. simpl.
  destruct (env_fetch_list E (calls w1)) as [e|status body]; simpl.
  - by exists [].
  - destruct (response_ok status); simpl.
    + destruct body; simpl; eexists; rewrite <- ?app_assoc; simpl; reflexivity.
    + by exists [].
Qed.

(** X7. [clearPyodideCache] resolves with [true] only after the wheel
    store has been emptied: no get returns a wheel then, for any name.
    It resolves with [false] exactly when the database does not open, and
    it rejects exactly when the database opens and the clear request
    fails; in both cases the wheel store is what it was. *)
Theorem clearPyodideCache_outcomes (E : Env) (w : World) :
  let r := clearPyodideCache E w in
  (fst r = Ok true ->
   wheels (snd r) = ∅ /\
   forall name data, fst (getCachedPackageWheel E name (snd r)) <> Ok (Some data)) /\
  (fst r = Ok false <-> env_db_open E (calls w) = false) /\
  (fst r = Throw "false" <->
   env_db_open E (calls w) = true /\ env_db_request E (calls w ++ [CDbOpen]) = false) /\
  (fst r <> Ok true -> wheels (snd r) = wheels w).
Proof.
  intros r. unfold r. rewrite clearPyodideCache_run. cbv zeta.
  destruct (env_db_open E (calls w)) eqn:Ho;
    [destruct (env_db_request E (calls w ++ [CDbOpen])) eqn:Hr|]; simpl.
  - split; [|split; [|split]]; try done.
    + intros _. split; [done|]. intros name data.
      rewrite WheelFacts.getCachedPackageWheel_cases. simpl.
      rewrite lookup_empty. by repeat case_match.
    + split; [done|]. by intros [_ ?].
  - split; [|split; [|split]]; try done.
  - split; [|split; [|split]]; try done. split; [done|]. by intros [? _].
Qed.

End StoreFacts.

(** ** The fetch wrappers and the caching loader *)

Module CaptureFacts.
Import Rt Loader.

Lemma split_first_has_no_sep (sep : ascii) (s : string) :
  Js.has_char sep (Js.split_first sep s) = false.
Proof.
  induction s as [|a s IH]; simpl; [done|].
  destruct (Ascii.eqb a sep) eqn:Ha; simpl; [done|]. by rewrite Ha, IH.
Qed.

(** X8. The fetch wrappers never make a download fail: a request
    passed through any stack of them resolves, also when the body cannot
    be read, the database is closed or the put fails. A request whose
    URL is not that of a wheel under a pyodide path changes nothing at
    all, and neither does any request through the progress loggers of
    the worker, however many of them are stacked. *)
Theorem fetch_wrappers_are_transparent
    (E : Env) (f : FetchFn) (d : Download) (w : World) :
  fst (through_fetch E f d w) = Ok tt /\
  (is_pyodide_wheel (dl_url d) = false -> through_fetch E f d w = (Ok tt, w)) /\
  (only_loggers f = true -> through_fetch E f d w = (Ok tt, w)).
Proof.
  split; [apply PreloadFacts.through_fetch_resolves|]. split.
  - intros Hurl. revert w. induction f as [|f IH|f IH]; intros w; simpl; [done|apply IH|].
    unfold bind. rewrite IH. unfold is_pyodide_wheel in Hurl. by rewrite Hurl.
  - revert w. induction f as [|f IH|f IH]; intros w Hf; simpl in *; [done|by apply IH|done].
Qed.

#[local] Instance keeps_absent_steps (name : string) : Steps (keeps_absent name).
Proof.
  split.
  - intros w H. exact H.
  - intros w1 w2 w3 H1 H2 H. by apply H2, H1.
Qed.

Create HintDb absent.

#[local] Ltac absent_auto :=
  repeat first
    [ respects_step
    | apply respects_modify; intros ?; unfold keeps_absent; simpl; done
    | solve [eauto with absent] ].

Lemma absent_record (name : string) (c : Call) : respects (keeps_absent name) (record c).
Proof. unfold record. absent_auto. Qed.
#[local] Hint Resolve absent_record : absent.

Lemma absent_date_now (E : Env) (name : string) :
  respects (keeps_absent name) (date_now E).
Proof. unfold date_now. absent_auto. Qed.
#[local] Hint Resolve absent_date_now : absent.

Lemma absent_initPackageDatabase (E : Env) (name : string) :
  respects (keeps_absent name) (initPackageDatabase E).
Proof. unfold initPackageDatabase. absent_auto. Qed.
#[local] Hint Resolve absent_initPackageDatabase : absent.

Lemma absent_cachePackageWheel (E : Env) (name n u : string) (d : list Byte.byte) :
  n <> name -> respects (keeps_absent name) (cachePackageWheel E n u d).
Proof.
  intros Hne. unfold cachePackageWheel, open_or_log. absent_auto.
  apply respects_modify. intros w0 Hw. simpl. by rewrite lookup_insert_ne.
Qed.

Lemma absent_getCachedPackageWheel (E : Env) (name n : string) :
  respects (keeps_absent name) (getCachedPackageWheel E n).
Proof. unfold getCachedPackageWheel, open_or_log. absent_auto. Qed.
#[local] Hint Resolve absent_getCachedPackageWheel : absent.

Lemma absent_through_fetch (E : Env) (name : string) (f : FetchFn) (d : Download) :
  Js.has_char "-" name = true ->
  respects (keeps_absent name) (through_fetch E f d).
Proof.
  intros Hname. induction f as [|f IH|f IH]; simpl; [absent_auto|done|].
  absent_auto. apply absent_cachePackageWheel. intros <-.
  by rewrite split_first_has_no_sep in Hname.
Qed.

Lemma absent_native_loadPackage (E : Env) (name : string)
    (ambient : World -> FetchFn) (names : list string) :
  Js.has_char "-" name = true ->
  respects (keeps_absent name) (native_loadPackage E ambient names).
Proof.
  intros Hname. unfold native_loadPackage. absent_auto. by apply absent_through_fetch.
Qed.

Lemma absent_split_cached (E : Env) (name : string) (packages c l : list string) :
  respects (keeps_absent name) (split_cached E packages c l).
Proof. revert c l. induction packages as [|p packages IH]; intros c l; simpl; absent_auto. Qed.
#[local] Hint Resolve absent_split_cached : absent.

(** X9. The capturing wrapper files a wheel under the part of its
    file name before the first hyphen. No call of [pyodide.loadPackage],
    with any number of caching wrappers installed, therefore stores a
    wheel under a name that contains a hyphen: such a package, like
    scikit-learn of the build script's list, is never found in the wheel
    cache under its own name. *)
Theorem hyphenated_names_are_never_cached
    (E : Env) (f : LoadPackageFn) (names : list string) (name : string) (w : World) :
  Js.has_char "-" name = true ->
  wheels w !! name = None ->
  wheels (snd (call_loadPackage E f names w)) !! name = None.
Proof.
  intros Hname. revert names w.
  assert (forall names, respects (keeps_absent name) (call_loadPackage E f names)) as Hr.
  { induction f as [|f IH]; intros names; simpl.
    - by apply absent_native_loadPackage.
    - absent_auto. }
  intros names w. apply Hr.
Qed.

Lemma hyphenated_names_are_never_cached_witness :
  wheels (snd (call_loadPackage MoreExamples.downloads_scikit_learn
                 (CachedLoadPackage NativeLoadPackage) ["scikit-learn"] world0))
    !! "scikit-learn" = None.
Proof.
  apply (hyphenated_names_are_never_cached MoreExamples.downloads_scikit_learn
           (CachedLoadPackage NativeLoadPackage) ["scikit-learn"] "scikit-learn" world0);
    reflexivity.
Defined.

Lemma cachePackageWheel_available (E : Env) (n u : string) (d : list Byte.byte) (w : World) :
  db_available E ->
  exists w',
    cachePackageWheel E n u d w = (Ok tt, w') /\
    wheels w' =
      <[n := Wheel.mkPackageWheelCache n u d (env_now E (calls w ++ [CDbOpen]))]> (wheels w) /\
    window_fetch w' = window_fetch w /\
    loads (calls w') = loads (calls w).
Proof.
  intros [Hopen Hreq]. unfold cachePackageWheel, open_or_log, initPackageDatabase.
  run. rewrite Hopen. simpl. rewrite Hreq. simpl.
  eexists. split; [reflexivity|]. simpl. split; [done|]. split; [done|].
  unfold loads. rewrite !omap_app. simpl. by rewrite !app_nil_r.
Qed.

Lemma capture_stores (E : Env) (f : FetchFn) (url : string) (body : list Byte.byte)
    (w : World) :
  db_available E ->
  is_pyodide_wheel url = true ->
  exists w' now,
    through_fetch E (WheelCapture f) (mkDownload url (Some body)) w = (Ok tt, w') /\
    wheels w' !! wheel_name url
      = Some (Wheel.mkPackageWheelCache (wheel_name url) url body now) /\
    window_fetch w' = window_fetch (snd (through_fetch E f (mkDownload url (Some body)) w)) /\
    loads (calls w')
      = loads (calls (snd (through_fetch E f (mkDownload url (Some body)) w))).
Proof.
  intros Hdb Hurl. simpl.
  pose proof (PreloadFacts.through_fetch_resolves E f (mkDownload url (Some body)) w) as Hr.
  destruct (through_fetch E f (mkDownload url (Some body)) w) as [r w0] eqn:Hf.
  simpl in Hr. subst r. unfold bind. rewrite Hf.
  unfold is_pyodide_wheel in Hurl. rewrite Hurl.
  destruct (cachePackageWheel_available E (wheel_name url) url body w0 Hdb)
    as (w' & Hput & Hst & Hwf & Hl).
  exists w', (env_now E (calls w0 ++ [CDbOpen])).
  split; [|split; [by rewrite Hst, lookup_insert_eq|done]].
  apply try_catch_ok. exact Hput.
Qed.

Lemma native_loadPackage_one_download (E : Env) (ambient : World -> FetchFn)
    (names : list string) (d : Download) (w : World) :
  env_loadPackage E (calls w) names = ([d], None) ->
  native_loadPackage E ambient names w =
    (Ok tt,
     snd (through_fetch E (ambient (upd_calls (fun h => h ++ [CLoadPackage names]) w)) d
            (upd_calls (fun h => h ++ [CLoadPackage names]) w))).
Proof.
  intros Hans. unfold native_loadPackage. unfold bind at 1, ask at 1. simpl.
  rewrite Hans. unfold bind at 1, record at 1, modify at 1. simpl.
  set (w1 := upd_calls _ w).
  pose proof (PreloadFacts.through_fetch_resolves E (ambient w1) d w1) as Hr.
  unfold bind, get. simpl.
  destruct (through_fetch E (ambient w1) d w1) as [r w2]. simpl in Hr. subst r.
  reflexivity.
Qed.

(** X10. Download, capture and cache hit compose. With IndexedDB
    available, when the caching loader is asked for a package that has
    no record and the runtime downloads its wheel from a pyodide URL
    whose file name starts with the package name and a hyphen, the call
    resolves after one call of Pyodide's own [loadPackage], the wheel is
    in the store under that name with the bytes downloaded, and
    [window.fetch] is restored. A second request for the same package
    then resolves without any call of Pyodide's own [loadPackage]. *)
Theorem captured_wheel_is_found_on_the_next_load
    (E : Env) (w : World) (name url : string) (body : list Byte.byte) :
  db_available E ->
  (forall h, env_loadPackage E h [name] = ([mkDownload url (Some body)], None)) ->
  is_pyodide_wheel url = true ->
  wheel_name url = name ->
  wheels w !! name = None ->
  exists (w1 w2 : World) (now : Z),
    call_loadPackage E (CachedLoadPackage NativeLoadPackage) [name] w = (Ok tt, w1) /\
    loads (calls w1) = loads (calls w) ++ [[name]] /\
    wheels w1 !! name = Some (Wheel.mkPackageWheelCache name url body now) /\
    window_fetch w1 = window_fetch w /\
    call_loadPackage E (CachedLoadPackage NativeLoadPackage) [name] w1 = (Ok tt, w2) /\
    loads (calls w2) = loads (calls w1).
Proof.
  intros Hdb Hload Hurl Hname Hnone.
  (* the first call *)
  destruct (LoaderFacts.split_cached_available E [name] Hdb [] [] w)
    as (wa & Hsplit & Hwa & Hfa & Hla).
  rewrite filter_cons_False in Hsplit by (rewrite Hnone; by intros [? ?]).
  rewrite filter_cons_True in Hsplit by done.
  rewrite !filter_nil in Hsplit. simpl in Hsplit.
  set (wb := set_window_fetch (WheelCapture (window_fetch wa)) wa).
  pose proof (native_loadPackage_one_download E window_fetch [name]
                (mkDownload url (Some body)) wb (Hload _)) as Hnative.
  set (wc := upd_calls (fun h => h ++ [CLoadPackage [name]]) wb) in Hnative.
  change (window_fetch wc) with (WheelCapture (window_fetch wa)) in Hnative.
  destruct (capture_stores E (window_fetch wa) url body wc Hdb Hurl)
    as (wd & now & Hcap & Hst & Hfd & Hld).
  rewrite Hcap in Hnative. simpl in Hnative.
  rewrite (calm_window_fetch _ _
             (calm_through_fetch E (window_fetch wa) (mkDownload url (Some body)) wc)) in Hfd.
  rewrite (LoaderFacts.no_load_through_fetch E (window_fetch wa)
             (mkDownload url (Some body)) wc) in Hld.
  simpl in Hfd, Hld.
  set (w1 := set_window_fetch (window_fetch wa) wd).
  assert (call_loadPackage E (CachedLoadPackage NativeLoadPackage) [name] w = (Ok tt, w1))
    as Hfirst.
  { simpl. erewrite bind_ok; [|exact Hsplit]. simpl.
    unfold bind at 1, get at 1. simpl. unfold bind at 1, modify at 1. simpl.
    eapply try_finally_runs; [exact Hnative|reflexivity]. }
  assert (wheels w1 !! name = Some (Wheel.mkPackageWheelCache name url body now)) as Hw1
    by (unfold w1; simpl; by rewrite <- Hname).
  (* the second call *)
  destruct (LoaderFacts.split_cached_available E [name] Hdb [] [] w1)
    as (we & Hsplit2 & _ & _ & Hle).
  rewrite filter_cons_True in Hsplit2 by (by rewrite Hw1).
  rewrite filter_cons_False in Hsplit2 by (by rewrite Hw1).
  rewrite !filter_nil in Hsplit2. simpl in Hsplit2.
  exists w1, we, now.
  split; [exact Hfirst|]. split.
  { unfold w1. simpl. rewrite Hld, LoaderFacts.loads_snoc. simpl. by rewrite Hla. }
  split; [exact Hw1|]. split; [unfold w1; simpl; exact Hfa|]. split; [|exact Hle].
  simpl. erewrite bind_ok; [|exact Hsplit2]. reflexivity.
Qed.

Lemma captured_wheel_is_found_on_the_next_load_witness :
  exists (w1 w2 : World),
    call_loadPackage MoreExamples.downloads_numpy (CachedLoadPackage NativeLoadPackage)
      ["numpy"] world0 = (Ok tt, w1) /\
    loads (calls w1) = [["numpy"]] /\
    call_loadPackage MoreExamples.downloads_numpy (CachedLoadPackage NativeLoadPackage)
      ["numpy"] w1 = (Ok tt, w2) /\
    loads (calls w2) = [["numpy"]].
Proof.
  destruct (captured_wheel_is_found_on_the_next_load MoreExamples.downloads_numpy world0
              "numpy" MoreExamples.numpy_url [Byte.x50; Byte.x4b; Byte.x03; Byte.x04])
    as (w1 & w2 & now & H1 & L1 & _ & _ & H2 & L2).
  - split; intros h; reflexivity.
  - intros h. reflexivity.
  - vm_compute. reflexivity.
  - vm_compute. reflexivity.
  - reflexivity.
  - exists w1, w2. split; [exact H1|]. split; [exact L1|]. split; [exact H2|].
    by rewrite L2, L1.
Defined.

Lemma getCachedPackageWheel_closed (E : Env) (name : string) (w : World) :
  env_db_open E (calls w) = false ->
  getCachedPackageWheel E name w = (Ok None, upd_calls (fun h => h ++ [CDbOpen]) w).
Proof.
  intros Hopen. unfold getCachedPackageWheel, open_or_log, initPackageDatabase.
  run. by rewrite Hopen.
Qed.

Lemma split_cached_closed (E : Env) (packages : list string) :
  (forall h, env_db_open E h = false) ->
  forall (c l : list string) (w : World),
    exists w',
      split_cached E packages c l w = (Ok (c, l ++ packages), w') /\
      wheels w' = wheels w /\
      window_fetch w' = window_fetch w /\
      loads (calls w') = loads (calls w).
Proof.
  intros Hdb. induction packages as [|p packages IH]; intros c l w.
  - exists w. simpl. by rewrite app_nil_r.
  - simpl. unfold bind at 1. rewrite (getCachedPackageWheel_closed E p w (Hdb _)).
    destruct (IH c (l ++ [p]) (upd_calls (fun h => h ++ [CDbOpen]) w))
      as (w' & Hrun & Hw & Hf & Hl).
    exists w'. rewrite Hrun, <- app_assoc. split; [done|].
    rewrite Hw, Hf, Hl. simpl. by rewrite LoaderFacts.loads_snoc, app_nil_r.
Qed.

#[local] Instance same_wheels_steps : Steps same_wheels.
Proof.
  split.
  - intros w. reflexivity.
  - intros w1 w2 w3 H1 H2. unfold same_wheels in *. congruence.
Qed.

Lemma same_wheels_through_fetch (E : Env) (f : FetchFn) (d : Download) :
  (forall h, env_db_open E h = false) ->
  respects same_wheels (through_fetch E f d).
Proof.
  intros Hdb. induction f as [|f IH|f IH]; simpl; [by intros w|done|].
  apply respects_bind; [tc_solve|done|]. intros _.
  destruct (_ && _); [|by intros w].
  apply respects_try_catch; [tc_solve| |by intros e w].
  destruct (dl_body d) as [wheelData|]; [|by intros w].
  intros w.
  destruct (WheelFacts.cachePackageWheel_swallows_closed_database E w
              (Js.split_first "-" (Js.split_last "/" (dl_url d))) (dl_url d) wheelData
              (Hdb _)) as (w1 & Hrun & Hw).
  rewrite Hrun. exact Hw.
Qed.

(** X30. The caching loader with a failing cache. When IndexedDB
    cannot be opened, the loader hands every requested name to Pyodide's
    own [loadPackage], in one call, settles as that call does, and stores
    nothing. When the database opens but the read of the first name
    fails, the loader rejects with the error of the read before anything
    is loaded: Pyodide's own [loadPackage] is not called. *)
Theorem caching_loader_with_a_failing_cache
    (E : Env) (name : string) (rest : list string) (w : World) :
  ((forall h, env_db_open E h = false) ->
   let r := call_loadPackage E (CachedLoadPackage NativeLoadPackage) (name :: rest) w in
   loads (calls (snd r)) = loads (calls w) ++ [name :: rest] /\
   (exists h, fst r = match snd (env_loadPackage E h (name :: rest)) with
                      | None => Ok tt
                      | Some e => Throw e
                      end) /\
   wheels (snd r) = wheels w /\
   window_fetch (snd r) = window_fetch w) /\
  (env_db_open E (calls w) = true ->
   env_db_request E (calls w ++ [CDbOpen]) = false ->
   forall f : LoadPackageFn,
     let r := call_loadPackage E (CachedLoadPackage f) (name :: rest) w in
     fst r = Throw ("Failed to retrieve package wheel: " +:+ name) /\
     loads (calls (snd r)) = loads (calls w)).
Proof.
  split.
  - intros Hdb r.
    destruct (split_cached_closed E (name :: rest) Hdb [] [] w)
      as (w1 & Hsplit & Hw1 & Hf1 & Hl1).
    set (wb := set_window_fetch (WheelCapture (window_fetch w1)) w1).
    pose proof (LoaderFacts.native_loadPackage_loads E window_fetch (name :: rest) wb) as HL.
    pose proof (PreloadFacts.native_loadPackage_result E window_fetch (name :: rest) wb) as HR.
    assert (same_wheels wb (snd (native_loadPackage E window_fetch (name :: rest) wb))) as HW.
    { assert (respects same_wheels (native_loadPackage E window_fetch (name :: rest))) as Hr.
      { unfold native_loadPackage, record.
        repeat first
          [ respects_step
          | apply respects_modify; intros ?; reflexivity
          | by apply same_wheels_through_fetch ]. }
      apply Hr. }
    assert (r = (fst (native_loadPackage E window_fetch (name :: rest) wb),
                 set_window_fetch (window_fetch w1)
                   (snd (native_loadPackage E window_fetch (name :: rest) wb)))) as ->.
    { unfold r. simpl. erewrite bind_ok; [|exact Hsplit]. simpl.
      unfold bind at 1, get at 1. simpl. unfold bind at 1, modify at 1. simpl.
      fold wb. eapply try_finally_runs; [|reflexivity]. apply surjective_pairing. }
    simpl. split; [|split; [|split]].
    + rewrite HL. unfold wb. simpl. by rewrite Hl1.
    + exists (calls wb). exact HR.
    + unfold same_wheels in HW. rewrite HW. unfold wb. simpl. exact Hw1.
    + exact Hf1.
  - intros Hopen Hreq f r. unfold r. simpl.
    assert (getCachedPackageWheel E name w
            = (Throw ("Failed to retrieve package wheel: " +:+ name),
               upd_calls (fun h => h ++ [CDbGet name])
                 (upd_calls (fun h => h ++ [CDbOpen]) w))) as Hget.
    { unfold getCachedPackageWheel, open_or_log, initPackageDatabase. run.
      rewrite Hopen. simpl. by rewrite Hreq. }
    erewrite bind_throw; [|erewrite bind_throw; [reflexivity|exact Hget]].
    simpl. split; [done|]. by rewrite !LoaderFacts.loads_snoc, !app_nil_r.
Qed.

End CaptureFacts.

(** ** The worker: messages, cells and the runtime *)

Module WorkerFacts.
Import Rt Worker.

Lemma run_app (E : Env) (ms1 ms2 : list Msg.Request) (w : World) :
  run E (ms1 ++ ms2) w = run E ms2 (run E ms1 w).
Proof. unfold run. apply fold_left_app. Qed.

(** X11. [terminate] is final. Whatever requests were handled before
    and whatever requests follow, after a [terminate] the worker is
    closed, the requests that follow post no message and make no call,
    and, unless the worker was closed already, no cell is left. *)
Theorem terminate_is_final (E : Env) (ms1 ms2 : list Msg.Request) (w : World) :
  let wm := run E ms1 w in
  let wf := run E (ms1 ++ Msg.terminate :: ms2) w in
  closed wf = true /\
  outbox wf = outbox wm /\
  calls wf = calls wm /\
  (closed wm = false -> cells wf = ∅).
Proof.
  intros wm wf. unfold wf. rewrite run_app. fold wm.
  rewrite LifeCycleFacts.run_cons.
  destruct (closed wm) eqn:Hc.
  - rewrite (LifeCycleFacts.handle_closed E _ wm Hc), LifeCycleFacts.run_closed by done.
    by rewrite Hc.
  - rewrite LifeCycleFacts.run_closed; unfold handle; rewrite Hc; done.
Qed.

(** X12. Without a runtime there is no execution. When the worker is
    not initialised and [loadPyodide] rejects, [executeCode] rejects with
    the same reason: no record is created for the cell, no message is
    posted, not even a [result], and neither the imports nor the code are
    passed to the runtime. The worker stays uninitialised, so the next
    request tries to load the runtime again. *)
Theorem executeCode_without_runtime
    (E : Env) (id code : string) (w : World) (e : string) :
  pyodide w = false ->
  env_loadPyodide E (calls w) = Some e ->
  exists w',
    executeCode E id code w = (Throw e, w') /\
    calls w' = calls w ++ [CLoadPyodide] /\
    outbox w' = outbox w /\
    cells w' = ∅ /\
    pyodide w' = false.
Proof.
  intros Hpy Hload.
  eexists. split.
  - eapply ExecFacts.executeCode_boot_fails; [done|].
    unfold initializePyodide, tick. run. rewrite Hpy. simpl. rewrite Hload. simpl.
    reflexivity.
  - by simpl.
Qed.

Lemma executeCode_without_runtime_witness :
  exists w',
    executeCode MoreExamples.no_runtime "c1" "print(1)" world0
      = (Throw "Error: Failed to fetch pyodide.asm.wasm", w') /\
    outbox w' = [] /\
    cells w' = ∅.
Proof.
  destruct (executeCode_without_runtime MoreExamples.no_runtime "c1" "print(1)" world0
              "Error: Failed to fetch pyodide.asm.wasm")
    as (w' & Hrun & _ & Hout & Hcells & _); [reflexivity..|].
  exists w'. split; [exact Hrun|]. split; [exact Hout|exact Hcells].
Defined.

(** X13. On an initialised worker, [executeCode] writes the record of
    its own cell and no other: every other cell is what it was. The
    record it leaves does not depend on the record the id had before:
    output and result of an earlier execution under the same id are
    discarded, not appended to. *)
Theorem executeCode_touches_only_its_cell
    (E : Env) (id code : string) (w : World) :
  pyodide w = true ->
  (forall j, j <> id ->
     cells (snd (executeCode E id code w)) !! j = cells w !! j) /\
  (forall previous : Cell.CellState,
     cells (snd (executeCode E id code (upd_cells (fun m => <[id := previous]> m) w)))
       = cells (snd (executeCode E id code w))).
Proof.
  intros Hpy.
  destruct (ExecFacts.executeCode_initialized E id code w Hpy)
    as (w' & final & _ & _ & Hrun & Hcells & _ & _ & _ & _ & _ & _ & _ & _ & _ & Hfinal).
  rewrite Hrun. simpl. split.
  - intros j Hj. by rewrite Hcells, lookup_insert_ne.
  - intros previous.
    destruct (ExecFacts.executeCode_initialized E id code
                (upd_cells (fun m => <[id := previous]> m) w) Hpy)
      as (w2 & final2 & _ & _ & Hrun2 & Hcells2 & _ & _ & _ & _ & _ & _ & _ & _ & _ & Hfinal2).
    rewrite Hrun2. simpl. rewrite Hcells2, Hcells. simpl.
    rewrite insert_insert_eq. simpl in Hfinal2. congruence.
Qed.

Lemma executeCode_touches_only_its_cell_witness :
  cells (snd (executeCode Examples.printing "b" "print(1)"
                (upd_cells (fun m => <[ "a" := fresh_cell "a" ]> m) MoreExamples.booted)))
    !! "a" = Some (fresh_cell "a").
Proof.
  destruct (executeCode_touches_only_its_cell Examples.printing "b" "print(1)"
              (upd_cells (fun m => <[ "a" := fresh_cell "a" ]> m) MoreExamples.booted))
    as [Hother _]; [reflexivity|].
  rewrite Hother; [reflexivity|discriminate].
Defined.

(** X14. The state reported on [getState] after an execution contains
    the record that the [result] message of that execution carried. The
    event loop hands an [execute] request to [onmessage], resumes the
    handler until it has settled, and nothing else meanwhile, whatever
    else is suspended, and then hands over [getState]. The worker is
    open and initialised and its runtime has not been replaced; the id
    is not [__proto__], which a JavaScript object does not keep as a key
    of its own, and no earlier cell has that id; the results of the
    earlier cells and the value of the code, if it runs to one, can be
    cloned. Then the two requests post, after the output of the
    execution, one [result] and one [kernelState] that agree on the
    cell. *)
Theorem getState_reports_the_result
    (E : Env) (output : list Call -> list OutChunk) (receiver : list Call -> option string)
    (id code : string) (cfg : Async.Config) :
  (forall h, receiver h = None) ->
  pyodide (Async.world cfg) = true ->
  closed (Async.world cfg) = false ->
  Js.truthy id = true ->
  Js.truthy code = true ->
  id <> "__proto__" ->
  cells (Async.world cfg) !! "__proto__" = None ->
  map_Forall (fun _ c => Js.clonable (Cell.result c) = true) (cells (Async.world cfg)) ->
  (forall v,
     snd (env_imports E (calls (Async.world cfg)) code) = None ->
     snd (env_user_code E (calls (Async.world cfg) ++ [CLoadPackagesFromImports code]) code)
       = Ok v ->
     Js.clonable v = true) ->
  let execute := Msg.execute (Some id) (Some code) in
  let final :=
    Async.world
      (fst (Async.schedule E output receiver
              (Async.Dispatch execute ::
                 replicate
                   (Async.resumes (Async.onmessage E output receiver execute)
                      (Async.world cfg))
                   (Async.Resume 0) ++
                 [Async.Dispatch Msg.getState])
              cfg)) in
  exists (c : Cell.CellState) (posted : list Msg.Message)
         (state : gmap string Cell.CellState),
    outbox final
      = outbox (Async.world cfg) ++ posted ++ [Msg.result id (Some c); Msg.kernelState state] /\
    Forall (fun m => Msg.is_result m = false) posted /\
    state !! id = Some c /\
    state !! "__proto__" = None /\
    state = cells final.
Proof.
  intros Hrec Hpy Hcl Hid Hcode Hproto Hnone Hall Hclone execute final.
  subst execute final.
  destruct (ExecFacts.executeCode_reports_clonable_outcome E id code (Async.world cfg)
              (or_introl Hpy))
    as (w' & c & posted & Hrun & Hc & _ & Hout & Hposted & Hcase).
  { rewrite Hpy. exact Hclone. }
  destruct (ExecFacts.executeCode_initialized E id code (Async.world cfg) Hpy)
    as (w2 & final2 & _ & _ & Hrun2 & Hcells & _ & _ & _ & _ & _ & _ & Hcl' & _).
  assert (w2 = w') as -> by congruence.
  assert (final2 = c) as -> by (rewrite Hcells, lookup_insert_eq in Hc; congruence).
  assert (Msg.clonable (Msg.kernelState (cells w')) = true) as Hk.
  { simpl. apply bool_decide_eq_true. rewrite Hcells.
    apply map_Forall_insert_2; [|exact Hall].
    destruct (Js.clonable (Cell.result c)); [done|]. rewrite Hrun in Hrun2. discriminate. }
  pose proof (AsyncFacts.execute_on_the_event_loop E output receiver Hrec id code cfg
                Hpy Hcl Hid Hcode) as Halone.
  rewrite Hrun in Halone.
  rewrite app_comm_cons, AsyncFacts.schedule_app.
  destruct (fst (Async.schedule E output receiver (_ :: replicate _ _) cfg)) as [wx px].
  simpl in Halone. subst wx.
  cbn [Async.schedule fst]. unfold Async.turn. cbn [Async.world].
  rewrite Hcl', Hcl.
  cbn [Async.onmessage Async.advance Async.now fst snd Async.after Async.world].
  unfold bind, get, postMessage. rewrite Hk. simpl.
  exists c, posted, (cells w').
  split; [|split; [done|split; [done|split; [|done]]]].
  - rewrite Hout, <- !app_assoc. reflexivity.
  - rewrite Hcells, lookup_insert_ne by done. exact Hnone.
Qed.

Lemma getState_reports_the_result_witness :
  exists (c : Cell.CellState) (posted : list Msg.Message)
         (state : gmap string Cell.CellState),
    outbox
      (Async.world
         (fst (Async.schedule Examples.printing AsyncExamples.silent AsyncExamples.current
                 (Async.Dispatch (Msg.execute (Some "c1") (Some "print(1)")) ::
                    replicate
                      (Async.resumes
                         (Async.onmessage Examples.printing AsyncExamples.silent
                            AsyncExamples.current
                            (Msg.execute (Some "c1") (Some "print(1)")))
                         MoreExamples.booted)
                      (Async.Resume 0) ++
                    [Async.Dispatch Msg.getState])
                 (Async.at_rest MoreExamples.booted))))
      = posted ++ [Msg.result "c1" (Some c); Msg.kernelState state] /\
    state !! "c1" = Some c.
Proof.
  destruct (getState_reports_the_result Examples.printing AsyncExamples.silent
              AsyncExamples.current "c1" "print(1)" (Async.at_rest MoreExamples.booted))
    as (c & posted & state & Hout & _ & Hc & _);
    [reflexivity|reflexivity|reflexivity|reflexivity|reflexivity|discriminate|reflexivity
    |apply map_Forall_empty|intros v _ Hv; vm_compute in Hv; by injection Hv as <-|].
  exists c, posted, state. split; [exact Hout|exact Hc].
Defined.

#[local] Instance stays_loaded_steps : Steps stays_loaded.
Proof.
  split.
  - intros w. by split.
  - intros w1 w2 w3 [A1 B1 C1] [A2 B2 C2]. split; intros H.
    + auto.
    + rewrite B2, B1; auto.
    + rewrite C2, C1; auto.
Qed.

Lemma loadPyodide_calls_snoc (h : list Call) (c : Call) :
  loadPyodide_calls (h ++ [c])
    = loadPyodide_calls h + match c with CLoadPyodide => 1 | _ => 0 end.
Proof.
  unfold loadPyodide_calls. rewrite omap_app, length_app. by destruct c.
Qed.

Create HintDb loaded.

#[local] Ltac loaded_frame :=
  intros ?; split; simpl; intros; rewrite ?loadPyodide_calls_snoc; simpl;
  rewrite ?Nat.add_0_r; done.

#[local] Ltac loaded_auto :=
  repeat first
    [ respects_step
    | apply respects_modify; loaded_frame
    | solve [eauto with loaded] ].

Lemma loaded_tick : respects stays_loaded tick.
Proof. unfold tick. loaded_auto. Qed.
#[local] Hint Resolve loaded_tick : loaded.

Lemma loaded_postMessage (m : Msg.Message) : respects stays_loaded (postMessage m).
Proof. unfold postMessage. loaded_auto. Qed.
#[local] Hint Resolve loaded_postMessage : loaded.

Lemma loaded_modify_cell (id : string) (f : Cell.CellState -> Cell.CellState) :
  respects stays_loaded (modify_cell id f).
Proof. unfold modify_cell. loaded_auto. Qed.
#[local] Hint Resolve loaded_modify_cell : loaded.

Lemma loaded_deliver (c : OutChunk) : respects stays_loaded (deliver c).
Proof. unfold deliver. loaded_auto. Qed.
#[local] Hint Resolve loaded_deliver : loaded.

Lemma loaded_note (id : string) (n : LoadNote) : respects stays_loaded (note id n).
Proof. unfold note. loaded_auto. Qed.
#[local] Hint Resolve loaded_note : loaded.

Lemma loaded_loadPackagesFromImports (E : Env) (id code : string) :
  respects stays_loaded (loadPackagesFromImports E id code).
Proof. unfold loadPackagesFromImports, record. loaded_auto. Qed.
#[local] Hint Resolve loaded_loadPackagesFromImports : loaded.

Lemma loaded_runUserCode (E : Env) (code : string) :
  respects stays_loaded (runUserCode E code).
Proof. unfold runUserCode, record. loaded_auto. Qed.
#[local] Hint Resolve loaded_runUserCode : loaded.

Lemma loaded_initializePyodide (E : Env) : respects stays_loaded (initializePyodide E).
Proof.
  intros w. destruct (pyodide w) eqn:Hpy.
  - rewrite (ExecFacts.initializePyodide_idle E w Hpy). by split.
  - split; congruence.
Qed.
#[local] Hint Resolve loaded_initializePyodide : loaded.

Lemma loaded_executeCode (E : Env) (id code : string) :
  respects stays_loaded (executeCode E id code).
Proof. unfold executeCode. loaded_auto. Qed.
#[local] Hint Resolve loaded_executeCode : loaded.

Lemma loaded_onmessage (E : Env) (m : Msg.Request) :
  respects stays_loaded (onmessage E m).
Proof. destruct m; simpl; loaded_auto. Qed.

Lemma loaded_handle (E : Env) (m : Msg.Request) (w : World) :
  stays_loaded w (handle E w m).
Proof.
  unfold handle. destruct (closed w); [by split|]. apply loaded_onmessage.
Qed.

Lemma loaded_run (E : Env) (ms : list Msg.Request) (w : World) :
  stays_loaded w (run E ms w).
Proof.
  revert w. induction ms as [|m ms IH]; intros w; [by split|].
  rewrite LifeCycleFacts.run_cons.
  eapply R_trans; [apply loaded_handle|apply IH].
Qed.




(** X17. Output is forwarded in the order it is produced. On an
    initialised worker, for a call of [executeCode] that runs from its
    start to its settlement with no other code of the worker in
    between, as it does when the event loop resumes nothing else
    meanwhile: the runtime is asked to resolve the imports and, only if
    that succeeds, to run the code. The call posts one message for every
    note of the import resolution, then one for every chunk the code
    writes, each with the id of the cell and in the order of production.
    If the result of the final record can be cloned, which it can unless
    the code ran to a value that is a proxy, the [result] message with
    the final record follows as the last message and the call resolves;
    if not, no [result] message is posted and the call rejects. Nothing
    else is posted. *)
Theorem executeCode_streams_in_order (E : Env) (id code : string) (w : World) :
  pyodide w = true ->
  let imp := env_imports E (calls w) code in
  let usr := env_user_code E (calls w ++ [CLoadPackagesFromImports code]) code in
  exists (w' : World) (final : Cell.CellState),
    cells w' !! id = Some final /\
    Cell.result final =
      match snd imp, snd usr with
      | None, Ok v => v
      | _, _ => Js.JsNull
      end /\
    calls w' =
      calls w ++ CLoadPackagesFromImports code ::
        match snd imp with Some _ => [] | None => [CRunUserCode code] end /\
    executeCode E id code w =
      (if Js.clonable (Cell.result final) then Ok tt
       else Throw "DataCloneError: The object could not be cloned.", w') /\
    outbox w' =
      outbox w ++ map (note_message id) (fst imp) ++
        match snd imp with
        | Some _ => []
        | None => map (chunk_message id) (fst usr)
        end ++
        (if Js.clonable (Cell.result final) then [Msg.result id (Some final)] else []).
Proof.
  intros Hpy imp usr.
  destruct (ExecFacts.executeCode_initialized E id code w Hpy)
    as (w' & final & posted & _ & Hrun & Hcells & Hout & _ & _ & _ & _ & _ & _
        & Hcalls & Hposted & Hfinal).
  simpl in Hcalls, Hposted, Hfinal. fold imp usr in Hcalls, Hposted, Hfinal.
  exists w', final.
  split; [rewrite Hcells; apply lookup_insert_eq|].
  split; [|split; [exact Hcalls|split; [exact Hrun|]]].
  - rewrite Hfinal. destruct (snd imp); [apply ExecFacts.failed_cell_result|].
    destruct (snd usr); [apply ExecFacts.completed_cell_result|].
    apply ExecFacts.failed_cell_result.
  - rewrite Hout, Hposted, <- !app_assoc. reflexivity.
Qed.

Lemma executeCode_streams_in_order_witness :
  exists (w' : World) (final : Cell.CellState),
    executeCode Examples.raising "t2" "raise Exception('x')" MoreExamples.booted
      = (Ok tt, w') /\
    outbox w' =
      [Msg.stdout "t2" false "start"; Msg.stderr "t2" false "warning";
       Msg.result "t2" (Some final)].
Proof.
  destruct (executeCode_streams_in_order Examples.raising "t2" "raise Exception('x')"
              MoreExamples.booted)
    as (w' & final & _ & Hres & _ & Hrun & Hout); [reflexivity|].
  simpl in Hres. rewrite Hres in Hrun, Hout.
  exists w', final. split; [exact Hrun|exact Hout].
Defined.

End WorkerFacts.

(** ** The loader utility: installing and preloading *)

Module InstallerFacts.
Import Rt Loader.

Lemma call_loadPackage_ok (E : Env) (f : LoadPackageFn) :
  runtime_ok E -> db_available E ->
  forall (names : list string) (w : World), fst (call_loadPackage E f names w) = Ok tt.
Proof.
  intros Hrt Hdb. induction f as [|f IH]; intros names w; simpl.
  - rewrite PreloadFacts.native_loadPackage_result. destruct Hrt as (Hload & _).
    by rewrite Hload.
  - destruct (LoaderFacts.split_cached_available E names Hdb [] [] w) as (w1 & Hrun & _).
    unfold bind at 1. rewrite Hrun. cbv beta iota zeta.
    destruct (0 <? length _); [|done].
    unfold bind, get, modify, try_finally. simpl.
    specialize (IH (snd ([] ++ filter (fun p => is_Some (wheels w !! p)) names,
                         [] ++ filter (fun p => wheels w !! p = None) names))
                   (set_window_fetch (WheelCapture (window_fetch w1)) w1)).
    by destruct (call_loadPackage E f _ _) as [r w2].
Qed.

Lemma checkMissingPackages_answers (E : Env) (packages : list string) (w : World) :
  env_runPython E (calls w) (PyCheckMissing (map Js.toLowerCase packages)) = None ->
  packages <> [] ->
  checkMissingPackages E (Some packages) w
    = (Ok (Some (filter (fun p => p ∉ installed_modules (env_sys_modules E (calls w)))
                   (map Js.toLowerCase packages))),
       upd_calls (fun h => h ++ [CRunPython (PyCheckMissing (map Js.toLowerCase packages))]) w).
Proof.
  intros Hpy Hne. destruct packages as [|p ps]; [done|].
  unfold checkMissingPackages. run. rewrite Hpy. reflexivity.
Qed.

(** X18. With a runtime, a database and an installer that work,
    [installMissingPackages], given a list that is not empty, asks the
    runtime which of the requested names, in lower case, are not among its loaded modules, and installs
    exactly those, in lower case and in their order, in one install
    call. When none is missing it resolves after the query alone: it
    loads nothing, imports nothing and installs nothing. *)
Theorem installMissingPackages_installs_the_missing
    (E : Env) (packages : list string) (w : World) :
  runtime_ok E ->
  db_available E ->
  installs_ok E ->
  packages <> [] ->
  let query := CRunPython (PyCheckMissing (map Js.toLowerCase packages)) in
  let missing :=
    filter (fun p => p ∉ installed_modules (env_sys_modules E (calls w)))
      (map Js.toLowerCase packages) in
  exists w',
    installMissingPackages E packages w = (Ok tt, w') /\
    installs (calls w')
      = installs (calls w) ++ match missing with [] => [] | _ => [missing] end /\
    (missing = [] -> w' = upd_calls (fun h => h ++ [query]) w).
Proof.
  intros Hrt Hdb Hinst Hne query missing.
  pose proof Hrt as (_ & Himp & Hpy).
  pose proof (checkMissingPackages_answers E packages w (Hpy _ _) Hne) as Hcheck.
  fold missing in Hcheck. fold query in Hcheck.
  set (w1 := upd_calls (fun h => h ++ [query]) w) in *.
  rewrite LoaderFacts.installMissingPackages_unfold.
  destruct missing as [|m ms] eqn:Hm.
  - exists w1. split; [|split; [|done]].
    + apply try_catch_ok. unfold install_missing.
      erewrite bind_ok; [|exact Hcheck]. reflexivity.
    + unfold w1. simpl. by rewrite installs_snoc.
  - pose proof (call_loadPackage_ok E (loadPackage w1) Hrt Hdb ["micropip"] w1) as Hok.
    pose proof (calm_pyodide_loadPackage E ["micropip"] w1) as C2.
    assert (pyodide_loadPackage E ["micropip"] w1
            = call_loadPackage E (loadPackage w1) ["micropip"] w1) as Hpl by reflexivity.
    rewrite <- Hpl in Hok.
    destruct (pyodide_loadPackage E ["micropip"] w1) as [r w2] eqn:H2.
    simpl in Hok, C2. subst r.
    exists (upd_calls (fun h => h ++ [CInstall (m :: ms)])
              (upd_calls (fun h => h ++ [CPyimport "micropip"]) w2)).
    split; [|split; [|done]].
    + apply try_catch_ok. unfold install_missing.
      erewrite bind_ok; [|exact Hcheck].
      erewrite bind_ok; [|reflexivity].
      change (length (m :: ms) =? 0) with false. cbv iota.
      erewrite bind_ok; [|exact H2].
      unfold pyimport. run. rewrite Himp. simpl. by rewrite Hinst.
    + simpl. rewrite !installs_snoc, app_nil_r. destruct C2 as [_ _ _ _ ->].
      unfold w1. simpl. by rewrite installs_snoc, app_nil_r.
Qed.

Lemma installMissingPackages_installs_the_missing_witness :
  exists w',
    installMissingPackages MoreExamples.numpy_loaded ["NumPy"; "Pandas"] world0 = (Ok tt, w') /\
    installs (calls w') = [["pandas"]].
Proof.
  destruct (installMissingPackages_installs_the_missing MoreExamples.numpy_loaded
              ["NumPy"; "Pandas"] world0) as (w' & Hrun & Hinst & _).
  - repeat split.
  - split; intros h; reflexivity.
  - intros h names. reflexivity.
  - discriminate.
  - exists w'. split; [exact Hrun|]. rewrite Hinst. vm_compute. reflexivity.
Defined.

#[local] Instance same_loadPackage_steps : Steps same_loadPackage.
Proof.
  split.
  - intros w. reflexivity.
  - intros w1 w2 w3 H1 H2. unfold same_loadPackage in *. congruence.
Qed.

Create HintDb wrapper.

#[local] Ltac wrapper_auto :=
  repeat first
    [ respects_step
    | apply respects_modify; intros ?; reflexivity
    | solve [eauto with wrapper] ].

Lemma wrapper_record (c : Call) : respects same_loadPackage (record c).
Proof. unfold record. wrapper_auto. Qed.
#[local] Hint Resolve wrapper_record : wrapper.

Lemma wrapper_date_now (E : Env) : respects same_loadPackage (date_now E).
Proof. unfold date_now. wrapper_auto. Qed.
#[local] Hint Resolve wrapper_date_now : wrapper.

Lemma wrapper_runPythonAsync (E : Env) (s : PyScript) :
  respects same_loadPackage (runPythonAsync E s).
Proof. unfold runPythonAsync. wrapper_auto. Qed.
#[local] Hint Resolve wrapper_runPythonAsync : wrapper.

Lemma wrapper_pyimport (E : Env) (n : string) : respects same_loadPackage (pyimport E n).
Proof. unfold pyimport. wrapper_auto. Qed.
#[local] Hint Resolve wrapper_pyimport : wrapper.

Lemma wrapper_micropip_install (E : Env) (names : list string) :
  respects same_loadPackage (micropip_install E names).
Proof. unfold micropip_install. wrapper_auto. Qed.
#[local] Hint Resolve wrapper_micropip_install : wrapper.

Lemma wrapper_initPackageDatabase (E : Env) :
  respects same_loadPackage (initPackageDatabase E).
Proof. unfold initPackageDatabase. wrapper_auto. Qed.
#[local] Hint Resolve wrapper_initPackageDatabase : wrapper.

Lemma wrapper_cachePackageWheel (E : Env) (n u : string) (d : list Byte.byte) :
  respects same_loadPackage (cachePackageWheel E n u d).
Proof. unfold cachePackageWheel, open_or_log. wrapper_auto. Qed.
#[local] Hint Resolve wrapper_cachePackageWheel : wrapper.

Lemma wrapper_getCachedPackageWheel (E : Env) (n : string) :
  respects same_loadPackage (getCachedPackageWheel E n).
Proof. unfold getCachedPackageWheel, open_or_log. wrapper_auto. Qed.
#[local] Hint Resolve wrapper_getCachedPackageWheel : wrapper.

Lemma wrapper_through_fetch (E : Env) (f : FetchFn) (d : Download) :
  respects same_loadPackage (through_fetch E f d).
Proof. induction f as [|f IH|f IH]; simpl; wrapper_auto. Qed.
#[local] Hint Resolve wrapper_through_fetch : wrapper.

Lemma wrapper_native_loadPackage (E : Env) (ambient : World -> FetchFn)
    (names : list string) :
  respects same_loadPackage (native_loadPackage E ambient names).
Proof. unfold native_loadPackage. wrapper_auto. Qed.
#[local] Hint Resolve wrapper_native_loadPackage : wrapper.

Lemma wrapper_split_cached (E : Env) (packages c l : list string) :
  respects same_loadPackage (split_cached E packages c l).
Proof. revert c l. induction packages; intros c l; simpl; wrapper_auto. Qed.
#[local] Hint Resolve wrapper_split_cached : wrapper.

Lemma wrapper_call_loadPackage (E : Env) (f : LoadPackageFn) (names : list string) :
  respects same_loadPackage (call_loadPackage E f names).
Proof. revert names. induction f as [|f IH]; intros names; simpl; wrapper_auto. Qed.
#[local] Hint Resolve wrapper_call_loadPackage : wrapper.

Lemma wrapper_pyodide_loadPackage (E : Env) (names : list string) :
  respects same_loadPackage (pyodide_loadPackage E names).
Proof. unfold pyodide_loadPackage. wrapper_auto. Qed.
#[local] Hint Resolve wrapper_pyodide_loadPackage : wrapper.

Lemma wrapper_checkMissingPackages (E : Env) (packages : option (list string)) :
  respects same_loadPackage (checkMissingPackages E packages).
Proof. unfold checkMissingPackages. wrapper_auto. Qed.
#[local] Hint Resolve wrapper_checkMissingPackages : wrapper.

Lemma preloadPyodidePackages_loadPackage (E : Env) (packages : list string)
    (forceReload useCache : bool) (w : World) :
  loadPackage (snd (preloadPyodidePackages E packages forceReload useCache w))
    = if useCache then CachedLoadPackage (loadPackage w) else loadPackage w.
Proof.
  unfold preloadPyodidePackages.
  match goal with
  | |- context [try_catch (bind ?setup ?k) ?h] =>
      assert (respects same_loadPackage (try_catch (k tt) h)) as Hrest
        by (unfold the_array; wrapper_auto);
      assert (forall w0 : World,
                snd (try_catch (bind setup k) h w) = snd (try_catch (k tt) h w0) ->
                loadPackage (snd (try_catch (bind setup k) h w)) = loadPackage w0) as Hgo
        by (intros w0 ->; apply Hrest)
  end.
  destruct useCache.
  - apply (Hgo (set_loadPackage (CachedLoadPackage (loadPackage w)) w)). reflexivity.
  - apply (Hgo w). reflexivity.
Qed.

(** X19. Every call of [preloadPyodidePackages] with the cache
    enabled, which is the default, wraps [pyodide.loadPackage] once more
    around the function found there, and nothing in the call takes a
    wrapper off again, on no path: after [n] such calls the function is
    wrapped [n] times. With the cache disabled the function is left as it
    is. *)
Theorem preloadPyodidePackages_stacks_wrappers
    (E : Env) (packages : list string) (forceReload : bool) (w : World) (n : nat) :
  loadPackage (snd (preloadPyodidePackages E packages forceReload false w))
    = loadPackage w /\
  loadPackage (snd (preloadPyodidePackages E packages forceReload true w))
    = CachedLoadPackage (loadPackage w) /\
  loadPackage
    (Nat.iter n (fun w0 => snd (preloadPyodidePackages E packages forceReload true w0)) w)
    = Nat.iter n CachedLoadPackage (loadPackage w).
Proof.
  split; [apply preloadPyodidePackages_loadPackage|].
  split; [apply preloadPyodidePackages_loadPackage|].
  induction n as [|n IH]; [done|].
  simpl. by rewrite preloadPyodidePackages_loadPackage, IH.
Qed.

#[local] Instance adds_plain_calls_steps : Steps adds_plain_calls.
Proof.
  split.
  - intros w. exists []. by rewrite app_nil_r.
  - intros w1 w2 w3 (m1 & H1 & F1) (m2 & H2 & F2). exists (m1 ++ m2).
    split; [by rewrite H2, H1, app_assoc|by apply Forall_app].
Qed.

Create HintDb plain.

#[local] Ltac plain_frame :=
  intros ?;
  first [ exists []; split; [simpl; by rewrite app_nil_r|constructor]
        | eexists [_]; split; [simpl; reflexivity|by repeat constructor] ].

#[local] Ltac plain_auto :=
  repeat first
    [ respects_step
    | apply respects_modify; plain_frame
    | solve [eauto with plain] ].

Lemma plain_date_now (E : Env) : respects adds_plain_calls (date_now E).
Proof. unfold date_now, record. plain_auto. Qed.
#[local] Hint Resolve plain_date_now : plain.

Lemma plain_initPackageDatabase (E : Env) :
  respects adds_plain_calls (initPackageDatabase E).
Proof. unfold initPackageDatabase, record. plain_auto. Qed.
#[local] Hint Resolve plain_initPackageDatabase : plain.

Lemma plain_cachePackageWheel (E : Env) (n u : string) (d : list Byte.byte) :
  respects adds_plain_calls (cachePackageWheel E n u d).
Proof. unfold cachePackageWheel, open_or_log, record. plain_auto. Qed.
#[local] Hint Resolve plain_cachePackageWheel : plain.

Lemma plain_getCachedPackageWheel (E : Env) (n : string) :
  respects adds_plain_calls (getCachedPackageWheel E n).
Proof. unfold getCachedPackageWheel, open_or_log, record. plain_auto. Qed.
#[local] Hint Resolve plain_getCachedPackageWheel : plain.

Lemma plain_through_fetch (E : Env) (f : FetchFn) (d : Download) :
  respects adds_plain_calls (through_fetch E f d).
Proof. induction f as [|f IH|f IH]; simpl; plain_auto. Qed.
#[local] Hint Resolve plain_through_fetch : plain.

Lemma plain_native_loadPackage (E : Env) (ambient : World -> FetchFn)
    (names : list string) :
  respects adds_plain_calls (native_loadPackage E ambient names).
Proof. unfold native_loadPackage, record. plain_auto. Qed.
#[local] Hint Resolve plain_native_loadPackage : plain.

Lemma plain_split_cached (E : Env) (packages c l : list string) :
  respects adds_plain_calls (split_cached E packages c l).
Proof. revert c l. induction packages; intros c l; simpl; plain_auto. Qed.
#[local] Hint Resolve plain_split_cached : plain.

Lemma plain_call_loadPackage (E : Env) (f : LoadPackageFn) (names : list string) :
  respects adds_plain_calls (call_loadPackage E f names).
Proof. revert names. induction f as [|f IH]; intros names; simpl; plain_auto. Qed.

(** X20. With [forceReload], and a runtime, a database and an
    installer that work, [preloadPyodidePackages] does not ask which
    packages are loaded: after loading and importing micropip, the only
    Python snippet it runs is the one that prints what is available, and
    it passes the whole list, as it was given, to one install call, also
    when every package is loaded already and also when the list is
    empty. *)
Theorem preloadPyodidePackages_forced
    (E : Env) (packages : list string) (useCache : bool) (w : World) :
  runtime_ok E ->
  db_available E ->
  installs_ok E ->
  exists (w' : World) (made : list Call),
    preloadPyodidePackages E packages true useCache w = (Ok tt, w') /\
    calls w' =
      calls w ++ made ++
        [CPyimport "micropip"; CRunPython PyShowAvailable; CInstall packages] /\
    Forall (fun c => is_script_or_install c = false) made.
Proof.
  intros Hrt Hdb Hinst. pose proof Hrt as (_ & Himp & Hpy).
  unfold preloadPyodidePackages.
  set (w0 := if useCache then set_loadPackage (CachedLoadPackage (loadPackage w)) w else w).
  assert (calls w0 = calls w) as Hc0 by (unfold w0; by destruct useCache).
  pose proof (call_loadPackage_ok E (loadPackage w0) Hrt Hdb ["micropip"] w0) as Hok.
  destruct (plain_call_loadPackage E (loadPackage w0) ["micropip"] w0)
    as (made & Hmade & Hplain).
  assert (pyodide_loadPackage E ["micropip"] w0
          = call_loadPackage E (loadPackage w0) ["micropip"] w0) as Hpl by reflexivity.
  rewrite <- Hpl in Hok, Hmade.
  destruct (pyodide_loadPackage E ["micropip"] w0) as [r w2] eqn:H2.
  simpl in Hok, Hmade. subst r.
  exists (upd_calls (fun h => h ++ [CInstall packages])
            (upd_calls (fun h => h ++ [CRunPython PyShowAvailable])
               (upd_calls (fun h => h ++ [CPyimport "micropip"]) w2))), made.
  split; [|split; [|done]].
  - apply try_catch_ok.
    assert ((if useCache then setupCachedPackageLoader else ret tt) w = (Ok tt, w0)) as Hs
      by (unfold w0; by destruct useCache).
    erewrite bind_ok; [|exact Hs].
    erewrite bind_ok; [|exact H2].
    unfold pyimport, runPythonAsync. run. rewrite Himp. simpl. rewrite Hpy. simpl.
    by rewrite Hinst.
  - simpl. rewrite Hmade, Hc0, <- !app_assoc. reflexivity.
Qed.

Lemma preloadPyodidePackages_forced_witness :
  exists (w' : World) (made : list Call),
    preloadPyodidePackages MoreExamples.numpy_loaded ["numpy"] true true world0 = (Ok tt, w') /\
    calls w' =
      made ++ [CPyimport "micropip"; CRunPython PyShowAvailable; CInstall ["numpy"]].
Proof.
  destruct (preloadPyodidePackages_forced MoreExamples.numpy_loaded ["numpy"] true world0)
    as (w' & made & Hrun & Hcalls & _).
  - repeat split.
  - split; intros h; reflexivity.
  - intros h names. reflexivity.
  - exists w', made. split; [exact Hrun|exact Hcalls].
Defined.

End InstallerFacts.

(** ** The package manager: registry and predefined list *)

Module ManagerFacts.
Import Rt Registry Manager.

Lemma run_ops_cons (o : RegistryOp) (ops : list RegistryOp) (c : PackageCache) :
  run_ops (o :: ops) c = run_ops ops (apply_op o c).
Proof. reflexivity. Qed.

Lemma run_ops_in_source (ops : list RegistryOp) :
  forallb in_source ops = true ->
  forall (c : PackageCache) (n : string),
    loading (run_ops ops c) ⊆ loading c /\
    (n ∈ loaded (run_ops ops c) <-> n ∈ loaded c \/ OpMarkLoaded n ∈ ops) /\
    (n ∈ failed (run_ops ops c) <-> n ∈ failed c \/ OpMarkFailed n ∈ ops).
Proof.
  induction ops as [|o ops IH]; intros Hsrc c n.
  - simpl. split; [done|]. split; split; try (by left); by intros [?|?%elem_of_nil].
  - simpl in Hsrc. apply andb_true_iff in Hsrc as [Ho Hsrc].
    rewrite run_ops_cons. destruct (IH Hsrc (apply_op o c) n) as (Hl & Hld & Hf).
    rewrite Hld, Hf. destruct o as [m|m|m]; [done| |]; simpl in *.
    + split; [set_solver|]. split; [|set_solver].
      rewrite elem_of_cons. split.
      * intros [[?| ->%elem_of_singleton]%elem_of_union|?]; auto.
      * intros [?|[[= ->]|?]]; [left|left|right]; set_solver.
    + split; [set_solver|]. split; [set_solver|].
      rewrite elem_of_cons. split.
      * intros [[?| ->%elem_of_singleton]%elem_of_union|?]; auto.
      * intros [?|[[= ->]|?]]; [left|left|right]; set_solver.
Qed.

(** X21. With the two operations the source has, the registry only
    grows. Starting from the empty registry, after any sequence of
    [markPackageAsLoaded] and [markPackageAsFailed], the [loading] set is
    empty, [isPackageLoaded] holds of a name exactly when the name was
    ever marked as loaded, and a name is in [failed] exactly when it was
    ever marked as failed: no later operation takes either mark back. *)
Theorem registry_only_grows (ops : list RegistryOp) (n : string) :
  forallb in_source ops = true ->
  loading (run_ops ops packageCache) = ∅ /\
  (isPackageLoaded n (run_ops ops packageCache) = true <-> OpMarkLoaded n ∈ ops) /\
  (n ∈ failed (run_ops ops packageCache) <-> OpMarkFailed n ∈ ops).
Proof.
  intros Hsrc. destruct (run_ops_in_source ops Hsrc packageCache n) as (Hl & Hld & Hf).
  simpl in *. split; [set_solver|]. split.
  - unfold isPackageLoaded. rewrite bool_decide_eq_true, Hld. set_solver.
  - rewrite Hf. set_solver.
Qed.

Lemma registry_only_grows_witness :
  isPackageLoaded "numpy"
    (run_ops [OpMarkLoaded "numpy"; OpMarkFailed "pandas"; OpMarkFailed "numpy"] packageCache)
    = true.
Proof.
  apply (registry_only_grows
           [OpMarkLoaded "numpy"; OpMarkFailed "pandas"; OpMarkFailed "numpy"] "numpy");
    [reflexivity|apply list_elem_of_here].
Defined.

(** X22. [getPredefinedPackages] never rejects. Outside the browser
    it returns the empty list without sending a request. In the browser
    it sends one request and returns the [packages] array of the body
    whatever the status of the response is, also for an error status,
    and the empty list when the request rejects, the body is not JSON, is
    [null] or has no [packages]. *)
Theorem getPredefinedPackages_ignores_the_status (E : Env) (w : World) :
  getPredefinedPackages E false w = (Ok [], w) /\
  getPredefinedPackages E true w =
    (Ok match env_fetch_list E (calls w) with
        | HttpResponse _ (BodyPackages p) => p
        | _ => []
        end,
     upd_calls (fun h => h ++ [CFetchPackageList]) w).
Proof.
  split; [reflexivity|].
  unfold getPredefinedPackages. run.
  destruct (env_fetch_list E (calls w)) as [e|status body]; simpl; [done|].
  by destruct body.
Qed.

End ManagerFacts.

(** ** The worker: what the background preload installs *)

Module BatchFacts.
Import Rt Worker.

Lemma batches_from_lookup (fuel : nat) :
  forall (i k : nat) (l : list string) (b : list string),
    batches_from fuel i l !! k = Some b ->
    b = take BATCH_SIZE (drop (i + BATCH_SIZE * k) l).
Proof.
  induction fuel as [|fuel IH]; intros i k l b; simpl; [done|].
  destruct (i <? length l); [|done].
  destruct k as [|k]; simpl.
  - intros [= <-]. unfold Js.slice.
    replace (i + BATCH_SIZE - i) with BATCH_SIZE by lia.
    by rewrite Nat.add_0_r.
  - intros Hk. rewrite (IH _ _ _ _ Hk). f_equal. f_equal. unfold BATCH_SIZE. lia.
Qed.

Lemma batches_from_length (fuel : nat) :
  forall (i : nat) (l : list string),
    length l - i <= fuel ->
    length (batches_from fuel i l) = (length l - i + 2) / 3.
Proof.
  induction fuel as [|fuel IH]; intros i l Hfuel; cbn [batches_from length].
  - by replace (length l - i) with 0 by lia.
  - destruct (i <? length l) eqn:Hlt.
    + apply Nat.ltb_lt in Hlt. cbn [length]. rewrite IH by (unfold BATCH_SIZE; lia).
      unfold BATCH_SIZE.
      destruct (decide (length l - i < 3)) as [Hsmall|Hbig].
      * replace (length l - (i + 3)) with 0 by lia.
        assert (length l - i = 1 \/ length l - i = 2) as [-> | ->] by lia; reflexivity.
      * replace (length l - i + 2) with (length l - (i + 3) + 2 + 1 * 3) by lia.
        rewrite Nat.div_add by lia. lia.
    + apply Nat.ltb_ge in Hlt. by replace (length l - i) with 0 by lia.
Qed.

(** X23. The batches of the worker, for a list of any length. In an
    environment where the list request, the runtime and every install
    call succeed and none of the names is loaded, [preloadPackages]
    makes one install call per batch, in order; the batch number [k],
    counted from 0, is the three names from position [3k], or what is
    left of them; there are as many batches as the length of the list
    divided by three, rounded up, and together they are the list. For the
    empty list no install call is made. In every case [packagesLoaded]
    is set. *)
Theorem preloadPackages_installs_in_batches_of_three
    (E : Env) (w : World) (names : list string) :
  packagesLoaded w = false ->
  packageCache w = None ->
  (forall h, env_fetch_list E h = HttpResponse 200 (BodyPackages names)) ->
  runtime_ok E ->
  none_loaded E names ->
  installs_ok E ->
  exists w',
    preloadPackages E w = (Ok tt, w') /\
    installs (calls w') = installs (calls w) ++ batches names /\
    (forall k b, batches names !! k = Some b -> b = take 3 (drop (3 * k) names)) /\
    length (batches names) = (length names + 2) / 3 /\
    concat (batches names) = names /\
    packagesLoaded w' = true.
Proof.
  intros Hl Hc Hlist Hrt Hnone Hinst.
  destruct (PreloadFacts.preloadPackages_runs E w Hl)
    as (w' & made & Hrun & _ & _ & _ & Hmade & Hcase).
  destruct (PreloadFacts.packages_to_install_all E
              (set_self_fetch (ProgressLogger (self_fetch w)) w) names)
    as [w5 HP]; [done..|].
  rewrite HP in Hcase.
  exists w'. split; [done|].
  assert (made = batches names /\ packagesLoaded w' = true) as [-> Hloaded].
  { destruct names as [|a l'] eqn:Hnames; [done|]. rewrite <- Hnames in *.
    assert (exists a l', names = a :: l') as (a' & l'' & Hn) by (by eexists _, _).
    rewrite Hn in Hcase. rewrite <- Hn in Hcase.
    destruct Hcase as [_ Hcase].
    destruct Hrt as (_ & _ & Hpy).
    destruct (PreloadFacts.runPythonAsync_ok E PyConfigureMicropip w5 (Hpy _ _)) as [v Hv].
    destruct (runPythonAsync E PyConfigureMicropip w5) as [[x|e] w6]; [|done].
    destruct Hcase as [(Hb & _ & Hloaded)|(k & e & _ & Hans & _)].
    - split; [done|]. apply Hloaded. intros h. apply Hpy.
    - rewrite (PreloadFacts.install_answers_ok E _ _ Hinst) in Hans.
      by apply PreloadFacts.answers_not_both in Hans. }
  split; [done|]. split; [|split; [|split; [|done]]].
  - intros k b Hk. apply (batches_from_lookup _ 0 k names b) in Hk. exact Hk.
  - unfold batches. rewrite batches_from_length by lia. by rewrite Nat.sub_0_r.
  - apply PreloadFacts.batches_partition.
Qed.

Lemma preloadPackages_installs_in_batches_of_three_witness :
  exists w',
    preloadPackages MoreExamples.two_packages world0 = (Ok tt, w') /\
    installs (calls w') = [["numpy"; "pandas"]] /\
    packagesLoaded w' = true.
Proof.
  destruct (preloadPackages_installs_in_batches_of_three MoreExamples.two_packages world0
              ["numpy"; "pandas"])
    as (w' & Hrun & Hcalls & _ & _ & _ & Hloaded).
  - reflexivity.
  - reflexivity.
  - intros h. reflexivity.
  - repeat split.
  - intros h. vm_compute. repeat constructor; by intros ?%elem_of_nil.
  - intros h b. reflexivity.
  - exists w'. split; [exact Hrun|]. split; [exact Hcalls|exact Hloaded].
Defined.

Lemma bind_inv {S A B} (m : M S A) (k : A -> M S B) (s s' : S) (b : B) :
  bind m k s = (Ok b, s') ->
  exists a s1, m s = (Ok a, s1) /\ k a s1 = (Ok b, s').
Proof.
  unfold bind. destruct (m s) as [[a|e] s1]; [|done]. intros H. by exists a, s1.
Qed.

Lemma packages_to_install_filtered (E : Env) (w w' : World) (l : list string) :
  packages_to_install E w = (Ok l, w') ->
  exists h, Forall (fun x => Js.toLowerCase x ∉ installed_modules (env_sys_modules E h)) l.
Proof.
  unfold packages_to_install. intros H.
  apply bind_inv in H as (packages & w1 & _ & H).
  apply bind_inv in H as (u2 & w2 & _ & H).
  apply bind_inv in H as (u3 & w3 & _ & H).
  apply bind_inv in H as (mods & w4 & Hmods & H).
  injection H as <- _.
  exists (calls w3).
  assert (mods = installed_modules (env_sys_modules E (calls w3))) as ->.
  { unfold runPythonAsync in Hmods. run.
    destruct (env_runPython E (calls w3) PyDiagnostics); [done|]. by injection Hmods as <- _. }
  apply Forall_forall. intros x Hx. by apply list_elem_of_filter in Hx as [? _].
Qed.

Lemma elem_of_concat_of {A} (x : A) (b : list A) (ls : list (list A)) :
  x ∈ b -> b ∈ ls -> x ∈ concat ls.
Proof.
  intros Hx Hb. induction ls as [|c ls IH]; [by apply elem_of_nil in Hb|].
  simpl. apply elem_of_app. apply elem_of_cons in Hb as [<-|Hb]; [by left|right; auto].
Qed.

(** X24. The preload installs no package that the runtime reports as
    loaded. If the name of a package, in lower case, is among the loaded
    modules at every moment, then no install call of [preloadPackages]
    carries that package, whatever the list endpoint answers and whatever
    else fails or succeeds. *)
Theorem preloadPackages_skips_loaded_packages (E : Env) (w : World) (n : string) :
  packagesLoaded w = false ->
  (forall h, Js.toLowerCase n ∈ installed_modules (env_sys_modules E h)) ->
  exists (w' : World) (made : list (list string)),
    preloadPackages E w = (Ok tt, w') /\
    installs (calls w') = installs (calls w) ++ made /\
    Forall (fun batch => n ∉ batch) made.
Proof.
  intros Hl Hn.
  destruct (PreloadFacts.preloadPackages_runs E w Hl)
    as (w' & made & Hrun & _ & _ & _ & Hmade & Hcase).
  exists w', made. split; [done|]. split; [done|].
  destruct (packages_to_install E _) as [[l|e] w5] eqn:HP.
  - destruct (packages_to_install_filtered E _ _ _ HP) as [h Hh].
    assert (made `prefix_of` batches l) as [rest Hrest].
    { destruct l as [|a l']; [destruct Hcase as [-> _]; apply prefix_nil|].
      by destruct Hcase as [? _]. }
    apply Forall_forall. intros batch Hbatch Hin.
    assert (n ∈ concat (batches l)) as Hc.
    { rewrite Hrest, concat_app. apply elem_of_app. left.
      by apply (elem_of_concat_of n batch made). }
    destruct (PreloadFacts.batches_partition l) as [Hcat _]. rewrite Hcat in Hc.
    rewrite Forall_forall in Hh. by apply (Hh n Hc).
  - destruct Hcase as [-> _]. constructor.
Qed.

Lemma preloadPackages_skips_loaded_packages_witness :
  exists (w' : World),
    preloadPackages MoreExamples.numpy_listed_and_loaded world0 = (Ok tt, w') /\
    installs (calls w') = [["pandas"]].
Proof.
  destruct (preloadPackages_skips_loaded_packages MoreExamples.numpy_listed_and_loaded
              world0 "numpy") as (w' & made & Hrun & _ & _).
  - reflexivity.
  - intros h. vm_compute. apply list_elem_of_further, list_elem_of_here.
  - exists w'. split; [exact Hrun|]. injection Hrun as <-. vm_compute. reflexivity.
Defined.

End BatchFacts.

(** ** The build script *)

Module BuildFacts.
Import Rt Build.

(** X25. The proxy is taken from the first of the six variables that
    is set to a non-empty string, in the order [https_proxy],
    [HTTPS_PROXY], [all_proxy], [ALL_PROXY], [http_proxy], [HTTP_PROXY].
    That variable decides alone: when its value does not start with
    [http] or is not a URL no dispatcher is set, and no later variable is
    tried instead. *)
Theorem proxy_is_the_first_variable_set
    (new_URL : string -> option string) (env : ProcessEnv) :
  initNetworkProxyFromEnv new_URL env =
    match first_set (by_preference env) with
    | Some p => if startsWith "http" p then new_URL p else None
    | None => None
    end.
Proof.
  destruct env as [a b c d e f].
  unfold initNetworkProxyFromEnv, preferedProxy, by_preference, or_else. cbn [first_set
    all_proxy ALL_PROXY https_proxy HTTPS_PROXY http_proxy HTTP_PROXY].
  destruct c as [[|c0 c]|]; cbn [Js.truthy negb orb];
    [|by destruct (startsWith "http" (String c0 c))|];
    (destruct d as [[|d0 d]|]; cbn [Js.truthy negb orb];
       [|by destruct (startsWith "http" (String d0 d))|];
     (destruct a as [[|a0 a]|]; cbn [Js.truthy negb orb];
        [|by destruct (startsWith "http" (String a0 a))|];
      (destruct b as [[|b0 b]|]; cbn [Js.truthy negb orb];
         [|by destruct (startsWith "http" (String b0 b))|];
       (destruct e as [[|e0 e]|]; cbn [Js.truthy negb orb];
          [|by destruct (startsWith "http" (String e0 e))|];
        (destruct f as [[|f0 f]|]; cbn [Js.truthy negb orb];
           [|by destruct (startsWith "http" (String f0 f))|]; reflexivity))))).
Qed.

Lemma copy_entries_run (F : Fs) (s t : string) (entries : list string) :
  forall (copied failed : nat) (h : list FsCall),
    exists copied' failed',
      copy_entries F s t entries copied failed h
        = (Ok (copied', failed'),
           h ++ map (fun entry => FsCopyFile (path_join s entry) (path_join t entry)) entries) /\
      copied' + failed' = copied + failed + length entries /\
      copied <= copied' /\ failed <= failed'.
Proof.
  induction entries as [|entry rest IH]; intros copied failed h.
  - exists copied, failed. simpl. rewrite app_nil_r. unfold ret. split; [done|lia].
  - cbn [copy_entries map]. unfold bind at 1, try_catch, bind, fs_call, ret.
    destruct (fs_copyFile F h (path_join s entry) (path_join t entry)) as [e|]; simpl.
    + destruct (IH copied (S failed)
                  (h ++ [FsCopyFile (path_join s entry) (path_join t entry)]))
        as (c' & f' & Hrun & Hsum & Hc & Hf).
      exists c', f'. rewrite Hrun, <- app_assoc. split; [done|simpl; lia].
    + destruct (IH (S copied) failed
                  (h ++ [FsCopyFile (path_join s entry) (path_join t entry)]))
        as (c' & f' & Hrun & Hsum & Hc & Hf).
      exists c', f'. rewrite Hrun, <- app_assoc. split; [done|simpl; lia].
Qed.

Lemma copies_app (h1 h2 : list FsCall) : copies (h1 ++ h2) = copies h1 ++ copies h2.
Proof. unfold copies. apply omap_app. Qed.

Lemma copies_of_copy_calls (s t : string) (entries : list string) :
  copies (map (fun entry => FsCopyFile (path_join s entry) (path_join t entry)) entries)
    = map (fun entry => (path_join s entry, path_join t entry)) entries.
Proof.
  induction entries as [|entry rest IH]; [done|].
  change (copies (map _ (entry :: rest)))
    with ((path_join s entry, path_join t entry)
            :: copies (map (fun entry => FsCopyFile (path_join s entry) (path_join t entry))
                         rest)).
  by rewrite IH.
Qed.

(** X26. [copyPyodide] never rejects, and a file that cannot be
    copied does not stop the others. When the source directory can be
    listed and the target directory exists or can be created, a copy is
    asked for every entry, in the order of the listing, from the source
    to the target directory, whatever copies fail; the two counters the
    function reports add up to the number of entries. When the listing
    or the creation of the directory fails, nothing is copied. *)
Theorem copyPyodide_tries_every_file (F : Fs) (h : list FsCall) :
  exists (r : option (nat * nat)) (h' : list FsCall),
    copyPyodide F h = (Ok r, h') /\
    match fs_readdir F h "node_modules/pyodide" with
    | Ok entries =>
        let h1 := h ++ [FsReaddir "node_modules/pyodide"] in
        match fs_access F h1 "static/pyodide",
              fs_mkdir F (h1 ++ [FsAccess "static/pyodide"]) "static/pyodide" with
        | Some _, Some _ => r = None /\ copies (drop (length h) h') = []
        | _, _ =>
            copies (drop (length h) h')
              = map (fun entry => (path_join "node_modules/pyodide" entry,
                                   path_join "static/pyodide" entry)) entries /\
            exists copied failed,
              r = Some (copied, failed) /\ copied + failed = length entries
        end
    | Throw _ => r = None /\ copies (drop (length h) h') = []
    end.
Proof.
  unfold copyPyodide, ensureDirectoryExists.
  unfold try_catch, bind, fs_call, ret. cbv zeta.
  destruct (fs_readdir F h "node_modules/pyodide") as [entries|e]; simpl.
  2:{ eexists _, _. split; [reflexivity|]. split; [done|].
      by rewrite drop_app_length. }
  set (h1 := h ++ [FsReaddir "node_modules/pyodide"]).
  destruct (fs_access F h1 "static/pyodide") as [e|] eqn:Hacc; simpl.
  - destruct (fs_mkdir F (h1 ++ [FsAccess "static/pyodide"]) "static/pyodide")
      as [e'|] eqn:Hmk; simpl.
    + eexists _, _. split; [reflexivity|].
      split; [done|]. unfold h1. rewrite <- !app_assoc, drop_app_length. reflexivity.
    + destruct (copy_entries_run F "node_modules/pyodide" "static/pyodide" entries 0 0
                  ((h1 ++ [FsAccess "static/pyodide"]) ++ [FsMkdir "static/pyodide"]))
        as (c' & f' & Hrun & Hsum & _).
      rewrite Hrun. eexists _, _. split; [reflexivity|].
      split; [|by exists c', f'].
      unfold h1. rewrite <- !app_assoc, drop_app_length. simpl.
      change (copies (?a :: ?b :: ?c :: ?l)) with (copies l).
      apply copies_of_copy_calls.
  - destruct (copy_entries_run F "node_modules/pyodide" "static/pyodide" entries 0 0
                (h1 ++ [FsAccess "static/pyodide"]))
      as (c' & f' & Hrun & Hsum & _).
    rewrite Hrun. eexists _, _. split; [reflexivity|].
    split; [|by exists c', f'].
    all: unfold h1; rewrite <- !app_assoc, drop_app_length; simpl.
    all: change (copies (?a :: ?b :: ?l)) with (copies l).
    all: apply copies_of_copy_calls.
Qed.

Lemma slice_to_the_end (i : nat) (l : list string) :
  Js.slice i (Nat.min (i + Worker.BATCH_SIZE) (length l)) l
    = Js.slice i (i + Worker.BATCH_SIZE) l.
Proof.
  unfold Js.slice.
  destruct (decide (i + Worker.BATCH_SIZE <= length l)) as [Hle|Hgt].
  - by rewrite Nat.min_l.
  - rewrite Nat.min_r by lia.
    rewrite !take_ge; [done|rewrite length_drop; lia..].
Qed.

Lemma install_batches_same_loop (E : Env) (fuel : nat) :
  forall (i : nat) (l : list string) (w : World),
    install_batches E fuel i l w = Worker.install_batches E fuel i l w.
Proof.
  induction fuel as [|fuel IH]; intros i l w; simpl; [done|].
  destruct (i <? length l); [|done].
  rewrite slice_to_the_end. apply bind_ext. intros _ w1. apply IH.
Qed.

(** X27. The [installPackages] of the generated initialization
    script cuts its list exactly as the worker does, although it clamps
    the end of each slice to the length of the list. It never rejects;
    the install calls it makes are a prefix of the worker's batches of
    the same list, one call after the other, and all of them when the
    runtime and every install call succeed. *)
Theorem generated_installPackages_batches
    (E : Env) (pyodidePackages : list string) (w : World) :
  exists (w' : World) (made : list (list string)),
    installPackages E pyodidePackages w = (Ok tt, w') /\
    installs (calls w') = installs (calls w) ++ made /\
    made `prefix_of` Worker.batches pyodidePackages /\
    (runtime_ok E -> installs_ok E -> made = Worker.batches pyodidePackages).
Proof.
  unfold installPackages.
  pose proof (calm_native_loadPackage E window_fetch ["micropip"] w) as C1.
  pose proof (PreloadFacts.native_loadPackage_result E window_fetch ["micropip"] w) as R1.
  destruct (Loader.native_loadPackage E window_fetch ["micropip"] w) as [r1 w1] eqn:H1.
  simpl in C1, R1.
  destruct r1 as [[]|e1].
  2:{ exists w1, []. split; [|split; [|split]].
      - erewrite try_catch_throw; [reflexivity|]. by erewrite bind_throw.
      - rewrite app_nil_r. by destruct C1.
      - apply prefix_nil.
      - intros (Hload & _) _. rewrite Hload in R1. discriminate. }
  set (w2 := upd_calls (fun h => h ++ [CPyimport "micropip"]) w1).
  assert (pyimport E "micropip" w1
          = (match env_pyimport E (calls w1) "micropip" with
             | None => Ok tt | Some e => Throw e end, w2)) as H2.
  { unfold pyimport. run. by destruct (env_pyimport E (calls w1) "micropip"). }
  assert (installs (calls w2) = installs (calls w)) as I2.
  { unfold w2. simpl. rewrite installs_snoc, app_nil_r. by destruct C1. }
  destruct (env_pyimport E (calls w1) "micropip") as [e2|] eqn:Himp.
  { exists w2, []. split; [|split; [|split]].
    - erewrite try_catch_throw; [reflexivity|].
      erewrite bind_ok; [|exact H1]. by erewrite bind_throw.
    - by rewrite app_nil_r.
    - apply prefix_nil.
    - intros (_ & Hi & _) _. rewrite Hi in Himp. discriminate. }
  destruct (PreloadFacts.install_batches_run E (length pyodidePackages) 0 pyodidePackages w2)
    as (made & r & Hrun & Hpre & Hr); [lia|].
  rewrite <- install_batches_same_loop in Hrun.
  exists (upd_calls (fun _ => calls w2 ++ map CInstall made) w2), made.
  split; [|split; [|split]].
  - destruct r as [[]|e].
    + apply try_catch_ok. erewrite bind_ok; [|exact H1]. erewrite bind_ok; [|exact H2].
      exact Hrun.
    + erewrite try_catch_throw; [reflexivity|].
      erewrite bind_ok; [|exact H1]. erewrite bind_ok; [|exact H2]. exact Hrun.
  - change (calls (upd_calls _ w2)) with (calls w2 ++ map CInstall made).
    by rewrite PreloadFacts.installs_app, PreloadFacts.installs_map_CInstall, I2.
  - exact Hpre.
  - intros _ Hinst. destruct r as [[]|e]; [by destruct Hr|].
    destruct Hr as (k & _ & Hans).
    rewrite (PreloadFacts.install_answers_ok E _ _ Hinst) in Hans.
    by apply PreloadFacts.answers_not_both in Hans.
Qed.

Lemma assign_values {V} (d : V) (o : list (string * V)) (k : string) :
  Forall (fun kv => snd kv = d) o -> Forall (fun kv => snd kv = d) (assign o k d).
Proof.
  induction 1 as [|[k' v'] o Hv Ho IH]; simpl; [by repeat constructor|].
  destruct (String.eqb k' k); constructor; done.
Qed.

Lemma assign_keys {V} (o : list (string * V)) (k : string) (v : V) (k0 : string) :
  k0 ∈ map fst (assign o k v) <-> k0 ∈ map fst o \/ k0 = k.
Proof.
  induction o as [|[k' v'] o IH]; simpl.
  - rewrite list_elem_of_singleton. split; [by right|]. by intros [?%elem_of_nil|?].
  - destruct (String.eqb k' k) eqn:Hk; simpl.
    + apply String.eqb_eq in Hk as ->. rewrite !elem_of_cons. naive_solver.
    + rewrite !elem_of_cons, IH. naive_solver.
Qed.

Lemma manifestContent_spec (pkgs : list string) :
  forall o : list (string * VersionInfo),
    Forall (fun kv => snd kv = mkVersionInfo true "unknown") o ->
    let m := fold_left (fun o pkg => assign o pkg (mkVersionInfo true "unknown")) pkgs o in
    Forall (fun kv => snd kv = mkVersionInfo true "unknown") m /\
    forall k, k ∈ map fst m <-> k ∈ map fst o \/ k ∈ pkgs.
Proof.
  induction pkgs as [|p pkgs IH]; intros o Ho; simpl.
  - split; [done|]. intros k. split; [by left|]. by intros [?|?%elem_of_nil].
  - destruct (IH (assign o p (mkVersionInfo true "unknown"))) as [Hv Hk].
    { by apply assign_values. }
    split; [exact Hv|]. intros k. rewrite Hk, assign_keys, elem_of_cons. naive_solver.
Qed.

Lemma property_of_key {V} (o : list (string * V)) (k : string) :
  k ∈ map fst o -> exists v, property o k = Some v /\ (k, v) ∈ o.
Proof.
  induction o as [|[k' v'] o IH]; simpl; [by intros ?%elem_of_nil|].
  intros Hk. destruct (String.eqb k' k) eqn:He.
  - apply String.eqb_eq in He as ->. exists v'. split; [done|apply list_elem_of_here].
  - apply elem_of_cons in Hk as [->|Hk]; [by rewrite String.eqb_refl in He|].
    destruct (IH Hk) as (v & Hv & Hin). exists v. split; [done|by apply list_elem_of_further].
Qed.

Lemma toLowerCase_truthy (s : string) : Js.truthy (Js.toLowerCase s) = Js.truthy s.
Proof. by destruct s. Qed.

(** X28. The version lookup of the generated helper script ignores
    letter case, while its membership test does not. For the manifest
    the build script writes for a list of packages, [getPackageVersion]
    finds the entry of every package of the list, whatever the case of
    the letters in which the name is asked for, and finds nothing for a
    name that matches no package of the list; [isPyodidePackage] holds
    only of the names exactly as listed. *)
Theorem getPackageVersion_ignores_case (pkgs : list string) (asked : string) :
  ((exists p, p ∈ pkgs /\ p <> "" /\ Js.toLowerCase p = Js.toLowerCase asked) ->
   getPackageVersion (manifestContent pkgs) asked = Some (mkVersionInfo true "unknown")) /\
  ((forall p, p ∈ pkgs -> Js.toLowerCase p <> Js.toLowerCase asked) ->
   getPackageVersion (manifestContent pkgs) asked = None) /\
  (isPyodidePackage pkgs asked = true <-> asked ∈ pkgs).
Proof.
  destruct (manifestContent_spec pkgs [] (Forall_nil_2 _)) as [Hv Hk].
  fold (manifestContent pkgs) in Hv, Hk.
  split; [|split].
  - intros (p & Hp & Hne & Hlow). unfold getPackageVersion.
    destruct (find _ (manifestContent pkgs)) as [[key v]|] eqn:Hfind.
    + apply find_some in Hfind as [Hin Heq]. simpl in Heq.
      apply String.eqb_eq in Heq.
      assert (Js.truthy key = true) as ->.
      { rewrite <- toLowerCase_truthy, Heq, <- Hlow, toLowerCase_truthy. by destruct p. }
      destruct (property_of_key (manifestContent pkgs) key) as (v' & -> & Hin').
      { apply list_elem_of_fmap. exists (key, v). split; [done|].
        by apply list_elem_of_In. }
      f_equal. rewrite Forall_forall in Hv. apply (Hv (key, v') Hin').
    + assert (p ∈ map fst (manifestContent pkgs)) as Hkey by (apply Hk; by right).
      apply list_elem_of_fmap in Hkey as ([k v] & -> & Hin).
      apply list_elem_of_In in Hin.
      pose proof (find_none _ _ Hfind _ Hin) as Hno. simpl in Hno, Hlow.
      by rewrite Hlow, String.eqb_refl in Hno.
  - intros Hnone. unfold getPackageVersion.
    destruct (find _ (manifestContent pkgs)) as [[key v]|] eqn:Hfind; [|done].
    apply find_some in Hfind as [Hin Heq]. simpl in Heq. apply String.eqb_eq in Heq.
    assert (key ∈ pkgs) as Hkey.
    { assert (key ∈ map fst (manifestContent pkgs)) as Hm.
      { apply list_elem_of_fmap. exists (key, v). split; [done|by apply list_elem_of_In]. }
      apply Hk in Hm as [?%elem_of_nil|?]; done. }
    by destruct (Hnone key Hkey).
  - unfold isPyodidePackage. apply bool_decide_eq_true.
Qed.

End BuildFacts.
